(** * Execution Kernel: wire formats, commitments and the vault state machine

    A shallow embedding of the code blocks published in the Execution Kernel
    documentation: the Solidity libraries [KernelOutputParser] and
    [AgentOutputParser], the reference vault [MyVault], the action dispatcher
    of [KernelVault], the verifier entry point [verifyAndParseWithImageId],
    and the wire formats of [KernelInputV1], [KernelJournalV1] and
    [AgentOutput].

    Bytes are [Byte.byte]; Solidity's [uintN] and Rust's [uN] are [Z] with the
    range written out; [bytes32] is a list of 32 bytes; a reverting call is a
    value of the error side of [result]. *)

From Stdlib Require Import ZArith List Lia Bool.
From Stdlib Require Import Strings.Byte.
Import ListNotations.
Open Scope Z_scope.

(* ================================================================== *)
(** ** Bytes and little-endian integers *)
(* ================================================================== *)

Definition bytes := list byte.

Definition Z_of_byte (b : byte) : Z := Z.of_N (Byte.to_N b).

Definition byte_of_Z (z : Z) : byte :=
  match Byte.of_N (Z.to_N (z mod 256)) with
  | Some b => b
  | None => x00
  end.

(** [data[offset]] of Solidity: an index out of range reverts. *)
Definition at_index (data : bytes) (offset : nat) : option byte :=
  nth_error data offset.

(** [data[lo:hi]] of Solidity: reverts unless [lo <= hi <= data.length]. *)
Definition slice (data : bytes) (lo hi : nat) : option bytes :=
  if (Nat.leb lo hi && Nat.leb hi (length data))%bool
  then Some (firstn (hi - lo) (skipn lo data))
  else None.

Definition zero32 : bytes := repeat x00 32.

Definition bytes_eqb (a b : bytes) : bool :=
  if list_eq_dec Byte.byte_eq_dec a b then true else false.

(** Little-endian encoders of the canonical codec ([u32], [u64]). *)
Definition u32_le (n : Z) : bytes :=
  [ byte_of_Z n; byte_of_Z (Z.shiftr n 8);
    byte_of_Z (Z.shiftr n 16); byte_of_Z (Z.shiftr n 24) ].

Definition u64_le (n : Z) : bytes :=
  u32_le n ++ u32_le (Z.shiftr n 32).

(* ================================================================== *)
(** ** SHA-256 (FIPS 180-4), the digest behind every commitment *)
(* ================================================================== *)

Module SHA256.

Definition w32 (x : Z) : Z := Z.land x 0xffffffff.
Definition add32 (x y : Z) : Z := w32 (x + y).
Definition rotr (n x : Z) : Z :=
  Z.lor (Z.shiftr x n) (w32 (Z.shiftl x (32 - n))).
Definition shr (n x : Z) : Z := Z.shiftr x n.
Definition not32 (x : Z) : Z := Z.lxor x 0xffffffff.

Definition Ch (x y z : Z) : Z := Z.lxor (Z.land x y) (Z.land (not32 x) z).
Definition Maj (x y z : Z) : Z :=
  Z.lxor (Z.lxor (Z.land x y) (Z.land x z)) (Z.land y z).
Definition Sigma0 (x : Z) : Z := Z.lxor (Z.lxor (rotr 2 x) (rotr 13 x)) (rotr 22 x).
Definition Sigma1 (x : Z) : Z := Z.lxor (Z.lxor (rotr 6 x) (rotr 11 x)) (rotr 25 x).
Definition sigma0 (x : Z) : Z := Z.lxor (Z.lxor (rotr 7 x) (rotr 18 x)) (shr 3 x).
Definition sigma1 (x : Z) : Z := Z.lxor (Z.lxor (rotr 17 x) (rotr 19 x)) (shr 10 x).

Definition K : list Z :=
  [ 0x428A2F98; 0x71374491; 0xB5C0FBCF; 0xE9B5DBA5; 0x3956C25B; 0x59F111F1;
    0x923F82A4; 0xAB1C5ED5; 0xD807AA98; 0x12835B01; 0x243185BE; 0x550C7DC3;
    0x72BE5D74; 0x80DEB1FE; 0x9BDC06A7; 0xC19BF174; 0xE49B69C1; 0xEFBE4786;
    0x0FC19DC6; 0x240CA1CC; 0x2DE92C6F; 0x4A7484AA; 0x5CB0A9DC; 0x76F988DA;
    0x983E5152; 0xA831C66D; 0xB00327C8; 0xBF597FC7; 0xC6E00BF3; 0xD5A79147;
    0x06CA6351; 0x14292967; 0x27B70A85; 0x2E1B2138; 0x4D2C6DFC; 0x53380D13;
    0x650A7354; 0x766A0ABB; 0x81C2C92E; 0x92722C85; 0xA2BFE8A1; 0xA81A664B;
    0xC24B8B70; 0xC76C51A3; 0xD192E819; 0xD6990624; 0xF40E3585; 0x106AA070;
    0x19A4C116; 0x1E376C08; 0x2748774C; 0x34B0BCB5; 0x391C0CB3; 0x4ED8AA4A;
    0x5B9CCA4F; 0x682E6FF3; 0x748F82EE; 0x78A5636F; 0x84C87814; 0x8CC70208;
    0x90BEFFFA; 0xA4506CEB; 0xBEF9A3F7; 0xC67178F2 ].

Definition H0 : list Z :=
  [ 0x6A09E667; 0xBB67AE85; 0x3C6EF372; 0xA54FF53A;
    0x510E527F; 0x9B05688C; 0x1F83D9AB; 0x5BE0CD19 ].

(** Big-endian integer of a byte string, and back on a fixed width. *)
Definition be_to_Z (bs : bytes) : Z :=
  fold_left (fun acc b => Z.lor (Z.shiftl acc 8) (Z_of_byte b)) bs 0.

Fixpoint Z_to_be (width : nat) (n : Z) : bytes :=
  match width with
  | O => []
  | S w => byte_of_Z (Z.shiftr n (8 * Z.of_nat w)) :: Z_to_be w n
  end.

(** Padding: a 1 bit, zeros up to 56 modulo 64, the bit length on 8 bytes. *)
Definition pad (msg : bytes) : bytes :=
  let len := length msg in
  let zeros := ((119 - len mod 64) mod 64)%nat in
  msg ++ [x80] ++ repeat x00 zeros ++ Z_to_be 8 (8 * Z.of_nat len).

Fixpoint chunks (fuel size : nat) (bs : bytes) : list bytes :=
  match fuel with
  | O => []
  | S f =>
      match bs with
      | [] => []
      | _ => firstn size bs :: chunks f size (skipn size bs)
      end
  end.

(** The message schedule, newest word first. *)
Fixpoint extend (n : nat) (ws : list Z) : list Z :=
  match n with
  | O => ws
  | S m =>
      let w := add32 (add32 (sigma1 (nth 1 ws 0)) (nth 6 ws 0))
                     (add32 (sigma0 (nth 14 ws 0)) (nth 15 ws 0)) in
      extend m (w :: ws)
  end.

Definition schedule (block : bytes) : list Z :=
  rev (extend 48 (rev (map be_to_Z (chunks 16 4 block)))).

Record regs := Regs { ra : Z; rb : Z; rc : Z; rd : Z; re : Z; rf : Z; rg : Z; rh : Z }.

Definition round (s : regs) (kw : Z * Z) : regs :=
  let t1 := add32 (add32 (add32 (rh s) (Sigma1 (re s))) (Ch (re s) (rf s) (rg s)))
                  (add32 (fst kw) (snd kw)) in
  let t2 := add32 (Sigma0 (ra s)) (Maj (ra s) (rb s) (rc s)) in
  Regs (add32 t1 t2) (ra s) (rb s) (rc s) (add32 (rd s) t1) (re s) (rf s) (rg s).

Definition regs_of (h : list Z) : regs :=
  Regs (nth 0 h 0) (nth 1 h 0) (nth 2 h 0) (nth 3 h 0)
       (nth 4 h 0) (nth 5 h 0) (nth 6 h 0) (nth 7 h 0).

Definition list_of (s : regs) : list Z :=
  [ra s; rb s; rc s; rd s; re s; rf s; rg s; rh s].

Definition compress (h : list Z) (block : bytes) : list Z :=
  let s := fold_left round (combine K (schedule block)) (regs_of h) in
  map (fun p => add32 (fst p) (snd p)) (combine h (list_of s)).

Definition digest (msg : bytes) : bytes :=
  let padded := pad msg in
  let h := fold_left compress (chunks (length padded) 64 padded) H0 in
  flat_map (Z_to_be 4) h.

End SHA256.

Definition sha256 (data : bytes) : bytes := SHA256.digest data.

(* ================================================================== *)
(** ** Results: a Rust [Result], a Solidity call that returns or reverts *)
(* ================================================================== *)

Inductive result (E A : Type) : Type :=
| Ok (a : A)
| Err (e : E).
Arguments Ok {E A} a.
Arguments Err {E A} e.

Definition bind {E A B} (m : result E A) (k : A -> result E B) : result E B :=
  match m with
  | Ok a => k a
  | Err e => Err e
  end.

Notation "x <- m ;; k" := (bind m (fun x => k))
  (at level 61, m at next level, right associativity).
Notation "' p <- m ;; k" := (bind m (fun x => let p := x in k))
  (at level 61, p pattern, m at next level, right associativity).

(** [require(cond, reason)]. *)
Definition require {E} (cond : bool) (reason : E) : result E unit :=
  if cond then Ok tt else Err reason.

Notation "'check' c 'else' e ;; k" := (bind (require c e) (fun _ => k))
  (at level 61, c at next level, e at next level, right associativity).

Definition or_else {E A} (o : option A) (reason : E) : result E A :=
  match o with
  | Some a => Ok a
  | None => Err reason
  end.

(** Reasons for which the contracts revert.  The [require] strings of the
    code are given next to each name; [Panic] is the out-of-range index or
    slice of Solidity, [InvalidProof] the revert of the RISC Zero verifier,
    [CallDepth] the exhaustion of the call stack. *)
Inductive revert_reason : Type :=
| InvalidLength              (* "Invalid journal length" *)
| InvalidImageId             (* "Invalid imageId" *)
| InvalidProof
| UnsupportedProtocol        (* "Unsupported protocol" *)
| UnsupportedKernel          (* "Unsupported kernel" *)
| WrongAgent                 (* "Wrong agent" *)
| InvalidNonce               (* "Invalid nonce" *)
| NonceGapTooLarge           (* "Nonce gap too large" *)
| ExecutionFailed            (* "Execution failed" *)
| ActionCommitmentMismatch   (* "Action commitment mismatch" *)
| CallFailed                 (* "Call failed" *)
| UnknownActionType (actionType : Z)
| Panic
| CallDepth.

Definition sol (A : Type) := result revert_reason A.

(* ================================================================== *)
(** ** [library KernelOutputParser] (Solidity) *)
(* ================================================================== *)

Module KernelOutputParser.

Record ParsedJournal : Type := {
  protocolVersion : Z;       (* uint32 *)
  kernelVersion : Z;         (* uint32 *)
  agentId : bytes;           (* bytes32 *)
  agentCodeHash : bytes;     (* bytes32 *)
  constraintSetHash : bytes; (* bytes32 *)
  inputRoot : bytes;         (* bytes32 *)
  executionNonce : Z;        (* uint64 *)
  inputCommitment : bytes;   (* bytes32 *)
  actionCommitment : bytes;  (* bytes32 *)
  executionStatus : Z        (* uint8 *)
}.

Definition EXECUTION_STATUS_SUCCESS : Z := 0x01.
Definition EXECUTION_STATUS_FAILURE : Z := 0x02.

(** [uint32(uint8(data[offset])) | ... << 8 | ... << 16 | ... << 24] *)
Definition _readU32LE (data : bytes) (offset : nat) : sol Z :=
  b0 <- or_else (at_index data offset) Panic ;;
  b1 <- or_else (at_index data (offset + 1)) Panic ;;
  b2 <- or_else (at_index data (offset + 2)) Panic ;;
  b3 <- or_else (at_index data (offset + 3)) Panic ;;
  Ok (Z.lor (Z.lor (Z.lor (Z_of_byte b0)
                          (Z.shiftl (Z_of_byte b1) 8))
                   (Z.shiftl (Z_of_byte b2) 16))
            (Z.shiftl (Z_of_byte b3) 24)).

(** [uint64(_readU32LE(data, offset)) | (uint64(_readU32LE(data, offset + 4)) << 32)] *)
Definition _readU64LE (data : bytes) (offset : nat) : sol Z :=
  lo <- _readU32LE data offset ;;
  hi <- _readU32LE data (offset + 4) ;;
  Ok (Z.lor lo (Z.shiftl hi 32)).

Definition parse (journal : bytes) : sol ParsedJournal :=
  check (Nat.eqb (length journal) 209) else InvalidLength ;;
  protocolVersion <- _readU32LE journal 0 ;;
  kernelVersion <- _readU32LE journal 4 ;;
  agentId <- or_else (slice journal 8 40) Panic ;;
  agentCodeHash <- or_else (slice journal 40 72) Panic ;;
  constraintSetHash <- or_else (slice journal 72 104) Panic ;;
  inputRoot <- or_else (slice journal 104 136) Panic ;;
  executionNonce <- _readU64LE journal 136 ;;
  inputCommitment <- or_else (slice journal 144 176) Panic ;;
  actionCommitment <- or_else (slice journal 176 208) Panic ;;
  executionStatus <- or_else (at_index journal 208) Panic ;;
  Ok {| protocolVersion := protocolVersion;
        kernelVersion := kernelVersion;
        agentId := agentId;
        agentCodeHash := agentCodeHash;
        constraintSetHash := constraintSetHash;
        inputRoot := inputRoot;
        executionNonce := executionNonce;
        inputCommitment := inputCommitment;
        actionCommitment := actionCommitment;
        executionStatus := Z_of_byte executionStatus |}.

End KernelOutputParser.

(* ================================================================== *)
(** ** [library AgentOutputParser] (Solidity) *)
(* ================================================================== *)

Module AgentOutputParser.

Import KernelOutputParser.

Record ActionV1 : Type := {
  actionType : Z;   (* uint32 *)
  target : bytes;   (* bytes32 *)
  payload : bytes
}.

Definition ACTION_TYPE_CALL : Z := 0x00000002.
Definition ACTION_TYPE_TRANSFER_ERC20 : Z := 0x00000003.
Definition ACTION_TYPE_NO_OP : Z := 0x00000004.

(** The body of [for (uint256 i = 0; i < actionCount; i++)], by recursion on
    the number of actions still to read.  [actionLen] is read and not used. *)
Fixpoint parseActions_from (count : nat) (agentOutput : bytes) (offset : nat)
  : sol (list ActionV1) :=
  match count with
  | O => Ok []
  | S count' =>
      actionLen <- _readU32LE agentOutput offset ;;
      let offset := (offset + 4)%nat in
      actionType <- _readU32LE agentOutput offset ;;
      let offset := (offset + 4)%nat in
      target <- or_else (slice agentOutput offset (offset + 32)) Panic ;;
      let offset := (offset + 32)%nat in
      payloadLen <- _readU32LE agentOutput offset ;;
      let offset := (offset + 4)%nat in
      payload <- or_else (slice agentOutput offset (offset + Z.to_nat payloadLen)) Panic ;;
      let offset := (offset + Z.to_nat payloadLen)%nat in
      rest <- parseActions_from count' agentOutput offset ;;
      Ok ({| actionType := actionType; target := target; payload := payload |} :: rest)
  end.

Definition parseActions (agentOutput : bytes) : sol (list ActionV1) :=
  let offset := 0%nat in
  actionCount <- _readU32LE agentOutput offset ;;
  let offset := (offset + 4)%nat in
  parseActions_from (Z.to_nat actionCount) agentOutput offset.

End AgentOutputParser.

(* ================================================================== *)
(** ** [kernel-core]: protocol types and the canonical codec *)
(* ================================================================== *)

Module KernelCore.

Import AgentOutputParser.

Definition PROTOCOL_VERSION : Z := 1.
Definition KERNEL_VERSION : Z := 1.
Definition MAX_AGENT_INPUT_BYTES : Z := 64000.
Definition MAX_ACTIONS_PER_OUTPUT : Z := 64.
Definition MAX_ACTION_PAYLOAD_BYTES : Z := 16384.

Record KernelInputV1 : Type := {
  in_protocol_version : Z;        (* u32 *)
  in_kernel_version : Z;          (* u32 *)
  in_agent_id : bytes;            (* [u8; 32] *)
  in_agent_code_hash : bytes;     (* [u8; 32] *)
  in_constraint_set_hash : bytes; (* [u8; 32] *)
  in_input_root : bytes;          (* [u8; 32] *)
  in_execution_nonce : Z;         (* u64 *)
  opaque_agent_inputs : bytes     (* Vec<u8> *)
}.

(** [#[repr(u8)] pub enum ExecutionStatus { Success = 0x01, Failure = 0x02 }] *)
Inductive ExecutionStatus : Type := Success | Failure.

Definition status_byte (s : ExecutionStatus) : Z :=
  match s with
  | Success => 0x01
  | Failure => 0x02
  end.

Definition status_of_byte (b : Z) : option ExecutionStatus :=
  if b =? 0x01 then Some Success
  else if b =? 0x02 then Some Failure
  else None.

Record KernelJournalV1 : Type := {
  protocol_version : Z;
  kernel_version : Z;
  agent_id : bytes;
  agent_code_hash : bytes;
  constraint_set_hash : bytes;
  input_root : bytes;
  execution_nonce : Z;
  input_commitment : bytes;
  action_commitment : bytes;
  execution_status : ExecutionStatus
}.

(** [pub struct AgentOutput { actions: Vec<ActionV1> }]; an action has the
    three fields the Solidity parser gives it. *)
Record AgentOutput : Type := { actions : list ActionV1 }.

(** The errors named in the validation rules of the two formats. *)
Inductive CodecError : Type :=
| InvalidVersion
| InputTooLarge
| CodecInvalidLength
| InvalidExecutionStatus.

(** Modelled from the spec: the Rust encoder of [KernelInputV1] is not part
    of the documentation sources; this one follows the binary layout table of
    the input format (fields in order, integers little-endian, 32-byte arrays
    raw, the opaque inputs behind a 4-byte length). *)
Definition encode_input (x : KernelInputV1) : bytes :=
  u32_le (in_protocol_version x) ++
  u32_le (in_kernel_version x) ++
  in_agent_id x ++
  in_agent_code_hash x ++
  in_constraint_set_hash x ++
  in_input_root x ++
  u64_le (in_execution_nonce x) ++
  u32_le (Z.of_nat (length (opaque_agent_inputs x))) ++
  opaque_agent_inputs x.

(** [uN::from_le_bytes] *)
Definition from_le_bytes (bs : bytes) : Z :=
  fold_right (fun b acc => Z_of_byte b + 256 * acc) 0 bs.

(** A cursor read: the next [n] bytes and the rest, or a length error. *)
Definition take (n : nat) (bs : bytes) : result CodecError (bytes * bytes) :=
  if Nat.leb n (length bs) then Ok (firstn n bs, skipn n bs)
  else Err CodecInvalidLength.

(** Modelled from the spec: the Rust decoder of [KernelInputV1] is not part
    of the documentation sources; this one reads the fields of the layout
    table in order and enforces the four validation rules of the input
    format (both versions equal 1, at most 64,000 opaque bytes, no trailing
    bytes). *)
Definition decode_input (data : bytes) : result CodecError KernelInputV1 :=
  '(pv, r) <- take 4 data ;;
  check (from_le_bytes pv =? PROTOCOL_VERSION) else InvalidVersion ;;
  '(kv, r) <- take 4 r ;;
  check (from_le_bytes kv =? KERNEL_VERSION) else InvalidVersion ;;
  '(aid, r) <- take 32 r ;;
  '(ach, r) <- take 32 r ;;
  '(csh, r) <- take 32 r ;;
  '(root, r) <- take 32 r ;;
  '(nonce, r) <- take 8 r ;;
  '(len, r) <- take 4 r ;;
  check (from_le_bytes len <=? MAX_AGENT_INPUT_BYTES) else InputTooLarge ;;
  '(opaque, r) <- take (Z.to_nat (from_le_bytes len)) r ;;
  check (Nat.eqb (length r) 0) else CodecInvalidLength ;;
  Ok {| in_protocol_version := from_le_bytes pv;
        in_kernel_version := from_le_bytes kv;
        in_agent_id := aid;
        in_agent_code_hash := ach;
        in_constraint_set_hash := csh;
        in_input_root := root;
        in_execution_nonce := from_le_bytes nonce;
        opaque_agent_inputs := opaque |}.

(** Modelled from the spec: the Rust encoder of [KernelJournalV1] is not part
    of the documentation sources; this one follows the binary layout table of
    the journal format, offset by offset. *)
Definition encode_journal (j : KernelJournalV1) : bytes :=
  u32_le (protocol_version j) ++          (* offset 0 *)
  u32_le (kernel_version j) ++            (* offset 4 *)
  agent_id j ++                           (* offset 8 *)
  agent_code_hash j ++                    (* offset 40 *)
  constraint_set_hash j ++                (* offset 72 *)
  input_root j ++                         (* offset 104 *)
  u64_le (execution_nonce j) ++           (* offset 136 *)
  input_commitment j ++                   (* offset 144 *)
  action_commitment j ++                  (* offset 176 *)
  [byte_of_Z (status_byte (execution_status j))].  (* offset 208 *)

(** Modelled from the spec: the Rust decoder of [KernelJournalV1] is not part
    of the documentation sources; this one enforces the four validation rules
    of the journal format (209 bytes in all, both versions equal 1, a status
    byte of 0x01 or 0x02) on the fields at the offsets of the layout. *)
Definition decode_journal (data : bytes) : result CodecError KernelJournalV1 :=
  check (Nat.eqb (length data) 209) else CodecInvalidLength ;;
  '(pv, r) <- take 4 data ;;
  check (from_le_bytes pv =? PROTOCOL_VERSION) else InvalidVersion ;;
  '(kv, r) <- take 4 r ;;
  check (from_le_bytes kv =? KERNEL_VERSION) else InvalidVersion ;;
  '(aid, r) <- take 32 r ;;
  '(ach, r) <- take 32 r ;;
  '(csh, r) <- take 32 r ;;
  '(root, r) <- take 32 r ;;
  '(nonce, r) <- take 8 r ;;
  '(ic, r) <- take 32 r ;;
  '(ac, r) <- take 32 r ;;
  '(st, r) <- take 1 r ;;
  status <- or_else (status_of_byte (from_le_bytes st)) InvalidExecutionStatus ;;
  Ok {| protocol_version := from_le_bytes pv;
        kernel_version := from_le_bytes kv;
        agent_id := aid;
        agent_code_hash := ach;
        constraint_set_hash := csh;
        input_root := root;
        execution_nonce := from_le_bytes nonce;
        input_commitment := ic;
        action_commitment := ac;
        execution_status := status |}.

(** Modelled from the spec: the Rust encoder of [AgentOutput] is not part of
    the documentation sources; this one writes what [parseActions] reads: a
    4-byte count, then for each action its length on 4 bytes, its type, its
    32-byte target, its payload length and its payload. *)
Definition encode_action (a : ActionV1) : bytes :=
  let body := u32_le (actionType a) ++ target a ++
              u32_le (Z.of_nat (length (payload a))) ++ payload a in
  u32_le (Z.of_nat (length body)) ++ body.

Definition encode_output (o : AgentOutput) : bytes :=
  u32_le (Z.of_nat (length (actions o))) ++ flat_map encode_action (actions o).

(** The constant published as the empty output commitment. *)
Definition EMPTY_OUTPUT_COMMITMENT : bytes :=
  [xdf;x3f;x61;x98;x04;xa9;x2f;xdb;x40;x57;x19;x2d;xc4;x3d;xd7;x48;
   xea;x77;x8a;xdc;x52;xbc;x49;x8c;xe8;x05;x24;xc0;x14;xb8;x11;x19].

(** The journal as the Solidity parser presents it. *)
Definition parsed_of (j : KernelJournalV1) : KernelOutputParser.ParsedJournal :=
  {| KernelOutputParser.protocolVersion := protocol_version j;
     KernelOutputParser.kernelVersion := kernel_version j;
     KernelOutputParser.agentId := agent_id j;
     KernelOutputParser.agentCodeHash := agent_code_hash j;
     KernelOutputParser.constraintSetHash := constraint_set_hash j;
     KernelOutputParser.inputRoot := input_root j;
     KernelOutputParser.executionNonce := execution_nonce j;
     KernelOutputParser.inputCommitment := input_commitment j;
     KernelOutputParser.actionCommitment := action_commitment j;
     KernelOutputParser.executionStatus := status_byte (execution_status j) |}.

(** *** Validity: the ranges the Rust types and the protocol bounds impose *)

Definition u32 (n : Z) : Prop := 0 <= n < 2 ^ 32.
Definition u64 (n : Z) : Prop := 0 <= n < 2 ^ 64.
Definition bytes32 (b : bytes) : Prop := length b = 32%nat.

Definition valid_input (x : KernelInputV1) : Prop :=
  in_protocol_version x = PROTOCOL_VERSION /\
  in_kernel_version x = KERNEL_VERSION /\
  bytes32 (in_agent_id x) /\ bytes32 (in_agent_code_hash x) /\
  bytes32 (in_constraint_set_hash x) /\ bytes32 (in_input_root x) /\
  u64 (in_execution_nonce x) /\
  Z.of_nat (length (opaque_agent_inputs x)) <= MAX_AGENT_INPUT_BYTES.

Definition valid_journal (j : KernelJournalV1) : Prop :=
  protocol_version j = PROTOCOL_VERSION /\
  kernel_version j = KERNEL_VERSION /\
  bytes32 (agent_id j) /\ bytes32 (agent_code_hash j) /\
  bytes32 (constraint_set_hash j) /\ bytes32 (input_root j) /\
  u64 (execution_nonce j) /\
  bytes32 (input_commitment j) /\ bytes32 (action_commitment j).

Definition valid_action (a : ActionV1) : Prop :=
  u32 (actionType a) /\ bytes32 (target a) /\
  Z.of_nat (length (payload a)) <= MAX_ACTION_PAYLOAD_BYTES.

Definition valid_output (o : AgentOutput) : Prop :=
  Z.of_nat (length (actions o)) <= MAX_ACTIONS_PER_OUTPUT /\
  Forall valid_action (actions o).

End KernelCore.

(* ================================================================== *)
(** ** [kernel-guest]: one execution attempt *)
(* ================================================================== *)

Module KernelGuest.

Import AgentOutputParser KernelCore.

(** [pub trait AgentEntrypoint { fn code_hash(&self) -> [u8; 32];
      fn run(&self, ctx: &AgentContext, opaque_inputs: &[u8]) -> AgentOutput; }]
    The context is what the kernel knows of the request: the decoded input. *)
Record AgentEntrypoint : Type := {
  code_hash : bytes;
  run : KernelInputV1 -> bytes -> AgentOutput
}.

Inductive KernelError : Type :=
| Codec (e : CodecError)
| AgentCodeHashMismatch.

Definition empty_output : AgentOutput := {| actions := [] |}.

(** Modelled from the spec: the body of [kernel_main_with_agent] is not part
    of the documentation sources; this one follows the journal format page.
    The input is decoded (a decoding error aborts before any journal exists);
    the code hash of the request must be the one embedded in the agent; the
    identity fields are copied from the input; [input_commitment] is the
    SHA-256 of the raw input bytes; when all constraints pass the status is
    [Success] and [action_commitment] is the SHA-256 of the encoded agent
    output; when constraints are violated the status is [Failure] and
    [action_commitment] is the SHA-256 of the encoded empty output.  The
    constraint engine is the parameter [constraints_pass]. *)
Definition kernel_main_with_agent
    (constraints_pass : KernelInputV1 -> AgentOutput -> bool)
    (input_bytes : bytes) (agent : AgentEntrypoint)
  : result KernelError KernelJournalV1 :=
  match decode_input input_bytes with
  | Err e => Err (Codec e)
  | Ok input =>
      check (bytes_eqb (in_agent_code_hash input) (code_hash agent))
        else AgentCodeHashMismatch ;;
      let agent_output := run agent input (opaque_agent_inputs input) in
      let passed := constraints_pass input agent_output in
      Ok {| protocol_version := in_protocol_version input;
            kernel_version := in_kernel_version input;
            agent_id := in_agent_id input;
            agent_code_hash := in_agent_code_hash input;
            constraint_set_hash := in_constraint_set_hash input;
            input_root := in_input_root input;
            execution_nonce := in_execution_nonce input;
            input_commitment := sha256 input_bytes;
            action_commitment :=
              if passed then sha256 (encode_output agent_output)
              else sha256 (encode_output empty_output);
            execution_status := if passed then Success else Failure |}
  end.

End KernelGuest.

(* ================================================================== *)
(** ** [contract KernelExecutionVerifier] *)
(* ================================================================== *)

Module KernelExecutionVerifier.

Import KernelOutputParser.

Section Verifier.

(** The RISC Zero verifier router: [verify(seal, imageId, journalHash)]
    returns when the proof is valid ([true]) and reverts otherwise. *)
Variable risc0_verify : bytes -> bytes -> bytes -> bool.

(** [parseJournal]: the journal parsed without verification. *)
Definition parseJournal (journal : bytes) : sol ParsedJournal := parse journal.

(** The body of [verifyAndParseWithImageId] is documented by its five steps:
    1. validates expectedImageId is not zero; 2. parses the 209-byte journal;
    3. computes the journal hash [sha256(journal)]; 4. calls the RISC Zero
    verifier with seal, imageId and journal hash; 5. returns the parsed
    journal if valid. *)
Definition verifyAndParseWithImageId (expectedImageId journal seal : bytes)
  : sol ParsedJournal :=
  check (negb (bytes_eqb expectedImageId zero32)) else InvalidImageId ;;
  parsed <- parseJournal journal ;;
  let journalHash := sha256 journal in
  check (risc0_verify seal expectedImageId journalHash) else InvalidProof ;;
  Ok parsed.

End Verifier.

End KernelExecutionVerifier.

(* ================================================================== *)
(** ** [contract MyVault]: the reference vault *)
(* ================================================================== *)

Module MyVault.

Import AgentOutputParser.

(** The immutables and the storage of the contract. *)
Record Vault : Type := {
  verifier : bytes;          (* address of the IKernelExecutionVerifier *)
  agentId : bytes;           (* bytes32, immutable *)
  trustedImageId : bytes;    (* bytes32, immutable *)
  lastExecutionNonce : Z     (* uint64 *)
}.

Definition set_lastExecutionNonce (this : Vault) (n : Z) : Vault :=
  {| verifier := verifier this;
     agentId := agentId this;
     trustedImageId := trustedImageId this;
     lastExecutionNonce := n |}.

Definition constructor (_verifier _agentId _trustedImageId : bytes) : sol Vault :=
  check (negb (bytes_eqb _trustedImageId zero32)) else InvalidImageId ;;
  Ok {| verifier := _verifier;
        agentId := _agentId;
        trustedImageId := _trustedImageId;
        lastExecutionNonce := 0 |}.

(** Checked [uint64] addition of Solidity 0.8: an overflow panics. *)
Definition add_uint64 (a b : Z) : sol Z :=
  if a + b <? 2 ^ 64 then Ok (a + b) else Err Panic.

(** [address(uint160(uint256(target)))]: the low 20 bytes of the word. *)
Definition address_of (target : bytes) : bytes := skipn 12 target.

Section Chain.

(** Everything on chain apart from the vault's own storage: balances and the
    storage of the other contracts. *)
Variable World : Type.

(** The proof oracle behind the verifier the vault was deployed with. *)
Variable risc0_verify : bytes -> bytes -> bytes -> bool.

Definition State : Type := Vault * World.

(** What a called contract does with the call it receives: it returns or
    reverts, changes the world, looks at the world and at the public state of
    the vault, and may call back into [execute] of the vault, continuing with
    the success flag of that inner call. *)
Inductive Callee : Type :=
| Return (success : bool)
| Update (f : World -> World) (k : Callee)
| Observe (k : Vault -> World -> Callee)
| Reenter (journal seal agentOutput : bytes) (k : bool -> Callee).

(** The code at each address: its behaviour on a message call from the vault
    with the given value and calldata. *)
Variable code : bytes -> Z -> bytes -> Callee.

(** The entry point a callee re-enters: [execute] one level deeper. *)
Definition entry : Type := bytes -> bytes -> bytes -> State -> sol State.

(** Running a callee.  An inner [execute] that reverts leaves the state as
    it was before that inner call; [None] is a callee that reverts. *)
Fixpoint run_callee (reenter : entry) (c : Callee) (st : State) : option State :=
  match c with
  | Return true => Some st
  | Return false => None
  | Update f k => run_callee reenter k (fst st, f (snd st))
  | Observe k => run_callee reenter (k (fst st) (snd st)) st
  | Reenter journal seal agentOutput k =>
      match reenter journal seal agentOutput st with
      | Ok st' => run_callee reenter (k true) st'
      | Err _ => run_callee reenter (k false) st
      end
  end.

(** [(bool success, ) = target.call{value: value}(callData)]: a callee that
    reverts undoes its own changes and reports [false]. *)
Definition call (reenter : entry) (target : bytes) (value : Z) (callData : bytes)
    (st : State) : bool * State :=
  match run_callee reenter (code target value callData) st with
  | Some st' => (true, st')
  | None => (false, st)
  end.

Definition _executeAction (reenter : entry) (action : ActionV1) (st : State)
  : sol State :=
  if actionType action =? ACTION_TYPE_CALL then
    let target := address_of (target action) in
    value <- KernelOutputParser._readU64LE (payload action) 0 ;;
    callData <- or_else (slice (payload action) 8 (length (payload action))) Panic ;;
    let '(success, st) := call reenter target value callData st in
    check success else CallFailed ;;
    Ok st
  else
    (* Handle other action types... *)
    Ok st.

(** [for (uint256 i = 0; i < actions.length; i++) { _executeAction(actions[i]); }] *)
Fixpoint executeActions (reenter : entry) (actions : list ActionV1) (st : State)
  : sol State :=
  match actions with
  | [] => Ok st
  | action :: rest =>
      st <- _executeAction reenter action st ;;
      executeActions reenter rest st
  end.

(** [execute], with the call depth left as fuel: every re-entry runs one
    level deeper, and the call stack of the machine is finite.  The vault is
    taken to be deployed with the address of a [KernelExecutionVerifier]. *)
Fixpoint execute (depth : nat) (journal seal agentOutput : bytes) (st : State)
  : sol State :=
  match depth with
  | O => Err CallDepth
  | S depth' =>
      let this := fst st in
      (* Verify proof with pinned imageId *)
      parsed <- KernelExecutionVerifier.verifyAndParseWithImageId risc0_verify
                  (trustedImageId this) journal seal ;;
      (* Validate versions *)
      check (KernelOutputParser.protocolVersion parsed =? 1) else UnsupportedProtocol ;;
      check (KernelOutputParser.kernelVersion parsed =? 1) else UnsupportedKernel ;;
      (* Validate agent *)
      check (bytes_eqb (KernelOutputParser.agentId parsed) (agentId this)) else WrongAgent ;;
      (* Validate nonce (with gap support) *)
      check (KernelOutputParser.executionNonce parsed >? lastExecutionNonce this)
        else InvalidNonce ;;
      bound <- add_uint64 (lastExecutionNonce this) 100 ;;
      check (KernelOutputParser.executionNonce parsed <=? bound) else NonceGapTooLarge ;;
      (* Validate status *)
      check (KernelOutputParser.executionStatus parsed
               =? KernelOutputParser.EXECUTION_STATUS_SUCCESS) else ExecutionFailed ;;
      (* Verify action commitment *)
      check (bytes_eqb (sha256 agentOutput) (KernelOutputParser.actionCommitment parsed))
        else ActionCommitmentMismatch ;;
      (* Update nonce before execution (reentrancy protection) *)
      let st := (set_lastExecutionNonce this (KernelOutputParser.executionNonce parsed),
                 snd st) in
      (* Parse and execute actions *)
      actions <- parseActions agentOutput ;;
      executeActions (execute depth') actions st
  end.

(** A submission as a transaction: a revert undoes every change, the nonce
    included, and the state after it is the state before it. *)
Definition submit (depth : nat) (journal seal agentOutput : bytes) (st : State)
  : State * option revert_reason :=
  match execute depth journal seal agentOutput st with
  | Ok st' => (st', None)
  | Err reason => (st, Some reason)
  end.

(** *** Where a callee re-enters the vault

    [reentered h c st st' j s o]: running [c] from [st] with entry point [h],
    the callee calls [execute(j, s, o)] on the vault in state [st']. *)
Inductive reentered (h : entry) : Callee -> State -> State -> bytes -> bytes -> bytes -> Prop :=
| re_now : forall j s o k st,
    reentered h (Reenter j s o k) st st j s o
| re_update : forall f k st st' j s o,
    reentered h k (fst st, f (snd st)) st' j s o ->
    reentered h (Update f k) st st' j s o
| re_observe : forall k st st' j s o,
    reentered h (k (fst st) (snd st)) st st' j s o ->
    reentered h (Observe k) st st' j s o
| re_after_ok : forall j0 s0 o0 k st st1 st' j s o,
    h j0 s0 o0 st = Ok st1 ->
    reentered h (k true) st1 st' j s o ->
    reentered h (Reenter j0 s0 o0 k) st st' j s o
| re_after_err : forall j0 s0 o0 k st e st' j s o,
    h j0 s0 o0 st = Err e ->
    reentered h (k false) st st' j s o ->
    reentered h (Reenter j0 s0 o0 k) st st' j s o.

(** The same for one action and for a batch run from [st]. *)
Definition action_reentered (h : entry) (a : ActionV1) (st st' : State)
    (j s o : bytes) : Prop :=
  actionType a = ACTION_TYPE_CALL /\
  exists value callData,
    KernelOutputParser._readU64LE (payload a) 0 = Ok value /\
    slice (payload a) 8 (length (payload a)) = Some callData /\
    reentered h (code (address_of (target a)) value callData) st st' j s o.

Inductive batch_reentered (h : entry) : list ActionV1 -> State -> State -> bytes -> bytes -> bytes -> Prop :=
| br_head : forall a rest st st' j s o,
    action_reentered h a st st' j s o ->
    batch_reentered h (a :: rest) st st' j s o
| br_tail : forall a rest st st1 st' j s o,
    _executeAction h a st = Ok st1 ->
    batch_reentered h rest st1 st' j s o ->
    batch_reentered h (a :: rest) st st' j s o.

(** *** Predicates on states and callees *)

Definition with_nonce (st : State) (n : Z) : State :=
  (set_lastExecutionNonce (fst st) n, snd st).

(** [extends st st']: the immutables kept, the nonce not decreased. *)
Definition extends (st st' : State) : Prop :=
  verifier (fst st') = verifier (fst st) /\
  agentId (fst st') = agentId (fst st) /\
  trustedImageId (fst st') = trustedImageId (fst st) /\
  lastExecutionNonce (fst st) <= lastExecutionNonce (fst st').

Definition monotone (h : entry) : Prop :=
  forall j s o st st', h j s o st = Ok st' -> extends st st'.

(** A callee that never calls back into the vault. *)
Inductive quiet : Callee -> Prop :=
| quiet_return : forall success, quiet (Return success)
| quiet_update : forall f k, quiet k -> quiet (Update f k)
| quiet_observe : forall k, (forall v w, quiet (k v w)) -> quiet (Observe k).

(** Every check of [execute] passed, in the order of the code. *)
Record accepted_by (st : State) (journal seal agentOutput : bytes)
    (parsed : KernelOutputParser.ParsedJournal) (actions : list ActionV1) : Prop := {
  acc_verified :
    KernelExecutionVerifier.verifyAndParseWithImageId risc0_verify
      (trustedImageId (fst st)) journal seal = Ok parsed;
  acc_protocol : KernelOutputParser.protocolVersion parsed = 1;
  acc_kernel : KernelOutputParser.kernelVersion parsed = 1;
  acc_agent : KernelOutputParser.agentId parsed = agentId (fst st);
  acc_nonce : lastExecutionNonce (fst st) < KernelOutputParser.executionNonce parsed;
  acc_bound : lastExecutionNonce (fst st) + 100 < 2 ^ 64;
  acc_gap : KernelOutputParser.executionNonce parsed <= lastExecutionNonce (fst st) + 100;
  acc_status : KernelOutputParser.executionStatus parsed
               = KernelOutputParser.EXECUTION_STATUS_SUCCESS;
  acc_commitment : sha256 agentOutput = KernelOutputParser.actionCommitment parsed;
  acc_actions : parseActions agentOutput = Ok actions
}.

End Chain.

Arguments with_nonce {World} st n.
Arguments extends {World} st st'.
Arguments monotone {World} h.
Arguments quiet {World} _.
Arguments Return {World} success.
Arguments Update {World} f k.
Arguments Observe {World} k.
Arguments Reenter {World} journal seal agentOutput k.

End MyVault.

(* ================================================================== *)
(** ** [contract KernelVault]: the action dispatcher *)
(* ================================================================== *)

Module KernelVault.

Import AgentOutputParser.

Section Dispatch.

Variable State : Type.

(** The two handlers, whose bodies the documentation does not give. *)
Variable _executeCall : ActionV1 -> State -> sol State.
Variable _executeTransferERC20 : ActionV1 -> State -> sol State.

Definition _executeAction (action : ActionV1) (st : State) : sol State :=
  if actionType action =? ACTION_TYPE_CALL then
    _executeCall action st
  else if actionType action =? ACTION_TYPE_TRANSFER_ERC20 then
    _executeTransferERC20 action st
  else
    Err (UnknownActionType (actionType action)).

(** The batch of [execute], step 6: the actions in order, each through the
    dispatcher, the first revert ending the batch. *)
Fixpoint executeActions (actions : list ActionV1) (st : State) : sol State :=
  match actions with
  | [] => Ok st
  | action :: rest =>
      st <- _executeAction action st ;;
      executeActions rest st
  end.

(** The batch as a transaction: a revert leaves the state untouched. *)
Definition commit (actions : list ActionV1) (st : State) : State * option revert_reason :=
  match executeActions actions st with
  | Ok st' => (st', None)
  | Err reason => (st, Some reason)
  end.

End Dispatch.

End KernelVault.

(* ================================================================== *)
(** ** A worked scenario: nonce 5 submitted to a vault at nonce 4 *)
(* ================================================================== *)

Module Scenario.

Import AgentOutputParser KernelCore KernelGuest MyVault.

Definition the_agent_id : bytes := repeat x01 32.
Definition the_code_hash : bytes := repeat x5a 32.
Definition the_image_id : bytes := repeat x07 32.
Definition seal : bytes := [x01].
Definition good_target : bytes := repeat xaa 20.
Definition bad_target : bytes := repeat xbb 20.

Definition input5 : KernelInputV1 :=
  {| in_protocol_version := 1; in_kernel_version := 1;
     in_agent_id := the_agent_id; in_agent_code_hash := the_code_hash;
     in_constraint_set_hash := zero32; in_input_root := zero32;
     in_execution_nonce := 5; opaque_agent_inputs := [] |}.

(** A [Call] of [good_target] with value 0 and two bytes of calldata. *)
Definition call_action : ActionV1 :=
  {| actionType := ACTION_TYPE_CALL;
     target := repeat x00 12 ++ good_target;
     payload := u64_le 0 ++ [x12; x34] |}.

Definition call_bad : ActionV1 :=
  {| actionType := ACTION_TYPE_CALL;
     target := repeat x00 12 ++ bad_target;
     payload := u64_le 0 |}.

Definition noop_action : ActionV1 :=
  {| actionType := ACTION_TYPE_NO_OP; target := zero32; payload := [] |}.

Definition output5 : AgentOutput := {| actions := [call_action] |}.
Definition output5b : AgentOutput := {| actions := [call_action; call_bad] |}.

Definition agent5 : AgentEntrypoint :=
  {| code_hash := the_code_hash; run := fun _ _ => output5 |}.

(** An agent that proposes nothing. *)
Definition idle_agent : AgentEntrypoint :=
  {| code_hash := the_code_hash; run := fun _ _ => empty_output |}.

Definition always_pass : KernelInputV1 -> AgentOutput -> bool := fun _ _ => true.
Definition always_violate : KernelInputV1 -> AgentOutput -> bool := fun _ _ => false.

Definition journal_of (nonce : Z) (commitment : bytes) (status : ExecutionStatus)
  : KernelJournalV1 :=
  {| protocol_version := 1; kernel_version := 1;
     agent_id := the_agent_id; agent_code_hash := the_code_hash;
     constraint_set_hash := zero32; input_root := zero32;
     execution_nonce := nonce;
     input_commitment := sha256 (encode_input input5);
     action_commitment := commitment;
     execution_status := status |}.

Definition journal5 : KernelJournalV1 :=
  journal_of 5 (sha256 (encode_output output5)) Success.
Definition journal5b : KernelJournalV1 :=
  journal_of 5 (sha256 (encode_output output5b)) Success.
Definition journal5_failed : KernelJournalV1 :=
  journal_of 5 EMPTY_OUTPUT_COMMITMENT Failure.
Definition journal5_idle : KernelJournalV1 :=
  journal_of 5 EMPTY_OUTPUT_COMMITMENT Success.
Definition journal6 : KernelJournalV1 :=
  journal_of 6 EMPTY_OUTPUT_COMMITMENT Success.

(** Both submissions of the scenario carry a valid proof. *)
Definition accept_all : bytes -> bytes -> bytes -> bool := fun _ _ _ => true.

Definition vault4 : Vault :=
  {| verifier := repeat x0e 20; agentId := the_agent_id;
     trustedImageId := the_image_id; lastExecutionNonce := 4 |}.

Definition vault_at (n : Z) : Vault := set_lastExecutionNonce vault4 n.

(** The world of the scenario counts the calls that took effect.  The code
    at [good_target] succeeds; any other address changes the world and then
    reverts. *)
Definition selective : bytes -> Z -> bytes -> Callee nat :=
  fun target _ _ =>
    if bytes_eqb target good_target then Update S (Return true)
    else Update S (Return false).

(** Code that, when called, submits the journal with nonce 6 to the vault
    and returns what that inner submission returned. *)
Definition reentering : bytes -> Z -> bytes -> Callee nat :=
  fun _ _ _ =>
    Reenter (encode_journal journal6) seal (encode_output empty_output)
      (fun ok => Update S (Return ok)).

(** Code that, when called, replays the submission that is being executed. *)
Definition replaying : bytes -> Z -> bytes -> Callee nat :=
  fun _ _ _ =>
    Reenter (encode_journal journal5) seal (encode_output output5)
      (fun ok => if ok then Update S (Return true) else Return true).

End Scenario.

(* ================================================================== *)
(** ** Vocabulary of the further properties *)
(* ================================================================== *)

(** Rebuilding the bytes of a journal from its parsed fields. *)
Definition pack_journal (p : KernelOutputParser.ParsedJournal) : bytes :=
  u32_le (KernelOutputParser.protocolVersion p) ++
  u32_le (KernelOutputParser.kernelVersion p) ++
  KernelOutputParser.agentId p ++
  KernelOutputParser.agentCodeHash p ++
  KernelOutputParser.constraintSetHash p ++
  KernelOutputParser.inputRoot p ++
  u64_le (KernelOutputParser.executionNonce p) ++
  KernelOutputParser.inputCommitment p ++
  KernelOutputParser.actionCommitment p ++
  [byte_of_Z (KernelOutputParser.executionStatus p)].

(** The fields of a journal, cut from a buffer at the offsets of the layout. *)
Definition journal_fields (data : bytes) : KernelOutputParser.ParsedJournal :=
  {| KernelOutputParser.protocolVersion := KernelCore.from_le_bytes (firstn 4 (skipn 0 data));
     KernelOutputParser.kernelVersion := KernelCore.from_le_bytes (firstn 4 (skipn 4 data));
     KernelOutputParser.agentId := firstn 32 (skipn 8 data);
     KernelOutputParser.agentCodeHash := firstn 32 (skipn 40 data);
     KernelOutputParser.constraintSetHash := firstn 32 (skipn 72 data);
     KernelOutputParser.inputRoot := firstn 32 (skipn 104 data);
     KernelOutputParser.executionNonce := KernelCore.from_le_bytes (firstn 8 (skipn 136 data));
     KernelOutputParser.inputCommitment := firstn 32 (skipn 144 data);
     KernelOutputParser.actionCommitment := firstn 32 (skipn 176 data);
     KernelOutputParser.executionStatus := KernelCore.from_le_bytes (firstn 1 (skipn 208 data)) |}.

(** An action list written with arbitrary values in the per-action length
    fields: the bytes [parseActions] accepts, whatever those fields hold. *)
Definition encode_action_with (len : Z) (a : AgentOutputParser.ActionV1) : bytes :=
  u32_le len ++ u32_le (AgentOutputParser.actionType a) ++ AgentOutputParser.target a ++
  u32_le (Z.of_nat (length (AgentOutputParser.payload a))) ++ AgentOutputParser.payload a.

Fixpoint encode_actions_with (lens : list Z) (acts : list AgentOutputParser.ActionV1)
  : bytes :=
  match lens, acts with
  | len :: lens', a :: acts' => encode_action_with len a ++ encode_actions_with lens' acts'
  | _, _ => []
  end.

(** What the types of [ActionV1] impose, without the protocol maxima. *)
Definition wire_action (a : AgentOutputParser.ActionV1) : Prop :=
  0 <= AgentOutputParser.actionType a < 2 ^ 32 /\
  length (AgentOutputParser.target a) = 32%nat /\
  Z.of_nat (length (AgentOutputParser.payload a)) < 2 ^ 32.

(** The bytes an action takes in a buffer. *)
Definition action_size (a : AgentOutputParser.ActionV1) : nat :=
  (44 + length (AgentOutputParser.payload a))%nat.

Definition actions_size (acts : list AgentOutputParser.ActionV1) : nat :=
  fold_right (fun a n => (action_size a + n)%nat) 0%nat acts.

(** A sequence of submissions, each one a transaction of its own. *)
Definition submit_all (World : Type) (risc0_verify : bytes -> bytes -> bytes -> bool)
    (code : bytes -> Z -> bytes -> MyVault.Callee World) (depth : nat)
    (submissions : list (bytes * bytes * bytes)) (st : MyVault.State World)
  : MyVault.State World :=
  fold_left
    (fun st sub =>
       fst (MyVault.submit World risc0_verify code depth
              (fst (fst sub)) (snd (fst sub)) (snd sub) st))
    submissions st.

(** The stored nonce is a [uint64]. *)
Definition nonce_in_range (this : MyVault.Vault) : Prop :=
  0 <= MyVault.lastExecutionNonce this < 2 ^ 64.

(** [keeps P h]: the entry point [h] keeps the property [P] of the vault's
    own storage. *)
Definition keeps (World : Type) (P : MyVault.Vault -> Prop) (h : MyVault.entry World)
  : Prop :=
  forall j s o st st', P (fst st) -> h j s o st = Ok st' -> P (fst st').

(** The two action types the dispatcher of [KernelVault] knows. *)
Definition known_action_type (a : AgentOutputParser.ActionV1) : Prop :=
  AgentOutputParser.actionType a = AgentOutputParser.ACTION_TYPE_CALL \/
  AgentOutputParser.actionType a = AgentOutputParser.ACTION_TYPE_TRANSFER_ERC20.

(* ================================================================== *)
(** * Properties *)
(* ================================================================== *)

Import KernelOutputParser AgentOutputParser KernelCore KernelGuest MyVault.

(* ------------------------------------------------------------------ *)
(** ** Bytes and little-endian integers *)
(* ------------------------------------------------------------------ *)

Lemma Z_of_byte_range (b : byte) : 0 <= Z_of_byte b < 256.
Proof.
  unfold Z_of_byte. pose proof (Byte.to_N_bounded b). lia.
Qed.

Lemma byte_of_Z_of_byte (b : byte) : byte_of_Z (Z_of_byte b) = b.
Proof.
  unfold byte_of_Z. pose proof (Z_of_byte_range b) as H.
  rewrite Z.mod_small by exact H. unfold Z_of_byte.
  rewrite N2Z.id, Byte.of_to_N. reflexivity.
Qed.

Lemma Z_of_byte_of_Z (z : Z) : Z_of_byte (byte_of_Z z) = z mod 256.
Proof.
  unfold byte_of_Z, Z_of_byte.
  pose proof (Z.mod_pos_bound z 256 ltac:(lia)) as H.
  destruct (Byte.of_N (Z.to_N (z mod 256))) as [b|] eqn:E.
  - apply Byte.to_of_N in E. rewrite E. lia.
  - exfalso. pose proof (Byte.to_of_N_option_map (Z.to_N (z mod 256))) as M.
    rewrite E in M. simpl in M.
    destruct (N.leb_spec (Z.to_N (z mod 256)) 255); [discriminate | lia].
Qed.

Lemma lor_shiftl_add (a b k : Z) :
  0 <= k -> 0 <= a < 2 ^ k -> Z.lor a (Z.shiftl b k) = a + b * 2 ^ k.
Proof.
  intros Hk Ha. rewrite <- Z.shiftl_mul_pow2 by exact Hk.
  assert (Hland : Z.land a (Z.shiftl b k) = 0).
  { apply Z.bits_inj'. intros n Hn. rewrite Z.land_spec, Z.bits_0.
    destruct (Z.ltb_spec n k).
    - rewrite Z.shiftl_spec_low by assumption. apply andb_false_r.
    - replace (Z.testbit a n) with false; [reflexivity|].
      symmetry. destruct (Z.eq_dec a 0) as [->|Hz]; [apply Z.bits_0|].
      apply Z.bits_above_log2; [lia|].
      apply Z.log2_lt_pow2; [lia|].
      apply Z.lt_le_trans with (2 ^ k); [lia|].
      apply Z.pow_le_mono_r; lia. }
  rewrite Z.add_nocarry_lxor by exact Hland.
  symmetry. apply Z.lxor_lor. exact Hland.
Qed.

Lemma le32_value (b0 b1 b2 b3 : byte) :
  Z.lor (Z.lor (Z.lor (Z_of_byte b0) (Z.shiftl (Z_of_byte b1) 8))
               (Z.shiftl (Z_of_byte b2) 16))
        (Z.shiftl (Z_of_byte b3) 24)
  = Z_of_byte b0 + 256 * Z_of_byte b1 + 65536 * Z_of_byte b2 + 16777216 * Z_of_byte b3.
Proof.
  pose proof (Z_of_byte_range b0). pose proof (Z_of_byte_range b1).
  pose proof (Z_of_byte_range b2). pose proof (Z_of_byte_range b3).
  rewrite (lor_shiftl_add (Z_of_byte b0) _ 8) by lia.
  rewrite (lor_shiftl_add _ (Z_of_byte b2) 16) by lia.
  rewrite (lor_shiftl_add _ (Z_of_byte b3) 24) by lia.
  lia.
Qed.

Lemma u32_le_bytes (n : Z) :
  0 <= n < 2 ^ 32 ->
  Z_of_byte (byte_of_Z n) + 256 * Z_of_byte (byte_of_Z (Z.shiftr n 8))
  + 65536 * Z_of_byte (byte_of_Z (Z.shiftr n 16))
  + 16777216 * Z_of_byte (byte_of_Z (Z.shiftr n 24)) = n.
Proof.
  intros Hn. rewrite !Z_of_byte_of_Z, !Z.shiftr_div_pow2 by lia.
  change (2 ^ 8) with 256. change (2 ^ 16) with 65536. change (2 ^ 24) with 16777216.
  change (2 ^ 32) with 4294967296 in Hn.
  Z.div_mod_to_equations. lia.
Qed.

(* ------------------------------------------------------------------ *)
(** ** Reading at an offset *)
(* ------------------------------------------------------------------ *)

Lemma length_u32_le n : length (u32_le n) = 4%nat.
Proof. reflexivity. Qed.

Lemma length_u64_le n : length (u64_le n) = 8%nat.
Proof. reflexivity. Qed.

Lemma skipn_past (a b : bytes) (n m : nat) :
  length a = n -> skipn (n + m) (a ++ b) = skipn m b.
Proof.
  intros <-. rewrite skipn_app, Nat.add_comm, Nat.add_sub.
  rewrite skipn_all2 by lia. reflexivity.
Qed.

Lemma firstn_exact (a b : bytes) (n : nat) :
  length a = n -> firstn n (a ++ b) = a.
Proof.
  intros <-. rewrite firstn_app, Nat.sub_diag, firstn_all. simpl. apply app_nil_r.
Qed.

Lemma at_index_skipn (data : bytes) (n k : nat) :
  at_index data (n + k) = at_index (skipn n data) k.
Proof. unfold at_index. symmetry. apply nth_error_skipn. Qed.

Lemma readU32LE_skipn (data : bytes) (n k : nat) :
  _readU32LE data (n + k) = _readU32LE (skipn n data) k.
Proof.
  unfold _readU32LE. rewrite <- !Nat.add_assoc.
  rewrite (at_index_skipn data n k), (at_index_skipn data n (k + 1)),
    (at_index_skipn data n (k + 2)), (at_index_skipn data n (k + 3)).
  reflexivity.
Qed.

Lemma readU64LE_skipn (data : bytes) (n k : nat) :
  _readU64LE data (n + k) = _readU64LE (skipn n data) k.
Proof.
  unfold _readU64LE. rewrite <- !Nat.add_assoc.
  rewrite (readU32LE_skipn data n k), (readU32LE_skipn data n (k + 4)).
  reflexivity.
Qed.

Lemma readU32LE_here (n : Z) (rest : bytes) :
  u32 n -> _readU32LE (u32_le n ++ rest) 0 = Ok n.
Proof.
  intros Hn. unfold _readU32LE, u32_le.
  cbn [at_index nth_error Nat.add app or_else bind].
  rewrite le32_value. f_equal. apply u32_le_bytes. exact Hn.
Qed.

Lemma shiftr32_u32 (n : Z) : u64 n -> u32 (Z.shiftr n 32).
Proof.
  unfold u64, u32. intros H. rewrite Z.shiftr_div_pow2 by lia.
  change (2 ^ 64) with (2 ^ 32 * 2 ^ 32) in H.
  split; [apply Z.div_pos; lia | apply Z.div_lt_upper_bound; lia].
Qed.

Lemma low32_u32 (n : Z) : u32 (n mod 2 ^ 32).
Proof. unfold u32. apply Z.mod_pos_bound. lia. Qed.

Lemma byte_of_Z_congr (x y : Z) :
  x mod 256 = y mod 256 -> byte_of_Z x = byte_of_Z y.
Proof. unfold byte_of_Z. intros ->. reflexivity. Qed.

Lemma u32_le_mod (n : Z) : u32_le n = u32_le (n mod 2 ^ 32).
Proof.
  unfold u32_le. rewrite !Z.shiftr_div_pow2 by lia.
  change (2 ^ 8) with 256. change (2 ^ 16) with 65536.
  change (2 ^ 24) with 16777216. change (2 ^ 32) with 4294967296.
  f_equal; [|f_equal; [|f_equal; [|f_equal]]];
    apply byte_of_Z_congr; Z.div_mod_to_equations; lia.
Qed.

Lemma readU64LE_here (n : Z) (rest : bytes) :
  u64 n -> _readU64LE (u64_le n ++ rest) 0 = Ok n.
Proof.
  intros Hn. unfold _readU64LE, u64_le. rewrite <- app_assoc.
  rewrite (u32_le_mod n), readU32LE_here by apply low32_u32.
  cbn [bind].
  change (0 + 4)%nat with (4 + 0)%nat.
  rewrite (readU32LE_skipn _ 4 0).
  change 4%nat with (4 + 0)%nat at 1.
  rewrite skipn_past by reflexivity.
  cbn [skipn]. rewrite readU32LE_here by (apply shiftr32_u32; exact Hn).
  cbn [bind]. f_equal.
  pose proof (low32_u32 n) as Hl. unfold u32 in Hl.
  rewrite lor_shiftl_add by lia.
  rewrite Z.shiftr_div_pow2 by lia.
  pose proof (Z.div_mod n (2 ^ 32) ltac:(lia)). lia.
Qed.

Lemma slice_skipn (data : bytes) (lo hi : nat) :
  (lo <= hi)%nat -> (hi <= length data)%nat ->
  slice data lo hi = Some (firstn (hi - lo) (skipn lo data)).
Proof.
  intros H1 H2. unfold slice.
  destruct (Nat.leb_spec lo hi); [|lia].
  destruct (Nat.leb_spec hi (length data)); [|lia]. reflexivity.
Qed.

(* ------------------------------------------------------------------ *)
(** ** Fields of a buffer *)
(* ------------------------------------------------------------------ *)

Lemma u32_one : u32 1.
Proof. unfold u32. lia. Qed.

Lemma skipn_exact (a b : bytes) (n : nat) :
  length a = n -> skipn n (a ++ b) = b.
Proof.
  intros <-. rewrite skipn_app, Nat.sub_diag, skipn_all. reflexivity.
Qed.

Lemma slice_field (pre f post : bytes) (lo hi : nat) :
  length pre = lo -> (lo + length f = hi)%nat ->
  slice (pre ++ f ++ post) lo hi = Some f.
Proof.
  intros Hpre Hf. rewrite slice_skipn.
  - rewrite skipn_exact by exact Hpre.
    apply f_equal, firstn_exact. lia.
  - lia.
  - rewrite !length_app. lia.
Qed.

Lemma readU32LE_field (pre post : bytes) (n : Z) (lo : nat) :
  length pre = lo -> u32 n -> _readU32LE (pre ++ u32_le n ++ post) lo = Ok n.
Proof.
  intros Hpre Hn. rewrite <- (Nat.add_0_r lo), readU32LE_skipn.
  rewrite skipn_exact by exact Hpre.
  apply readU32LE_here. exact Hn.
Qed.

Lemma readU64LE_field (pre post : bytes) (n : Z) (lo : nat) :
  length pre = lo -> u64 n -> _readU64LE (pre ++ u64_le n ++ post) lo = Ok n.
Proof.
  intros Hpre Hn. rewrite <- (Nat.add_0_r lo), readU64LE_skipn.
  rewrite skipn_exact by exact Hpre.
  apply readU64LE_here. exact Hn.
Qed.

Lemma at_index_field (pre post : bytes) (b : byte) (lo : nat) :
  length pre = lo -> at_index (pre ++ b :: post) lo = Some b.
Proof.
  intros <-. unfold at_index. rewrite nth_error_app2 by lia.
  rewrite Nat.sub_diag. reflexivity.
Qed.

(* ------------------------------------------------------------------ *)
(** ** The journal, field by field *)
(* ------------------------------------------------------------------ *)

Ltac fields_len :=
  repeat rewrite length_app;
  repeat match goal with
         | H : bytes32 _ |- _ => unfold bytes32 in H; rewrite H
         | H : length _ = 32%nat |- _ => rewrite H
         end;
  rewrite ?length_u32_le, ?length_u64_le; cbn [length]; try reflexivity; try lia.

Section JournalLayout.

Variable j : KernelJournalV1.
Hypothesis Hvalid : valid_journal j.

Let pv := u32_le (protocol_version j).
Let kv := u32_le (kernel_version j).
Let nonce := u64_le (execution_nonce j).
Let st := [byte_of_Z (status_byte (execution_status j))].

Lemma encode_journal_eq :
  encode_journal j =
  pv ++ kv ++ agent_id j ++ agent_code_hash j ++ constraint_set_hash j ++
  input_root j ++ nonce ++ input_commitment j ++ action_commitment j ++ st.
Proof. reflexivity. Qed.

Lemma encode_journal_length : length (encode_journal j) = 209%nat.
Proof.
  destruct Hvalid as (_ & _ & H1 & H2 & H3 & H4 & _ & H5 & H6).
  rewrite encode_journal_eq. subst pv kv nonce st. fields_len.
Qed.

Ltac reassoc := rewrite ?encode_journal_eq; repeat rewrite <- app_assoc; reflexivity.

Ltac split_valid :=
  destruct Hvalid as (Hpv & Hkv & H1 & H2 & H3 & H4 & Hn & H5 & H6).

Lemma journal_at_0 : _readU32LE (encode_journal j) 0 = Ok (protocol_version j).
Proof.
  split_valid. rewrite encode_journal_eq.
  apply (readU32LE_field []); [reflexivity | rewrite Hpv; apply u32_one].
Qed.

Lemma journal_at_4 : _readU32LE (encode_journal j) 4 = Ok (kernel_version j).
Proof.
  split_valid. rewrite encode_journal_eq.
  apply (readU32LE_field pv); [reflexivity | rewrite Hkv; apply u32_one].
Qed.

Lemma journal_at_8 : slice (encode_journal j) 8 40 = Some (agent_id j).
Proof.
  split_valid.
  replace (encode_journal j) with
    ((pv ++ kv) ++ agent_id j ++ agent_code_hash j ++ constraint_set_hash j ++
     input_root j ++ nonce ++ input_commitment j ++ action_commitment j ++ st)
    by reassoc.
  apply slice_field; fields_len.
Qed.

Lemma journal_at_40 : slice (encode_journal j) 40 72 = Some (agent_code_hash j).
Proof.
  split_valid.
  replace (encode_journal j) with
    ((pv ++ kv ++ agent_id j) ++ agent_code_hash j ++ constraint_set_hash j ++
     input_root j ++ nonce ++ input_commitment j ++ action_commitment j ++ st)
    by reassoc.
  apply slice_field; fields_len.
Qed.

Lemma journal_at_72 : slice (encode_journal j) 72 104 = Some (constraint_set_hash j).
Proof.
  split_valid.
  replace (encode_journal j) with
    ((pv ++ kv ++ agent_id j ++ agent_code_hash j) ++ constraint_set_hash j ++
     input_root j ++ nonce ++ input_commitment j ++ action_commitment j ++ st)
    by reassoc.
  apply slice_field; fields_len.
Qed.

Lemma journal_at_104 : slice (encode_journal j) 104 136 = Some (input_root j).
Proof.
  split_valid.
  replace (encode_journal j) with
    ((pv ++ kv ++ agent_id j ++ agent_code_hash j ++ constraint_set_hash j) ++
     input_root j ++ nonce ++ input_commitment j ++ action_commitment j ++ st)
    by reassoc.
  apply slice_field; fields_len.
Qed.

Lemma journal_at_136 : _readU64LE (encode_journal j) 136 = Ok (execution_nonce j).
Proof.
  split_valid.
  replace (encode_journal j) with
    ((pv ++ kv ++ agent_id j ++ agent_code_hash j ++ constraint_set_hash j ++
      input_root j) ++
     u64_le (execution_nonce j) ++ input_commitment j ++ action_commitment j ++ st)
    by reassoc.
  apply readU64LE_field; [fields_len | exact Hn].
Qed.

Lemma journal_at_144 : slice (encode_journal j) 144 176 = Some (input_commitment j).
Proof.
  split_valid.
  replace (encode_journal j) with
    ((pv ++ kv ++ agent_id j ++ agent_code_hash j ++ constraint_set_hash j ++
      input_root j ++ nonce) ++
     input_commitment j ++ action_commitment j ++ st)
    by reassoc.
  apply slice_field; fields_len.
Qed.

Lemma journal_at_176 : slice (encode_journal j) 176 208 = Some (action_commitment j).
Proof.
  split_valid.
  replace (encode_journal j) with
    ((pv ++ kv ++ agent_id j ++ agent_code_hash j ++ constraint_set_hash j ++
      input_root j ++ nonce ++ input_commitment j) ++
     action_commitment j ++ st)
    by reassoc.
  apply slice_field; fields_len.
Qed.

Lemma journal_at_208 :
  at_index (encode_journal j) 208
  = Some (byte_of_Z (status_byte (execution_status j))).
Proof.
  split_valid.
  replace (encode_journal j) with
    ((pv ++ kv ++ agent_id j ++ agent_code_hash j ++ constraint_set_hash j ++
      input_root j ++ nonce ++ input_commitment j ++ action_commitment j) ++
     byte_of_Z (status_byte (execution_status j)) :: [])
    by reassoc.
  apply at_index_field; fields_len.
Qed.

Lemma status_byte_roundtrip (s : ExecutionStatus) :
  Z_of_byte (byte_of_Z (status_byte s)) = status_byte s.
Proof. destruct s; reflexivity. Qed.

Lemma parse_encode_journal :
  parse (encode_journal j) = Ok (parsed_of j).
Proof.
  unfold parse. rewrite encode_journal_length. cbn [Nat.eqb require bind].
  rewrite journal_at_0, journal_at_4, journal_at_8, journal_at_40, journal_at_72,
    journal_at_104, journal_at_136, journal_at_144, journal_at_176, journal_at_208.
  cbn [bind or_else]. rewrite status_byte_roundtrip. reflexivity.
Qed.

End JournalLayout.

(* ------------------------------------------------------------------ *)
(** ** Round trips of the canonical codec *)
(* ------------------------------------------------------------------ *)

Lemma take_app (a b : bytes) (n : nat) :
  length a = n -> take n (a ++ b) = Ok (a, b).
Proof.
  intros Hn. unfold take. rewrite length_app.
  destruct (Nat.leb_spec n (length a + length b)); [|lia].
  rewrite firstn_exact, skipn_exact by exact Hn. reflexivity.
Qed.

Lemma from_le_bytes_u32 (n : Z) : u32 n -> from_le_bytes (u32_le n) = n.
Proof.
  intros Hn. unfold from_le_bytes, u32_le. cbn [fold_right].
  pose proof (u32_le_bytes n Hn). lia.
Qed.

Lemma from_le_bytes_app (a b : bytes) :
  from_le_bytes (a ++ b) = from_le_bytes a + 256 ^ Z.of_nat (length a) * from_le_bytes b.
Proof.
  unfold from_le_bytes. induction a as [|x a IH]; cbn [app fold_right length].
  - change (256 ^ Z.of_nat 0) with 1. lia.
  - rewrite IH, Nat2Z.inj_succ, Z.pow_succ_r by lia. lia.
Qed.

Lemma from_le_bytes_u64 (n : Z) : u64 n -> from_le_bytes (u64_le n) = n.
Proof.
  intros Hn. unfold u64_le. rewrite from_le_bytes_app, length_u32_le.
  rewrite (u32_le_mod n), !from_le_bytes_u32
    by (apply low32_u32 || (apply shiftr32_u32; exact Hn)).
  rewrite Z.shiftr_div_pow2 by lia.
  change (256 ^ Z.of_nat 4) with (2 ^ 32).
  pose proof (Z.div_mod n (2 ^ 32) ltac:(lia)). lia.
Qed.

Lemma decode_encode_input (x : KernelInputV1) :
  valid_input x -> decode_input (encode_input x) = Ok x.
Proof.
  intros (Hpv & Hkv & H1 & H2 & H3 & H4 & Hn & Hlen).
  assert (Hl32 : u32 (Z.of_nat (length (opaque_agent_inputs x)))).
  { unfold u32, MAX_AGENT_INPUT_BYTES in *. lia. }
  unfold decode_input, encode_input.
  rewrite take_app by reflexivity. cbn [bind].
  rewrite from_le_bytes_u32 by (rewrite Hpv; apply u32_one).
  rewrite Hpv. cbn [Z.eqb Pos.eqb PROTOCOL_VERSION require bind].
  rewrite take_app by reflexivity. cbn [bind].
  rewrite from_le_bytes_u32 by (rewrite Hkv; apply u32_one).
  rewrite Hkv. cbn [Z.eqb Pos.eqb KERNEL_VERSION require bind].
  rewrite !take_app by (assumption || reflexivity). cbn [bind].
  rewrite take_app by assumption. cbn [bind].
  rewrite take_app by assumption. cbn [bind].
  rewrite take_app by assumption. cbn [bind].
  rewrite take_app by reflexivity. cbn [bind].
  rewrite take_app by reflexivity. cbn [bind].
  rewrite from_le_bytes_u32 by exact Hl32.
  destruct (Z.leb_spec (Z.of_nat (length (opaque_agent_inputs x))) MAX_AGENT_INPUT_BYTES);
    [|lia].
  cbn [require bind]. rewrite Nat2Z.id.
  rewrite <- (app_nil_r (opaque_agent_inputs x)) at 2.
  rewrite take_app by reflexivity. cbn [bind length Nat.eqb require].
  rewrite from_le_bytes_u64 by exact Hn.
  destruct x; cbn in *. subst. reflexivity.
Qed.

Lemma decode_encode_journal (j : KernelJournalV1) :
  valid_journal j -> decode_journal (encode_journal j) = Ok j.
Proof.
  intros Hv. unfold decode_journal.
  rewrite (encode_journal_length j Hv). cbn [Nat.eqb require bind].
  destruct Hv as (Hpv & Hkv & H1 & H2 & H3 & H4 & Hn & H5 & H6).
  unfold encode_journal.
  rewrite take_app by reflexivity. cbn [bind].
  rewrite from_le_bytes_u32 by (rewrite Hpv; apply u32_one).
  rewrite Hpv. cbn [Z.eqb Pos.eqb PROTOCOL_VERSION require bind].
  rewrite take_app by reflexivity. cbn [bind].
  rewrite from_le_bytes_u32 by (rewrite Hkv; apply u32_one).
  rewrite Hkv. cbn [Z.eqb Pos.eqb KERNEL_VERSION require bind].
  rewrite take_app by assumption. cbn [bind].
  rewrite take_app by assumption. cbn [bind].
  rewrite take_app by assumption. cbn [bind].
  rewrite take_app by assumption. cbn [bind].
  rewrite take_app by reflexivity. cbn [bind].
  rewrite take_app by assumption. cbn [bind].
  rewrite take_app by assumption. cbn [bind].
  rewrite <- (app_nil_r [byte_of_Z (status_byte (execution_status j))]).
  rewrite take_app by reflexivity. cbn [bind].
  rewrite from_le_bytes_u64 by exact Hn.
  replace (status_of_byte (from_le_bytes [byte_of_Z (status_byte (execution_status j))]))
    with (Some (execution_status j)) by (destruct (execution_status j); reflexivity).
  cbn [or_else bind].
  destruct j; cbn in *. subst. reflexivity.
Qed.

(** Reading inside a buffer, past a prefix. *)
Lemma readU32LE_past (pre x : bytes) (k : nat) :
  _readU32LE (pre ++ x) (length pre + k) = _readU32LE x k.
Proof. rewrite readU32LE_skipn, skipn_exact by reflexivity. reflexivity. Qed.

Lemma slice_past (pre x : bytes) (lo hi : nat) :
  slice (pre ++ x) (length pre + lo) (length pre + hi) = slice x lo hi.
Proof.
  unfold slice. rewrite length_app.
  replace (length pre + lo <=? length pre + hi)%nat with (lo <=? hi)%nat
    by (destruct (Nat.leb_spec lo hi), (Nat.leb_spec (length pre + lo) (length pre + hi));
        (reflexivity || lia)).
  replace (length pre + hi <=? length pre + length x)%nat with (hi <=? length x)%nat
    by (destruct (Nat.leb_spec hi (length x)),
                 (Nat.leb_spec (length pre + hi) (length pre + length x));
        (reflexivity || lia)).
  replace (length pre + hi - (length pre + lo))%nat with (hi - lo)%nat by lia.
  rewrite skipn_past by reflexivity. reflexivity.
Qed.

Lemma length_encode_action (a : ActionV1) :
  bytes32 (target a) ->
  length (encode_action a) = (44 + length (payload a))%nat.
Proof.
  intros H. unfold encode_action, bytes32 in *.
  rewrite !length_app, !length_u32_le, H. lia.
Qed.

Lemma parseActions_from_encode (acts : list ActionV1) :
  Forall valid_action acts ->
  forall pre post,
    parseActions_from (length acts) (pre ++ flat_map encode_action acts ++ post)
      (length pre) = Ok acts.
Proof.
  induction 1 as [|a acts Ha _ IH]; intros pre post; [reflexivity|].
  destruct Ha as (Hty & Htg & Hpl). unfold bytes32 in Htg.
  assert (Hl32 : u32 (Z.of_nat (length (payload a)))).
  { unfold u32, MAX_ACTION_PAYLOAD_BYTES in *. lia. }
  set (body := u32_le (actionType a) ++ target a ++
               u32_le (Z.of_nat (length (payload a))) ++ payload a).
  assert (Hb32 : u32 (Z.of_nat (length body))).
  { subst body. rewrite !length_app, !length_u32_le, Htg.
    unfold u32, MAX_ACTION_PAYLOAD_BYTES in *. lia. }
  set (tail := flat_map encode_action acts ++ post).
  set (L := u32_le (Z.of_nat (length body))).
  set (T := u32_le (actionType a)).
  set (PL := u32_le (Z.of_nat (length (payload a)))).
  assert (HB : pre ++ flat_map encode_action (a :: acts) ++ post
               = pre ++ L ++ T ++ target a ++ PL ++ payload a ++ tail).
  { cbn [flat_map]. unfold encode_action. fold body. subst L T PL tail body.
    repeat rewrite <- app_assoc. reflexivity. }
  rewrite HB. clear HB.
  set (B := pre ++ L ++ T ++ target a ++ PL ++ payload a ++ tail).
  assert (R0 : _readU32LE B (length pre) = Ok (Z.of_nat (length body))).
  { apply readU32LE_field; [reflexivity | exact Hb32]. }
  assert (R1 : _readU32LE B (length pre + 4) = Ok (actionType a)).
  { subst B. replace (pre ++ L ++ T ++ target a ++ PL ++ payload a ++ tail)
      with ((pre ++ L) ++ u32_le (actionType a) ++ target a ++ PL ++ payload a ++ tail)
      by (repeat rewrite <- app_assoc; reflexivity).
    apply readU32LE_field; [rewrite length_app; reflexivity | exact Hty]. }
  assert (R2 : slice B (length pre + 4 + 4) (length pre + 4 + 4 + 32) = Some (target a)).
  { subst B. replace (pre ++ L ++ T ++ target a ++ PL ++ payload a ++ tail)
      with ((pre ++ L ++ T) ++ target a ++ PL ++ payload a ++ tail)
      by (repeat rewrite <- app_assoc; reflexivity).
    apply slice_field; [rewrite !length_app; subst L T; rewrite !length_u32_le; lia | lia]. }
  assert (R3 : _readU32LE B (length pre + 4 + 4 + 32)
               = Ok (Z.of_nat (length (payload a)))).
  { subst B. replace (pre ++ L ++ T ++ target a ++ PL ++ payload a ++ tail)
      with ((pre ++ L ++ T ++ target a) ++
            u32_le (Z.of_nat (length (payload a))) ++ payload a ++ tail)
      by (repeat rewrite <- app_assoc; reflexivity).
    apply readU32LE_field;
      [rewrite !length_app; subst L T; rewrite !length_u32_le; lia | exact Hl32]. }
  assert (R4 : slice B (length pre + 4 + 4 + 32 + 4)
                 (length pre + 4 + 4 + 32 + 4 + length (payload a)) = Some (payload a)).
  { subst B. replace (pre ++ L ++ T ++ target a ++ PL ++ payload a ++ tail)
      with ((pre ++ L ++ T ++ target a ++ PL) ++ payload a ++ tail)
      by (repeat rewrite <- app_assoc; reflexivity).
    apply slice_field;
      [rewrite !length_app; subst L T PL; rewrite !length_u32_le; lia | lia]. }
  assert (R5 : parseActions_from (length acts) B
                 (length pre + 4 + 4 + 32 + 4 + length (payload a)) = Ok acts).
  { subst B tail.
    replace (pre ++ L ++ T ++ target a ++ PL ++ payload a ++
             flat_map encode_action acts ++ post)
      with ((pre ++ L ++ T ++ target a ++ PL ++ payload a) ++
            flat_map encode_action acts ++ post)
      by (repeat rewrite <- app_assoc; reflexivity).
    replace (length pre + 4 + 4 + 32 + 4 + length (payload a))%nat
      with (length (pre ++ L ++ T ++ target a ++ PL ++ payload a))
      by (rewrite !length_app; subst L T PL; rewrite !length_u32_le; lia).
    apply IH. }
  cbn [length parseActions_from].
  rewrite R0. cbn [bind]. rewrite R1. cbn [bind]. rewrite R2. cbn [bind or_else].
  rewrite R3. cbn [bind]. rewrite Nat2Z.id, R4. cbn [bind or_else].
  rewrite R5. cbn [bind]. destruct a; reflexivity.
Qed.

Lemma parseActions_encode_output (o : AgentOutput) :
  valid_output o -> parseActions (encode_output o) = Ok (actions o).
Proof.
  intros (Hcount & Hacts). unfold parseActions, encode_output.
  rewrite readU32LE_here
    by (unfold u32, MAX_ACTIONS_PER_OUTPUT in *; lia).
  cbn [bind]. rewrite Nat2Z.id.
  rewrite <- (app_nil_r (flat_map encode_action (actions o))).
  apply (parseActions_from_encode (actions o) Hacts (u32_le _) []).
Qed.

(* ------------------------------------------------------------------ *)
(** ** The vault: inversion, monotonicity, re-entrancy *)
(* ------------------------------------------------------------------ *)

Lemma bytes_eqb_eq (a b : bytes) : bytes_eqb a b = true <-> a = b.
Proof.
  unfold bytes_eqb. destruct (list_eq_dec Byte.byte_eq_dec a b); split; congruence.
Qed.

Lemma bytes_eqb_refl (a : bytes) : bytes_eqb a a = true.
Proof. apply bytes_eqb_eq. reflexivity. Qed.

Lemma require_ok {E} (c : bool) (e : E) (u : unit) : require c e = Ok u -> c = true.
Proof. destruct c; [reflexivity | discriminate]. Qed.

Lemma bind_ok {E A B} (m : result E A) (k : A -> result E B) (b : B) :
  bind m k = Ok b -> exists a, m = Ok a /\ k a = Ok b.
Proof. destruct m as [a|e]; [eauto | discriminate]. Qed.

Ltac inv_bind H :=
  let x := fresh "x" in
  let Hx := fresh "Hx" in
  apply bind_ok in H; destruct H as (x & Hx & H).

Ltac to_prop H :=
  first [ apply Z.eqb_eq in H | apply Z.gtb_lt in H | apply Z.leb_le in H
        | apply bytes_eqb_eq in H | apply Nat.eqb_eq in H | idtac ].

Ltac inv_check H :=
  let u := fresh "u" in
  let Hc := fresh "Hc" in
  apply bind_ok in H; destruct H as (u & Hc & H); apply require_ok in Hc;
  to_prop Hc.

Section VaultFacts.

Variable World : Type.
Variable risc0_verify : bytes -> bytes -> bytes -> bool.
Variable code : bytes -> Z -> bytes -> Callee World.

Local Abbreviation State := (MyVault.State World).
Local Abbreviation entry := (MyVault.entry World).
Local Abbreviation execute := (MyVault.execute World risc0_verify code).
Local Abbreviation submit := (MyVault.submit World risc0_verify code).
Local Abbreviation executeActions := (MyVault.executeActions World code).
Local Abbreviation _executeAction := (MyVault._executeAction World code).
Local Abbreviation call := (MyVault.call World code).
Local Abbreviation run_callee := (MyVault.run_callee World).
Local Abbreviation verifyAndParse := (KernelExecutionVerifier.verifyAndParseWithImageId risc0_verify).
Local Abbreviation accepted_by := (MyVault.accepted_by World risc0_verify).

Lemma extends_refl (st : State) : extends st st.
Proof. unfold extends. repeat split; lia. Qed.

Lemma extends_trans (st1 st2 st3 : State) :
  extends st1 st2 -> extends st2 st3 -> extends st1 st3.
Proof. unfold extends. intuition (try congruence; try lia). Qed.

Lemma extends_update (st : State) (f : World -> World) :
  extends st (fst st, f (snd st)).
Proof. unfold extends. cbn [fst]. repeat split; lia. Qed.

Lemma run_callee_extends (h : entry) :
  monotone h ->
  forall c st st', run_callee h c st = Some st' -> extends st st'.
Proof.
  intros Hh. induction c as [[|] | f k IH | k IH | j s o k IH]; intros st st' H;
    cbn [MyVault.run_callee] in H.
  - injection H as <-. apply extends_refl.
  - discriminate.
  - apply IH in H. eapply extends_trans; [apply extends_update | exact H].
  - eapply IH. exact H.
  - destruct (h j s o st) as [st1|e] eqn:E.
    + eapply extends_trans; [eapply Hh; exact E | eapply IH; exact H].
    + eapply IH. exact H.
Qed.

Lemma call_extends (h : entry) target value callData st ok st' :
  monotone h -> call h target value callData st = (ok, st') -> extends st st'.
Proof.
  intros Hh. unfold MyVault.call.
  destruct (run_callee h (code target value callData) st) as [st1|] eqn:E; intros H;
    injection H as <- <-.
  - eapply run_callee_extends; eassumption.
  - apply extends_refl.
Qed.

Lemma executeAction_extends (h : entry) a st st' :
  monotone h -> _executeAction h a st = Ok st' -> extends st st'.
Proof.
  intros Hh. unfold MyVault._executeAction.
  destruct (actionType a =? ACTION_TYPE_CALL).
  - intros H. inv_bind H. inv_bind H.
    destruct (call h (address_of (target a)) x x0 st) as [ok st1] eqn:E.
    inv_check H. injection H as <-.
    eapply call_extends; eassumption.
  - intros H. injection H as <-. apply extends_refl.
Qed.

Lemma executeActions_extends (h : entry) acts :
  monotone h ->
  forall st st', executeActions h acts st = Ok st' -> extends st st'.
Proof.
  intros Hh. induction acts as [|a rest IH]; intros st st' H;
    cbn [MyVault.executeActions] in H.
  - injection H as <-. apply extends_refl.
  - inv_bind H. eapply extends_trans.
    + eapply executeAction_extends; eassumption.
    + eapply IH. exact H.
Qed.

Lemma execute_inv d j s o st st' :
  execute (S d) j s o st = Ok st' ->
  exists parsed acts,
    accepted_by st j s o parsed acts /\
    executeActions (execute d) acts
      (with_nonce st (KernelOutputParser.executionNonce parsed)) = Ok st'.
Proof.
  cbn [MyVault.execute]. intros H.
  inv_bind H. rename x into parsed.
  inv_check H. inv_check H. inv_check H. inv_check H.
  inv_bind H. rename x into bound.
  inv_check H. inv_check H. inv_check H.
  inv_bind H. rename x into acts.
  exists parsed, acts. split; [|exact H].
  unfold add_uint64 in Hx0.
  destruct (Z.ltb_spec (lastExecutionNonce (fst st) + 100) (2 ^ 64)); [|discriminate].
  injection Hx0 as <-.
  constructor; assumption.
Qed.

Lemma execute_monotone d : monotone (execute d).
Proof.
  induction d as [|d IH]; intros j s o st st' H; [discriminate|].
  apply execute_inv in H. destruct H as (parsed & acts & Hacc & Hrun).
  apply executeActions_extends in Hrun; [|exact IH].
  destruct Hacc. unfold extends, with_nonce in *. cbn in *.
  intuition lia.
Qed.

Lemma run_callee_quiet (h : entry) c :
  quiet c -> forall st st', run_callee h c st = Some st' -> fst st' = fst st.
Proof.
  induction 1 as [[|] | f k _ IH | k _ IH]; intros st st' H; cbn [MyVault.run_callee] in H.
  - injection H as <-. reflexivity.
  - discriminate.
  - apply IH in H. exact H.
  - eapply IH. exact H.
Qed.

Lemma executeActions_quiet (h : entry) acts :
  (forall t v c, quiet (code t v c)) ->
  forall st st', executeActions h acts st = Ok st' -> fst st' = fst st.
Proof.
  intros Hq. induction acts as [|a rest IH]; intros st st' H;
    cbn [MyVault.executeActions] in H.
  - injection H as <-. reflexivity.
  - inv_bind H. apply IH in H. rewrite H. clear H IH.
    unfold MyVault._executeAction in Hx.
    destruct (actionType a =? ACTION_TYPE_CALL).
    + inv_bind Hx. inv_bind Hx. unfold MyVault.call in Hx.
      destruct (run_callee h (code (address_of (target a)) x0 x1) st) as [st1|] eqn:E.
      * inv_check Hx. injection Hx as <-.
        eapply run_callee_quiet; [apply Hq | exact E].
      * inv_check Hx. discriminate.
    + injection Hx as <-. reflexivity.
Qed.

Lemma execute_accepted d j s o st parsed acts :
  accepted_by st j s o parsed acts ->
  execute (S d) j s o st =
  executeActions (execute d) acts
    (with_nonce st (KernelOutputParser.executionNonce parsed)).
Proof.
  intros []. cbn [MyVault.execute].
  rewrite acc_verified0. cbn [bind].
  rewrite acc_protocol0, acc_kernel0, acc_agent0, bytes_eqb_refl.
  cbn [Z.eqb Pos.eqb require bind].
  destruct (Z.gtb_spec (KernelOutputParser.executionNonce parsed)
              (lastExecutionNonce (fst st))); [|lia].
  cbn [require bind]. unfold add_uint64.
  destruct (Z.ltb_spec (lastExecutionNonce (fst st) + 100) (2 ^ 64)); [|lia].
  cbn [bind].
  destruct (Z.leb_spec (KernelOutputParser.executionNonce parsed)
              (lastExecutionNonce (fst st) + 100)); [|lia].
  cbn [require bind].
  rewrite acc_status0, acc_commitment0, bytes_eqb_refl, acc_actions0.
  reflexivity.
Qed.

(** A submission whose nonce is not above the stored one stops at the
    nonce check, once proof, versions and agent have passed. *)
Lemma execute_stale d j s o st parsed :
  verifyAndParse (trustedImageId (fst st)) j s = Ok parsed ->
  KernelOutputParser.protocolVersion parsed = 1 ->
  KernelOutputParser.kernelVersion parsed = 1 ->
  KernelOutputParser.agentId parsed = agentId (fst st) ->
  KernelOutputParser.executionNonce parsed <= lastExecutionNonce (fst st) ->
  execute (S d) j s o st = Err InvalidNonce.
Proof.
  intros Hv Hp Hk Ha Hn. cbn [MyVault.execute].
  rewrite Hv. cbn [bind]. rewrite Hp, Hk, Ha, bytes_eqb_refl.
  cbn [Z.eqb Pos.eqb require bind].
  destruct (Z.gtb_spec (KernelOutputParser.executionNonce parsed)
              (lastExecutionNonce (fst st))); [lia|].
  reflexivity.
Qed.

(** Whatever the depth, a journal whose nonce is not above the stored one is
    not accepted. *)
Lemma execute_needs_fresh_nonce d j s o st st' parsed :
  KernelOutputParser.parse j = Ok parsed ->
  execute d j s o st = Ok st' ->
  lastExecutionNonce (fst st) < KernelOutputParser.executionNonce parsed.
Proof.
  intros Hp H. destruct d as [|d]; [discriminate|].
  apply execute_inv in H. destruct H as (parsed' & acts & [] & _).
  unfold KernelExecutionVerifier.verifyAndParseWithImageId,
    KernelExecutionVerifier.parseJournal in acc_verified0.
  inv_check acc_verified0. rewrite Hp in acc_verified0. cbn [bind] in acc_verified0.
  inv_check acc_verified0. injection acc_verified0 as <-. assumption.
Qed.

Lemma reentered_extends (h : entry) :
  monotone h ->
  forall c st st' j s o, reentered World h c st st' j s o -> extends st st'.
Proof.
  intros Hh c st st' j s o H. induction H.
  - apply extends_refl.
  - eapply extends_trans; [apply extends_update | exact IHreentered].
  - exact IHreentered.
  - eapply extends_trans; [eapply Hh; eassumption | exact IHreentered].
  - exact IHreentered.
Qed.

Lemma batch_reentered_extends (h : entry) :
  monotone h ->
  forall acts st st' j s o,
    batch_reentered World code h acts st st' j s o -> extends st st'.
Proof.
  intros Hh acts st st' j s o H. induction H as [a rest st st' j s o Ha | ].
  - destruct Ha as (_ & value & callData & _ & _ & Hr).
    eapply reentered_extends; eassumption.
  - eapply extends_trans; [eapply executeAction_extends; eassumption | assumption].
Qed.

(** The checks before the nonce check read only the immutables. *)
Lemma accepted_then_stale d j s o st parsed acts st2 :
  accepted_by st j s o parsed acts ->
  extends (with_nonce st (KernelOutputParser.executionNonce parsed)) st2 ->
  execute (S d) j s o st2 = Err InvalidNonce.
Proof.
  intros [] (Hv & Ha & Hi & Hn). cbn [with_nonce fst set_lastExecutionNonce
    verifier agentId trustedImageId lastExecutionNonce] in *.
  eapply execute_stale with (parsed := parsed); try assumption.
  - rewrite Hi. assumption.
  - rewrite Ha. assumption.
Qed.

Lemma accepted_parse st j s o parsed acts :
  accepted_by st j s o parsed acts -> KernelOutputParser.parse j = Ok parsed.
Proof.
  intros []. unfold KernelExecutionVerifier.verifyAndParseWithImageId,
    KernelExecutionVerifier.parseJournal in acc_verified0.
  inv_check acc_verified0.
  destruct (KernelOutputParser.parse j) as [p|e]; [|discriminate].
  cbn [bind] in acc_verified0. inv_check acc_verified0.
  injection acc_verified0 as <-. reflexivity.
Qed.

(** C5: during an accepted submission [lastExecutionNonce] is set to the
    nonce of the journal before any action of the batch runs: the batch runs
    from the state that already holds the new nonce.  Hence at every call
    back into [execute] made by a contract the batch calls, the stored nonce
    is at least that nonce; the same triple submitted there fails the nonce
    check, and no journal with that nonce or a smaller one is accepted
    there, at any depth. *)
Theorem nonce_updated_before_actions d j s o st st' :
  execute (S d) j s o st = Ok st' ->
  exists parsed acts,
    KernelOutputParser.parse j = Ok parsed /\
    parseActions o = Ok acts /\
    let st1 := with_nonce st (KernelOutputParser.executionNonce parsed) in
    lastExecutionNonce (fst st1) = KernelOutputParser.executionNonce parsed /\
    executeActions (execute d) acts st1 = Ok st' /\
    forall st_call j' s' o',
      batch_reentered World code (execute d) acts st1 st_call j' s' o' ->
      KernelOutputParser.executionNonce parsed <= lastExecutionNonce (fst st_call) /\
      (forall d', execute (S d') j s o st_call = Err InvalidNonce) /\
      (forall d' parsed' st'',
          KernelOutputParser.parse j' = Ok parsed' ->
          KernelOutputParser.executionNonce parsed' <= KernelOutputParser.executionNonce parsed ->
          execute d' j' s' o' st_call <> Ok st'').
Proof.
  intros H. apply execute_inv in H. destruct H as (parsed & acts & Hacc & Hrun).
  exists parsed, acts.
  split; [eapply accepted_parse; exact Hacc|].
  split; [destruct Hacc; assumption|].
  cbv zeta. split; [reflexivity|]. split; [exact Hrun|].
  intros st_call j' s' o' Hre.
  pose proof (batch_reentered_extends _ (execute_monotone d) _ _ _ _ _ _ Hre) as Hext.
  split; [destruct Hext as (_ & _ & _ & Hn); exact Hn|].
  split.
  - intros d'. eapply accepted_then_stale; eassumption.
  - intros d' parsed' st'' Hp' Hle Hok.
    pose proof (execute_needs_fresh_nonce _ _ _ _ _ _ _ Hp' Hok) as Hfresh.
    destruct Hext as (_ & _ & _ & Hn). cbn [with_nonce fst set_lastExecutionNonce
      lastExecutionNonce] in Hn. lia.
Qed.

Lemma executeActions_app (h : entry) pre post st :
  executeActions h (pre ++ post) st =
  (st1 <- executeActions h pre st ;; executeActions h post st1).
Proof.
  revert st. induction pre as [|a pre IH]; intros st; cbn [app MyVault.executeActions bind].
  - reflexivity.
  - destruct (_executeAction h a st) as [st1|e]; cbn [bind]; [apply IH | reflexivity].
Qed.

Lemma execute_failure_keeps_state d j s o st reason :
  execute d j s o st = Err reason -> submit d j s o st = (st, Some reason).
Proof. unfold MyVault.submit. intros ->. reflexivity. Qed.

End VaultFacts.

(* ------------------------------------------------------------------ *)
(** ** The verifier *)
(* ------------------------------------------------------------------ *)

Lemma bytes_eqb_neq (a b : bytes) : bytes_eqb a b = false <-> a <> b.
Proof.
  unfold bytes_eqb. destruct (list_eq_dec Byte.byte_eq_dec a b); split; congruence.
Qed.

Lemma parse_wrong_length (data : bytes) :
  length data <> 209%nat -> KernelOutputParser.parse data = Err InvalidLength.
Proof.
  intros H. unfold KernelOutputParser.parse.
  destruct (Nat.eqb_spec (length data) 209); [contradiction | reflexivity].
Qed.

Section VerifierFacts.

Variable risc0_verify : bytes -> bytes -> bytes -> bool.
Local Abbreviation verifyAndParse :=
  (KernelExecutionVerifier.verifyAndParseWithImageId risc0_verify).

Lemma verify_zero_image journal seal :
  verifyAndParse zero32 journal seal = Err InvalidImageId.
Proof. reflexivity. Qed.

Lemma verify_wrong_length img journal seal :
  img <> zero32 -> length journal <> 209%nat ->
  verifyAndParse img journal seal = Err InvalidLength.
Proof.
  intros Hi Hl. unfold KernelExecutionVerifier.verifyAndParseWithImageId,
    KernelExecutionVerifier.parseJournal.
  apply bytes_eqb_neq in Hi. rewrite Hi. cbn [negb require bind].
  rewrite parse_wrong_length by exact Hl. reflexivity.
Qed.

Lemma verify_ok_inv img journal seal parsed :
  verifyAndParse img journal seal = Ok parsed ->
  img <> zero32 /\ KernelOutputParser.parse journal = Ok parsed /\
  risc0_verify seal img (sha256 journal) = true.
Proof.
  unfold KernelExecutionVerifier.verifyAndParseWithImageId,
    KernelExecutionVerifier.parseJournal. intros H.
  inv_check H. inv_bind H. inv_check H. injection H as <-.
  split; [|split; assumption].
  apply bytes_eqb_neq. destruct (bytes_eqb img zero32); [discriminate | reflexivity].
Qed.

End VerifierFacts.

Lemma verify_oracle_ext (o1 o2 : bytes -> bytes -> bytes -> bool) img journal seal :
  (forall s i h, i <> zero32 -> o1 s i h = o2 s i h) ->
  KernelExecutionVerifier.verifyAndParseWithImageId o1 img journal seal =
  KernelExecutionVerifier.verifyAndParseWithImageId o2 img journal seal.
Proof.
  intros Hagree. unfold KernelExecutionVerifier.verifyAndParseWithImageId.
  destruct (bytes_eqb img zero32) eqn:E; [reflexivity|].
  apply bytes_eqb_neq in E. cbn [negb require bind].
  destruct (KernelExecutionVerifier.parseJournal journal); [|reflexivity].
  cbn [bind]. rewrite (Hagree _ _ _ E). reflexivity.
Qed.

(* ------------------------------------------------------------------ *)
(** ** The oracle is consulted on non-zero image IDs only *)
(* ------------------------------------------------------------------ *)

Section Extensionality.

Variable World : Type.

Lemma run_callee_ext (h1 h2 : MyVault.entry World) :
  (forall j s o st, h1 j s o st = h2 j s o st) ->
  forall c st, MyVault.run_callee World h1 c st = MyVault.run_callee World h2 c st.
Proof.
  intros Hh. induction c as [b | f k IH | k IH | j s o k IH]; intros st;
    cbn [MyVault.run_callee].
  - reflexivity.
  - apply IH.
  - apply IH.
  - rewrite Hh. destruct (h2 j s o st); apply IH.
Qed.

Lemma executeActions_ext code (h1 h2 : MyVault.entry World) :
  (forall j s o st, h1 j s o st = h2 j s o st) ->
  forall acts st,
    MyVault.executeActions World code h1 acts st =
    MyVault.executeActions World code h2 acts st.
Proof.
  intros Hh acts. induction acts as [|a rest IH]; intros st;
    cbn [MyVault.executeActions]; [reflexivity|].
  replace (MyVault._executeAction World code h1 a st)
    with (MyVault._executeAction World code h2 a st).
  - destruct (MyVault._executeAction World code h2 a st); cbn [bind];
      [apply IH | reflexivity].
  - unfold MyVault._executeAction, MyVault.call.
    destruct (actionType a =? ACTION_TYPE_CALL); [|reflexivity].
    destruct (KernelOutputParser._readU64LE (payload a) 0); [|reflexivity].
    cbn [bind]. destruct (or_else _ _); [|reflexivity]. cbn [bind].
    rewrite (run_callee_ext h1 h2 Hh). reflexivity.
Qed.

Lemma execute_oracle_ext (o1 o2 : bytes -> bytes -> bytes -> bool) code :
  (forall s i h, i <> zero32 -> o1 s i h = o2 s i h) ->
  forall d j s o st,
    MyVault.execute World o1 code d j s o st = MyVault.execute World o2 code d j s o st.
Proof.
  intros Hagree. induction d as [|d IH]; intros j s o st; [reflexivity|].
  cbn [MyVault.execute].
  rewrite (verify_oracle_ext o1 o2 _ _ _ Hagree).
  destruct (KernelExecutionVerifier.verifyAndParseWithImageId o2 _ j s) as [p|e];
    [|reflexivity].
  cbn [bind].
  repeat match goal with
         | |- bind (require ?c ?e) _ = bind (require ?c ?e) _ =>
             destruct c; cbn [require bind]; [|reflexivity]
         | |- bind (MyVault.add_uint64 ?a ?b) _ = _ =>
             destruct (MyVault.add_uint64 a b); cbn [bind]; [|reflexivity]
         end.
  destruct (parseActions o) as [acts|]; [|reflexivity]. cbn [bind].
  apply executeActions_ext. exact IH.
Qed.

End Extensionality.

(** C9: [verifyAndParseWithImageId] rejects a zero expected image ID
    whatever the proof oracle would answer, and the constructor of the
    reference vault refuses a zero [trustedImageId], so a constructed vault
    pins a non-zero image ID.  A successful verification is therefore
    against a non-zero image ID that the oracle accepted, and the answers of
    the oracle for the zero image ID (the value read for an unregistered
    agent) are never used: two oracles that agree on every non-zero image ID
    give the same results through the verifier and through the vault. *)
Theorem zero_image_id_never_verified :
  (forall oracle journal seal,
      KernelExecutionVerifier.verifyAndParseWithImageId oracle zero32 journal seal
      = Err InvalidImageId) /\
  (forall _verifier _agentId,
      MyVault.constructor _verifier _agentId zero32 = Err InvalidImageId) /\
  (forall _verifier _agentId _trustedImageId this,
      MyVault.constructor _verifier _agentId _trustedImageId = Ok this ->
      MyVault.trustedImageId this = _trustedImageId /\ _trustedImageId <> zero32) /\
  (forall oracle img journal seal parsed,
      KernelExecutionVerifier.verifyAndParseWithImageId oracle img journal seal = Ok parsed ->
      img <> zero32 /\ oracle seal img (sha256 journal) = true) /\
  (forall o1 o2,
      (forall s i h, i <> zero32 -> o1 s i h = o2 s i h) ->
      (forall img journal seal,
          KernelExecutionVerifier.verifyAndParseWithImageId o1 img journal seal =
          KernelExecutionVerifier.verifyAndParseWithImageId o2 img journal seal) /\
      (forall World code d j s o st,
          MyVault.execute World o1 code d j s o st =
          MyVault.execute World o2 code d j s o st)).
Proof.
  split; [reflexivity|]. split; [reflexivity|]. split; [|split].
  - intros v a img this H. unfold MyVault.constructor in H.
    inv_check H. injection H as <-. split; [reflexivity|].
    apply bytes_eqb_neq. destruct (bytes_eqb img zero32); [discriminate | reflexivity].
  - intros oracle img journal seal parsed H. apply verify_ok_inv in H. tauto.
  - intros o1 o2 Hagree. split.
    + intros. apply verify_oracle_ext. exact Hagree.
    + intros. apply execute_oracle_ext. exact Hagree.
Qed.

(** C10: for an action whose type is neither Call (0x00000002) nor
    TransferERC20 (0x00000003) the dispatcher of [KernelVault] reverts with
    [UnknownActionType], whatever the two handlers do; a batch that contains
    such an action reverts and leaves the state untouched, so the action has
    no on-chain effect. *)
Theorem unknown_action_type_reverts (State : Type)
    (_executeCall _executeTransferERC20 : ActionV1 -> State -> sol State)
    (action : ActionV1) :
  actionType action <> ACTION_TYPE_CALL ->
  actionType action <> ACTION_TYPE_TRANSFER_ERC20 ->
  (forall st,
      KernelVault._executeAction State _executeCall _executeTransferERC20 action st
      = Err (UnknownActionType (actionType action))) /\
  (forall before after st,
      exists reason,
        KernelVault.executeActions State _executeCall _executeTransferERC20
          (before ++ action :: after) st = Err reason /\
        KernelVault.commit State _executeCall _executeTransferERC20
          (before ++ action :: after) st = (st, Some reason)).
Proof.
  intros Hc Ht.
  assert (Hone : forall st,
             KernelVault._executeAction State _executeCall _executeTransferERC20 action st
             = Err (UnknownActionType (actionType action))).
  { intros st. unfold KernelVault._executeAction.
    destruct (Z.eqb_spec (actionType action) ACTION_TYPE_CALL); [contradiction|].
    destruct (Z.eqb_spec (actionType action) ACTION_TYPE_TRANSFER_ERC20); [contradiction|].
    reflexivity. }
  split; [exact Hone|].
  intros before after st.
  assert (Hb : exists reason,
             KernelVault.executeActions State _executeCall _executeTransferERC20
               (before ++ action :: after) st = Err reason).
  { revert st. induction before as [|b before IH]; intros st;
      cbn [app KernelVault.executeActions].
    - rewrite Hone. cbn [bind]. eauto.
    - destruct (KernelVault._executeAction State _executeCall _executeTransferERC20 b st)
        as [st1|e]; cbn [bind]; [apply IH | eauto]. }
  destruct Hb as (reason & Hb). exists reason. split; [exact Hb|].
  unfold KernelVault.commit. rewrite Hb. reflexivity.
Qed.

(** C7: the vault authorizes action execution only for journals whose
    status is Success.  A journal with any other status byte, be it Failure
    (0x02), the reserved 0x00 or any other value, is never accepted:
    [execute] reverts and the state is unchanged; when the proof, version,
    agent and nonce checks pass the reason is [ExecutionFailed] ("Execution
    failed", the agent-reported failure of the specification); and no action
    runs: the result depends neither on the submitted actions nor on the
    code of any contract. *)
Theorem failure_journal_rejected (World : Type)
    (risc0_verify : bytes -> bytes -> bytes -> bool)
    (code : bytes -> Z -> bytes -> MyVault.Callee World)
    (d : nat) (j s o : bytes) (st : MyVault.State World)
    (parsed : KernelOutputParser.ParsedJournal) :
  KernelOutputParser.parse j = Ok parsed ->
  KernelOutputParser.executionStatus parsed <> KernelOutputParser.EXECUTION_STATUS_SUCCESS ->
  (exists reason,
      MyVault.execute World risc0_verify code d j s o st = Err reason /\
      MyVault.submit World risc0_verify code d j s o st = (st, Some reason)) /\
  (forall d',
      d = S d' ->
      risc0_verify s (MyVault.trustedImageId (fst st)) (sha256 j) = true ->
      MyVault.trustedImageId (fst st) <> zero32 ->
      KernelOutputParser.protocolVersion parsed = 1 ->
      KernelOutputParser.kernelVersion parsed = 1 ->
      KernelOutputParser.agentId parsed = MyVault.agentId (fst st) ->
      MyVault.lastExecutionNonce (fst st) < KernelOutputParser.executionNonce parsed
        <= MyVault.lastExecutionNonce (fst st) + 100 ->
      MyVault.lastExecutionNonce (fst st) + 100 < 2 ^ 64 ->
      MyVault.execute World risc0_verify code d j s o st = Err ExecutionFailed) /\
  (forall code' o',
      MyVault.execute World risc0_verify code' d j s o' st =
      MyVault.execute World risc0_verify code d j s o st).
Proof.
  intros Hp Hs.
  assert (Hstatus : (KernelOutputParser.executionStatus parsed
                       =? KernelOutputParser.EXECUTION_STATUS_SUCCESS) = false).
  { apply Z.eqb_neq. exact Hs. }
  assert (Hshape : forall code' o',
             exists reason, MyVault.execute World risc0_verify code' d j s o' st = Err reason /\
               MyVault.execute World risc0_verify code d j s o st = Err reason).
  { intros code' o'. destruct d as [|d']; [exists CallDepth; split; reflexivity|].
    cbn [MyVault.execute].
    unfold KernelExecutionVerifier.verifyAndParseWithImageId,
      KernelExecutionVerifier.parseJournal.
    rewrite Hp.
    destruct (negb (bytes_eqb (MyVault.trustedImageId (fst st)) zero32));
      cbn [require bind]; [|eexists; split; reflexivity].
    destruct (risc0_verify s (MyVault.trustedImageId (fst st)) (sha256 j));
      cbn [require bind]; [|eexists; split; reflexivity].
    rewrite Hstatus.
    repeat match goal with
           | |- exists _, bind (require false ?e) _ = _ /\ _ =>
               cbn [require bind]; eexists; split; reflexivity
           | |- exists _, bind (require ?c ?e) _ = _ /\ _ =>
               destruct c; cbn [require bind]; [|eexists; split; reflexivity]
           | |- exists _, bind (MyVault.add_uint64 ?a ?b) _ = _ /\ _ =>
               destruct (MyVault.add_uint64 a b); cbn [bind]; [|eexists; split; reflexivity]
           end.
    all: eexists; split; reflexivity. }
  split; [|split].
  - destruct (Hshape code o) as (reason & H & _). exists reason. split; [exact H|].
    unfold MyVault.submit. rewrite H. reflexivity.
  - intros d' -> Hproof Himg Hpv Hkv Hag [Hlo Hhi] Hbound.
    cbn [MyVault.execute].
    unfold KernelExecutionVerifier.verifyAndParseWithImageId,
      KernelExecutionVerifier.parseJournal.
    apply bytes_eqb_neq in Himg. rewrite Himg, Hp, Hproof. cbn [negb require bind].
    rewrite Hpv, Hkv, Hag, bytes_eqb_refl. cbn [Z.eqb Pos.eqb require bind].
    destruct (Z.gtb_spec (KernelOutputParser.executionNonce parsed)
                (MyVault.lastExecutionNonce (fst st))); [|lia].
    cbn [require bind]. unfold MyVault.add_uint64.
    destruct (Z.ltb_spec (MyVault.lastExecutionNonce (fst st) + 100) (2 ^ 64)); [|lia].
    cbn [bind].
    destruct (Z.leb_spec (KernelOutputParser.executionNonce parsed)
                (MyVault.lastExecutionNonce (fst st) + 100)); [|lia].
    cbn [require bind]. rewrite Hstatus. reflexivity.
  - intros code' o'. destruct (Hshape code' o') as (reason & H1 & H2).
    rewrite H1, H2. reflexivity.
Qed.

(** C3: the canonical encoding of the empty action list is exactly the four
    zero bytes 0x00 0x00 0x00 0x00 (a zero count on 4 bytes), which the
    Solidity parser reads back as no action, and its SHA-256 digest is the
    published empty-output commitment constant
    df3f619804a92fdb4057192dc43dd748ea778adc52bc498ce80524c014b81119. *)
Theorem empty_output_commitment :
  encode_output empty_output = [x00; x00; x00; x00] /\
  sha256 [x00; x00; x00; x00] = EMPTY_OUTPUT_COMMITMENT /\
  sha256 (encode_output empty_output) = EMPTY_OUTPUT_COMMITMENT /\
  parseActions [x00; x00; x00; x00] = Ok [].
Proof. repeat split; vm_compute; reflexivity. Qed.

Lemma sha256_empty_output : sha256 (encode_output empty_output) = EMPTY_OUTPUT_COMMITMENT.
Proof. vm_compute. reflexivity. Qed.

Lemma kernel_main_inv constraints_pass input_bytes agent j :
  kernel_main_with_agent constraints_pass input_bytes agent = Ok j ->
  exists input,
    decode_input input_bytes = Ok input /\
    in_agent_code_hash input = code_hash agent /\
    j = {| protocol_version := in_protocol_version input;
           kernel_version := in_kernel_version input;
           agent_id := in_agent_id input;
           agent_code_hash := in_agent_code_hash input;
           constraint_set_hash := in_constraint_set_hash input;
           input_root := in_input_root input;
           execution_nonce := in_execution_nonce input;
           input_commitment := sha256 input_bytes;
           action_commitment :=
             if constraints_pass input (run agent input (opaque_agent_inputs input))
             then sha256 (encode_output (run agent input (opaque_agent_inputs input)))
             else sha256 (encode_output empty_output);
           execution_status :=
             if constraints_pass input (run agent input (opaque_agent_inputs input))
             then Success else Failure |}.
Proof.
  unfold kernel_main_with_agent. intros H.
  destruct (decode_input input_bytes) as [input|e]; [|discriminate].
  exists input. inv_check H. injection H as <-. repeat split. exact Hc.
Qed.

(** C2 (amended): for every journal produced by an execution attempt, a
    Failure status implies that action_commitment is the empty-output
    commitment constant; on every constraint-violating execution the status
    is Failure and the commitment is that constant; on success the
    commitment is the digest of the real encoded action list.  The converse
    of the first implication holds only up to the digest: a journal whose
    commitment is the constant is a Failure, or a Success whose encoded
    action list has the digest of the empty one. *)
Theorem failure_sentinel constraints_pass input_bytes agent j :
  kernel_main_with_agent constraints_pass input_bytes agent = Ok j ->
  exists input,
    decode_input input_bytes = Ok input /\
    let agent_output := run agent input (opaque_agent_inputs input) in
    (execution_status j = Failure -> action_commitment j = EMPTY_OUTPUT_COMMITMENT) /\
    (constraints_pass input agent_output = false ->
       execution_status j = Failure /\ action_commitment j = EMPTY_OUTPUT_COMMITMENT) /\
    (constraints_pass input agent_output = true ->
       execution_status j = Success /\
       action_commitment j = sha256 (encode_output agent_output)) /\
    (action_commitment j = EMPTY_OUTPUT_COMMITMENT ->
       execution_status j = Failure \/
       sha256 (encode_output agent_output) = sha256 (encode_output empty_output)).
Proof.
  intros H. apply kernel_main_inv in H. destruct H as (input & Hd & _ & ->).
  exists input. split; [exact Hd|]. cbv zeta. cbn [execution_status action_commitment].
  destruct (constraints_pass input (run agent input (opaque_agent_inputs input))).
  - split; [discriminate|]. split; [discriminate|]. split; [split; reflexivity|].
    intros ->. right. symmetry. apply sha256_empty_output.
  - split; [intros _; apply sha256_empty_output|].
    split; [intros _; split; [reflexivity | apply sha256_empty_output]|].
    split; [discriminate|]. intros _. left. reflexivity.
Qed.

(** C8: the canonical codec round-trips on valid values: decoding the
    encoding of [x] gives [x] back, for kernel inputs, for journals (through
    the Rust decoder and through the Solidity parser) and for action lists.
    Encoding is a function of the value, so equal values never get two
    encodings, and two valid values with the same encoding are equal. *)
Theorem codec_roundtrip (x : KernelInputV1) (j : KernelJournalV1) (o : AgentOutput) :
  valid_input x -> valid_journal j -> valid_output o ->
  (decode_input (encode_input x) = Ok x /\
   decode_journal (encode_journal j) = Ok j /\
   KernelOutputParser.parse (encode_journal j) = Ok (parsed_of j) /\
   parseActions (encode_output o) = Ok (actions o)) /\
  (forall x', valid_input x' -> encode_input x' = encode_input x -> x' = x) /\
  (forall j', valid_journal j' -> encode_journal j' = encode_journal j -> j' = j) /\
  (forall o', valid_output o' -> encode_output o' = encode_output o -> o' = o).
Proof.
  intros Hx Hj Ho. split; [|split; [|split]].
  - repeat split.
    + apply decode_encode_input. exact Hx.
    + apply decode_encode_journal. exact Hj.
    + apply parse_encode_journal. exact Hj.
    + apply parseActions_encode_output. exact Ho.
  - intros x' Hx' E. apply decode_encode_input in Hx, Hx'.
    rewrite E, Hx in Hx'. injection Hx' as <-. reflexivity.
  - intros j' Hj' E. apply decode_encode_journal in Hj, Hj'.
    rewrite E, Hj in Hj'. injection Hj' as <-. reflexivity.
  - intros o' Ho' E. apply parseActions_encode_output in Ho, Ho'.
    rewrite E, Ho in Ho'. injection Ho' as E'.
    destruct o, o'. cbn in E'. subst. reflexivity.
Qed.

(* ------------------------------------------------------------------ *)
(** ** The journal layout and the length check *)
(* ------------------------------------------------------------------ *)

Lemma journal_integer_fields (j : KernelJournalV1) :
  valid_journal j ->
  slice (encode_journal j) 0 4 = Some (u32_le (protocol_version j)) /\
  slice (encode_journal j) 4 8 = Some (u32_le (kernel_version j)) /\
  slice (encode_journal j) 136 144 = Some (u64_le (execution_nonce j)) /\
  slice (encode_journal j) 208 209
  = Some [byte_of_Z (status_byte (execution_status j))].
Proof.
  intros (_ & _ & H1 & H2 & H3 & H4 & _ & H5 & H6).
  unfold bytes32 in *. split; [|split; [|split]].
  - unfold encode_journal.
    apply (slice_field [] (u32_le (protocol_version j))); reflexivity.
  - unfold encode_journal.
    apply (slice_field (u32_le (protocol_version j)) (u32_le (kernel_version j)));
      reflexivity.
  - replace (encode_journal j) with
      ((u32_le (protocol_version j) ++ u32_le (kernel_version j) ++ agent_id j ++
        agent_code_hash j ++ constraint_set_hash j ++ input_root j) ++
       u64_le (execution_nonce j) ++ input_commitment j ++ action_commitment j ++
       [byte_of_Z (status_byte (execution_status j))])
      by (unfold encode_journal; repeat rewrite <- app_assoc; reflexivity).
    apply slice_field; [|reflexivity].
    rewrite !length_app, !length_u32_le, H1, H2, H3, H4. reflexivity.
  - replace (encode_journal j) with
      ((u32_le (protocol_version j) ++ u32_le (kernel_version j) ++ agent_id j ++
        agent_code_hash j ++ constraint_set_hash j ++ input_root j ++
        u64_le (execution_nonce j) ++ input_commitment j ++ action_commitment j) ++
       [byte_of_Z (status_byte (execution_status j))] ++ [])
      by (unfold encode_journal; repeat rewrite <- app_assoc; reflexivity).
    apply slice_field; [|reflexivity].
    rewrite !length_app, !length_u32_le, length_u64_le, H1, H2, H3, H4, H5, H6.
    reflexivity.
Qed.

Lemma execute_wrong_length (World : Type) risc0_verify code d journal seal agentOutput
    (st : MyVault.State World) :
  trustedImageId (fst st) <> zero32 ->
  length journal <> 209%nat ->
  MyVault.execute World risc0_verify code (S d) journal seal agentOutput st
  = Err InvalidLength.
Proof.
  intros Hi Hl. cbn [MyVault.execute].
  rewrite verify_wrong_length by assumption. reflexivity.
Qed.

(* ------------------------------------------------------------------ *)
(** ** The scenario, evaluated *)
(* ------------------------------------------------------------------ *)

Import Scenario.

Example sha256_of_nothing :
  sha256 [] =
  [xe3;xb0;xc4;x42;x98;xfc;x1c;x14;x9a;xfb;xf4;xc8;x99;x6f;xb9;x24;
   x27;xae;x41;xe4;x64;x9b;x93;x4c;xa4;x95;x99;x1b;x78;x52;xb8;x55].
Proof. vm_compute. reflexivity. Qed.

Example sha256_of_abc :
  sha256 [x61;x62;x63] =
  [xba;x78;x16;xbf;x8f;x01;xcf;xea;x41;x41;x40;xde;x5d;xae;x22;x23;
   xb0;x03;x61;xa3;x96;x17;x7a;x9c;xb4;x10;xff;x61;xf2;x00;x15;xad].
Proof. vm_compute. reflexivity. Qed.

(** The two-block vector of the standard:
    "abcdbcdecdefdefgefghfghighijhijkijkljklmklmnlmnomnopnopq". *)
Example sha256_of_two_blocks :
  sha256 [x61;x62;x63;x64;x62;x63;x64;x65;x63;x64;x65;x66;x64;x65;x66;x67;
          x65;x66;x67;x68;x66;x67;x68;x69;x67;x68;x69;x6a;x68;x69;x6a;x6b;
          x69;x6a;x6b;x6c;x6a;x6b;x6c;x6d;x6b;x6c;x6d;x6e;x6c;x6d;x6e;x6f;
          x6d;x6e;x6f;x70;x6e;x6f;x70;x71] =
  [x24;x8d;x6a;x61;xd2;x06;x38;xb8;xe5;xc0;x26;x93;x0c;x3e;x60;x39;
   xa3;x3c;xe4;x59;x64;xff;x21;x67;xf6;xec;xed;xd4;x19;xdb;x06;xc1].
Proof. vm_compute. reflexivity. Qed.

Ltac evaluate :=
  first [ reflexivity | lia | (vm_compute; reflexivity)
        | (vm_compute; discriminate) | (vm_compute; intro; discriminate) ].

Lemma scenario_input_valid : valid_input input5.
Proof. unfold valid_input, bytes32, u64. repeat split; evaluate. Defined.

Lemma scenario_journal_valid : valid_journal journal5.
Proof. unfold valid_journal, bytes32, u64. repeat split; evaluate. Defined.

Lemma scenario_output_valid : valid_output output5.
Proof.
  unfold valid_output. split; [evaluate|].
  repeat constructor; unfold bytes32, u32; evaluate.
Defined.

(** The kernel turns the request of the scenario into its journal. *)
Example scenario_kernel_run :
  kernel_main_with_agent always_pass (encode_input input5) agent5 = Ok journal5.
Proof. vm_compute. reflexivity. Qed.

(** The vault at nonce 4 accepts the journal, reaches nonce 5, and the call
    takes effect exactly once. *)
Example scenario_accepted :
  MyVault.submit nat accept_all selective 1
    (encode_journal journal5) seal (encode_output output5) (vault4, 0%nat)
  = ((vault_at 5, 1%nat), None).
Proof. vm_compute. reflexivity. Qed.

(* ------------------------------------------------------------------ *)
(** ** The properties at the scenario *)
(* ------------------------------------------------------------------ *)

Lemma failure_sentinel_witness :
  kernel_main_with_agent always_violate (encode_input input5) agent5
  = Ok journal5_failed /\
  execution_status journal5_failed = Failure /\
  action_commitment journal5_failed = EMPTY_OUTPUT_COMMITMENT.
Proof.
  assert (H : kernel_main_with_agent always_violate (encode_input input5) agent5
              = Ok journal5_failed) by (vm_compute; reflexivity).
  split; [exact H|].
  destruct (failure_sentinel always_violate (encode_input input5) agent5
              journal5_failed H) as (input & _ & _ & Hviolated & _).
  apply Hviolated. reflexivity.
Defined.

(** C2, as stated, fails in the direction from the commitment to the status:
    an agent that proposes no action and passes its constraints yields a
    [Success] journal whose action commitment is the empty-output constant. *)
Lemma success_with_empty_output_commitment :
  kernel_main_with_agent always_pass (encode_input input5) idle_agent
  = Ok journal5_idle /\
  ~ (execution_status journal5_idle = Failure <->
     action_commitment journal5_idle = EMPTY_OUTPUT_COMMITMENT).
Proof.
  split; [vm_compute; reflexivity|].
  intros [_ H]. assert (E : execution_status journal5_idle = Failure)
    by (apply H; reflexivity).
  discriminate E.
Qed.

(** C4, as stated, fails where it says the stored nonce equals the accepted
    one: the vault at nonce 4 accepts the journal with nonce 5, whose single
    call reaches code that submits the journal with nonce 6; the inner
    submission is accepted while the action runs, and after the accepted
    outer submission the stored nonce is 6. *)
Lemma reentrant_submission_overtakes_nonce :
  MyVault.execute nat accept_all reentering 2
    (encode_journal journal5) seal (encode_output output5) (vault4, 0%nat)
  = Ok (vault_at 6, 1%nat) /\
  KernelOutputParser.parse (encode_journal journal5) = Ok (parsed_of journal5) /\
  lastExecutionNonce (fst (vault_at 6, 1%nat))
  <> KernelOutputParser.executionNonce (parsed_of journal5).
Proof.
  split; [vm_compute; reflexivity|].
  split; [vm_compute; reflexivity|].
  vm_compute. intro H. discriminate H.
Qed.

Lemma nonce_updated_before_actions_witness :
  MyVault.execute nat accept_all replaying 2
    (encode_journal journal5) seal (encode_output output5) (vault4, 0%nat)
  = Ok (vault_at 5, 0%nat) /\
  exists parsed acts,
    KernelOutputParser.parse (encode_journal journal5) = Ok parsed /\
    parseActions (encode_output output5) = Ok acts /\
    MyVault.executeActions nat replaying (MyVault.execute nat accept_all replaying 1)
      acts (with_nonce (vault4, 0%nat) (KernelOutputParser.executionNonce parsed))
    = Ok (vault_at 5, 0%nat).
Proof.
  assert (H : MyVault.execute nat accept_all replaying 2
                (encode_journal journal5) seal (encode_output output5) (vault4, 0%nat)
              = Ok (vault_at 5, 0%nat)) by (vm_compute; reflexivity).
  split; [exact H|].
  destruct (nonce_updated_before_actions nat accept_all replaying _ _ _ _ _ _ H)
    as (parsed & acts & Hp & Ha & _ & Hrun & _).
  exists parsed, acts. split; [exact Hp|]. split; [exact Ha|]. exact Hrun.
Defined.

Lemma failure_journal_rejected_witness :
  KernelOutputParser.parse (encode_journal journal5_failed)
  = Ok (parsed_of journal5_failed) /\
  KernelOutputParser.executionStatus (parsed_of journal5_failed)
  <> KernelOutputParser.EXECUTION_STATUS_SUCCESS /\
  MyVault.execute nat accept_all selective 1
    (encode_journal journal5_failed) seal (encode_output empty_output)
    (vault4, 0%nat) = Err ExecutionFailed.
Proof.
  assert (Hp : KernelOutputParser.parse (encode_journal journal5_failed)
               = Ok (parsed_of journal5_failed)) by (vm_compute; reflexivity).
  assert (Hs : KernelOutputParser.executionStatus (parsed_of journal5_failed)
               <> KernelOutputParser.EXECUTION_STATUS_SUCCESS)
    by (vm_compute; intro H; discriminate H).
  split; [exact Hp|]. split; [exact Hs|].
  destruct (failure_journal_rejected nat accept_all selective 1%nat
              (encode_journal journal5_failed) seal (encode_output empty_output)
              (vault4, 0%nat) (parsed_of journal5_failed) Hp Hs) as (_ & Hwhy & _).
  apply (Hwhy 0%nat); try reflexivity.
  - vm_compute. intro H. discriminate H.
  - split; [vm_compute; reflexivity | vm_compute; intro H; discriminate H].
Defined.

Lemma codec_roundtrip_witness :
  valid_input input5 /\ valid_journal journal5 /\ valid_output output5 /\
  decode_input (encode_input input5) = Ok input5 /\
  decode_journal (encode_journal journal5) = Ok journal5 /\
  KernelOutputParser.parse (encode_journal journal5) = Ok (parsed_of journal5) /\
  parseActions (encode_output output5) = Ok (actions output5).
Proof.
  split; [exact scenario_input_valid|].
  split; [exact scenario_journal_valid|].
  split; [exact scenario_output_valid|].
  exact (proj1 (codec_roundtrip input5 journal5 output5 scenario_input_valid
                  scenario_journal_valid scenario_output_valid)).
Defined.

Lemma zero_image_id_never_verified_witness :
  MyVault.constructor (repeat x0e 20) the_agent_id the_image_id = Ok (vault_at 0) /\
  trustedImageId (vault_at 0) = the_image_id /\ the_image_id <> zero32.
Proof.
  assert (H : MyVault.constructor (repeat x0e 20) the_agent_id the_image_id
              = Ok (vault_at 0)) by (vm_compute; reflexivity).
  split; [exact H|].
  destruct zero_image_id_never_verified as (_ & _ & Hctor & _).
  exact (Hctor _ _ _ _ H).
Defined.

Lemma unknown_action_type_reverts_witness :
  actionType noop_action <> ACTION_TYPE_CALL /\
  actionType noop_action <> ACTION_TYPE_TRANSFER_ERC20 /\
  KernelVault._executeAction nat (fun _ n => Ok (S n)) (fun _ n => Ok (S n))
    noop_action 0%nat = Err (UnknownActionType ACTION_TYPE_NO_OP) /\
  exists reason,
    KernelVault.commit nat (fun _ n => Ok (S n)) (fun _ n => Ok (S n))
      ([call_action] ++ noop_action :: [call_action]) 0%nat = (0%nat, Some reason).
Proof.
  assert (H2 : actionType noop_action <> ACTION_TYPE_CALL)
    by (vm_compute; intro H; discriminate H).
  assert (H3 : actionType noop_action <> ACTION_TYPE_TRANSFER_ERC20)
    by (vm_compute; intro H; discriminate H).
  split; [exact H2|]. split; [exact H3|].
  destruct (unknown_action_type_reverts nat (fun _ n => Ok (S n)) (fun _ n => Ok (S n))
              noop_action H2 H3) as (Hone & Hbatch).
  split; [exact (Hone 0%nat)|].
  destruct (Hbatch [call_action] [call_action] 0%nat) as (reason & _ & Hcommit).
  exists reason. exact Hcommit.
Defined.

(* ================================================================== *)
(** * Further properties of the code *)
(* ================================================================== *)

(* ------------------------------------------------------------------ *)
(** ** The readers of [KernelOutputParser] *)
(* ------------------------------------------------------------------ *)

Lemma from_le_bytes_4 (b0 b1 b2 b3 : byte) :
  from_le_bytes [b0; b1; b2; b3]
  = Z_of_byte b0 + 256 * Z_of_byte b1 + 65536 * Z_of_byte b2 + 16777216 * Z_of_byte b3.
Proof. unfold from_le_bytes. cbn [fold_right]. lia. Qed.

Lemma from_le_bytes_range (bs : bytes) :
  0 <= from_le_bytes bs < 256 ^ Z.of_nat (length bs).
Proof.
  unfold from_le_bytes. induction bs as [|b bs IH]; cbn [fold_right length].
  - change (256 ^ Z.of_nat 0) with 1. lia.
  - pose proof (Z_of_byte_range b). rewrite Nat2Z.inj_succ, Z.pow_succ_r by lia. lia.
Qed.

Lemma skipn_cons_4 (data : bytes) (offset : nat) :
  (offset + 4 <= length data)%nat ->
  exists b0 b1 b2 b3 rest, skipn offset data = b0 :: b1 :: b2 :: b3 :: rest.
Proof.
  intros H. pose proof (length_skipn offset data) as L.
  destruct (skipn offset data) as [|b0 [|b1 [|b2 [|b3 rest]]]]; cbn [length] in L;
    try lia.
  eauto 6.
Qed.

Lemma readU32LE_cons (b0 b1 b2 b3 : byte) (rest : bytes) :
  _readU32LE (b0 :: b1 :: b2 :: b3 :: rest) 0 = Ok (from_le_bytes [b0; b1; b2; b3]).
Proof.
  unfold _readU32LE. cbn [at_index nth_error Nat.add or_else bind].
  rewrite le32_value, from_le_bytes_4. reflexivity.
Qed.

Lemma readU32LE_in_bounds (data : bytes) (offset : nat) :
  (offset + 4 <= length data)%nat ->
  _readU32LE data offset = Ok (from_le_bytes (firstn 4 (skipn offset data))).
Proof.
  intros H. destruct (skipn_cons_4 data offset H) as (b0 & b1 & b2 & b3 & rest & E).
  rewrite <- (Nat.add_0_r offset) at 1. rewrite readU32LE_skipn, E.
  cbn [firstn]. apply readU32LE_cons.
Qed.

Lemma readU32LE_out_of_bounds (data : bytes) (offset : nat) :
  (length data < offset + 4)%nat -> _readU32LE data offset = Err Panic.
Proof.
  intros H. unfold _readU32LE, at_index.
  assert (N3 : nth_error data (offset + 3) = None) by (apply nth_error_None; lia).
  destruct (nth_error data offset); cbn [or_else bind]; [|reflexivity].
  destruct (nth_error data (offset + 1)); cbn [or_else bind]; [|reflexivity].
  destruct (nth_error data (offset + 2)); cbn [or_else bind]; [|reflexivity].
  rewrite N3. reflexivity.
Qed.

Lemma firstn_skipn_length (data : bytes) (offset n : nat) :
  (offset + n <= length data)%nat -> length (firstn n (skipn offset data)) = n.
Proof. intros H. rewrite length_firstn, length_skipn. lia. Qed.

(** X1: [_readU32LE] returns exactly when the four bytes at the offset lie
    inside the buffer, and panics otherwise; the value it returns is the
    little-endian number of those four bytes, a [uint32]. *)
Theorem readU32LE_spec (data : bytes) (offset : nat) :
  ((offset + 4 <= length data)%nat ->
   _readU32LE data offset = Ok (from_le_bytes (firstn 4 (skipn offset data))) /\
   0 <= from_le_bytes (firstn 4 (skipn offset data)) < 2 ^ 32) /\
  ((length data < offset + 4)%nat -> _readU32LE data offset = Err Panic).
Proof.
  split.
  - intros H. split; [apply readU32LE_in_bounds; exact H|].
    pose proof (from_le_bytes_range (firstn 4 (skipn offset data))) as R.
    rewrite firstn_skipn_length in R by exact H. exact R.
  - apply readU32LE_out_of_bounds.
Qed.

Lemma firstn_add_skipn (data : bytes) (n m : nat) :
  firstn (n + m) data = firstn n data ++ firstn m (skipn n data).
Proof.
  revert data. induction n as [|n IH]; intros data; [reflexivity|].
  destruct data as [|b data]; cbn [Nat.add firstn skipn app].
  - rewrite firstn_nil. reflexivity.
  - rewrite IH. reflexivity.
Qed.

Lemma skipn_skipn_add (data : bytes) (n m : nat) :
  skipn m (skipn n data) = skipn (n + m) data.
Proof. rewrite skipn_skipn. f_equal. lia. Qed.

Lemma readU64LE_in_bounds (data : bytes) (offset : nat) :
  (offset + 8 <= length data)%nat ->
  _readU64LE data offset = Ok (from_le_bytes (firstn 8 (skipn offset data))).
Proof.
  intros H. unfold _readU64LE.
  rewrite !readU32LE_in_bounds by lia. cbn [bind]. f_equal.
  change 8%nat with (4 + 4)%nat. rewrite firstn_add_skipn, from_le_bytes_app.
  rewrite skipn_skipn_add, firstn_skipn_length by lia.
  pose proof (from_le_bytes_range (firstn 4 (skipn offset data))) as R.
  rewrite firstn_skipn_length in R by lia.
  change (256 ^ Z.of_nat 4) with (2 ^ 32) in *.
  rewrite lor_shiftl_add by lia. lia.
Qed.

Lemma readU64LE_out_of_bounds (data : bytes) (offset : nat) :
  (length data < offset + 8)%nat -> _readU64LE data offset = Err Panic.
Proof.
  intros H. unfold _readU64LE.
  destruct (Nat.le_gt_cases (offset + 4) (length data)) as [L|L].
  - rewrite (readU32LE_in_bounds data offset L). cbn [bind].
    rewrite readU32LE_out_of_bounds by lia. reflexivity.
  - rewrite readU32LE_out_of_bounds by lia. reflexivity.
Qed.

(** X2: [_readU64LE] returns exactly when the eight bytes at the offset lie
    inside the buffer, and panics otherwise; the value it returns is the
    little-endian number of those eight bytes, a [uint64]. *)
Theorem readU64LE_spec (data : bytes) (offset : nat) :
  ((offset + 8 <= length data)%nat ->
   _readU64LE data offset = Ok (from_le_bytes (firstn 8 (skipn offset data))) /\
   0 <= from_le_bytes (firstn 8 (skipn offset data)) < 2 ^ 64) /\
  ((length data < offset + 8)%nat -> _readU64LE data offset = Err Panic).
Proof.
  split.
  - intros H. split; [apply readU64LE_in_bounds; exact H|].
    pose proof (from_le_bytes_range (firstn 8 (skipn offset data))) as R.
    rewrite firstn_skipn_length in R by exact H. exact R.
  - apply readU64LE_out_of_bounds.
Qed.

(* ------------------------------------------------------------------ *)
(** ** [parse] on every buffer of 209 bytes *)
(* ------------------------------------------------------------------ *)

Lemma byte_of_Z_at (v b : Z) (x : byte) :
  Z_of_byte x = b -> v mod 256 = b -> byte_of_Z v = x.
Proof.
  intros <- H. rewrite <- (byte_of_Z_of_byte x). apply byte_of_Z_congr.
  rewrite H. symmetry. apply Z.mod_small. apply Z_of_byte_range.
Qed.

Lemma u32_le_from_le_bytes (bs : bytes) :
  length bs = 4%nat -> u32_le (from_le_bytes bs) = bs.
Proof.
  intros H. destruct bs as [|b0 [|b1 [|b2 [|b3 [|]]]]]; try discriminate H.
  rewrite from_le_bytes_4. unfold u32_le.
  pose proof (Z_of_byte_range b0). pose proof (Z_of_byte_range b1).
  pose proof (Z_of_byte_range b2). pose proof (Z_of_byte_range b3).
  rewrite !Z.shiftr_div_pow2 by lia.
  change (2 ^ 8) with 256. change (2 ^ 16) with 65536. change (2 ^ 24) with 16777216.
  f_equal; [|f_equal; [|f_equal; [|f_equal]]];
    (eapply byte_of_Z_at; [reflexivity|]); Z.div_mod_to_equations; lia.
Qed.

Lemma u64_le_from_le_bytes_app (a b : bytes) :
  length a = 4%nat -> length b = 4%nat ->
  u64_le (from_le_bytes (a ++ b)) = a ++ b.
Proof.
  intros L1 L2. rewrite from_le_bytes_app, L1.
  pose proof (from_le_bytes_range a) as R1. rewrite L1 in R1.
  pose proof (from_le_bytes_range b) as R2. rewrite L2 in R2.
  change (256 ^ Z.of_nat 4) with (2 ^ 32) in *.
  unfold u64_le. rewrite u32_le_mod. f_equal.
  - rewrite <- (u32_le_from_le_bytes a L1) at 2. f_equal.
    change (2 ^ 32) with 4294967296 in *. Z.div_mod_to_equations. lia.
  - rewrite <- (u32_le_from_le_bytes b L2) at 2. f_equal.
    rewrite Z.shiftr_div_pow2 by lia.
    change (2 ^ 32) with 4294967296 in *. Z.div_mod_to_equations. lia.
Qed.

Lemma u64_le_from_le_bytes (bs : bytes) :
  length bs = 8%nat -> u64_le (from_le_bytes bs) = bs.
Proof.
  intros H. rewrite <- (firstn_skipn 4 bs).
  apply u64_le_from_le_bytes_app; [rewrite length_firstn | rewrite length_skipn]; lia.
Qed.

Lemma at_index_in_bounds (data : bytes) (offset : nat) :
  (offset < length data)%nat ->
  exists b, at_index data offset = Some b /\ firstn 1 (skipn offset data) = [b].
Proof.
  intros H. unfold at_index.
  pose proof (length_skipn offset data) as L.
  destruct (skipn offset data) as [|b rest] eqn:E; cbn [length] in L; [lia|].
  exists b. split; [|reflexivity].
  rewrite <- (Nat.add_0_r offset), <- nth_error_skipn, E. reflexivity.
Qed.

(** The fields [parse] reads from a buffer of 209 bytes. *)
Lemma parse_fields (data : bytes) :
  length data = 209%nat -> parse data = Ok (journal_fields data).
Proof.
  intros H.
  destruct (at_index_in_bounds data 208) as (status & Hs & Hf); [lia|].
  unfold parse. rewrite H. cbn [Nat.eqb require bind].
  rewrite !readU32LE_in_bounds by lia. cbn [bind].
  rewrite readU64LE_in_bounds by lia.
  rewrite !slice_skipn by lia. cbn [or_else bind].
  rewrite Hs. unfold journal_fields. rewrite Hf.
  replace (from_le_bytes [status]) with (Z_of_byte status)
    by (unfold from_le_bytes; cbn [fold_right]; lia).
  reflexivity.
Qed.

Lemma parse_ok_length (data : bytes) p : parse data = Ok p -> length data = 209%nat.
Proof.
  unfold parse. destruct (Nat.eqb_spec (length data) 209); [auto | discriminate].
Qed.

Lemma parse_ranges (data : bytes) p :
  parse data = Ok p ->
  0 <= KernelOutputParser.protocolVersion p < 2 ^ 32 /\
  0 <= KernelOutputParser.kernelVersion p < 2 ^ 32 /\
  length (KernelOutputParser.agentId p) = 32%nat /\
  length (KernelOutputParser.agentCodeHash p) = 32%nat /\
  length (KernelOutputParser.constraintSetHash p) = 32%nat /\
  length (KernelOutputParser.inputRoot p) = 32%nat /\
  0 <= KernelOutputParser.executionNonce p < 2 ^ 64 /\
  length (KernelOutputParser.inputCommitment p) = 32%nat /\
  length (KernelOutputParser.actionCommitment p) = 32%nat /\
  0 <= KernelOutputParser.executionStatus p < 256.
Proof.
  intros Hp. pose proof (parse_ok_length data p Hp) as H.
  rewrite (parse_fields data H) in Hp. injection Hp as <-.
  unfold journal_fields.
  cbn [KernelOutputParser.protocolVersion KernelOutputParser.kernelVersion
       KernelOutputParser.agentId KernelOutputParser.agentCodeHash
       KernelOutputParser.constraintSetHash KernelOutputParser.inputRoot
       KernelOutputParser.executionNonce KernelOutputParser.inputCommitment
       KernelOutputParser.actionCommitment KernelOutputParser.executionStatus].
  pose proof (from_le_bytes_range (firstn 4 (skipn 0 data))) as R0.
  pose proof (from_le_bytes_range (firstn 4 (skipn 4 data))) as R4.
  pose proof (from_le_bytes_range (firstn 8 (skipn 136 data))) as R136.
  pose proof (from_le_bytes_range (firstn 1 (skipn 208 data))) as R208.
  rewrite firstn_skipn_length in R0, R4, R136, R208 by lia.
  change (256 ^ Z.of_nat 4) with (2 ^ 32) in *.
  change (256 ^ Z.of_nat 8) with (2 ^ 64) in *.
  change (256 ^ Z.of_nat 1) with 256 in *.
  repeat split; try (apply firstn_skipn_length; lia); lia.
Qed.

(** X3: [parse] succeeds on exactly the buffers of 209 bytes: after the
    length check no read can go out of range, and neither the versions nor
    the status byte are checked.  The parsed versions are [uint32] values,
    the nonce a [uint64], the status a [uint8], and the six digests and
    identifiers have 32 bytes each. *)
Theorem parse_total (data : bytes) :
  (length data = 209%nat <-> exists p, parse data = Ok p) /\
  (forall p,
      parse data = Ok p ->
      0 <= KernelOutputParser.protocolVersion p < 2 ^ 32 /\
      0 <= KernelOutputParser.kernelVersion p < 2 ^ 32 /\
      length (KernelOutputParser.agentId p) = 32%nat /\
      length (KernelOutputParser.agentCodeHash p) = 32%nat /\
      length (KernelOutputParser.constraintSetHash p) = 32%nat /\
      length (KernelOutputParser.inputRoot p) = 32%nat /\
      0 <= KernelOutputParser.executionNonce p < 2 ^ 64 /\
      length (KernelOutputParser.inputCommitment p) = 32%nat /\
      length (KernelOutputParser.actionCommitment p) = 32%nat /\
      0 <= KernelOutputParser.executionStatus p < 256).
Proof.
  split.
  - split.
    + intros H. rewrite (parse_fields data H). eauto.
    + intros (p & Hp). eapply parse_ok_length. exact Hp.
  - apply parse_ranges.
Qed.

Lemma split_at (data : bytes) (n : nat) :
  data = firstn n data ++ skipn n data.
Proof. symmetry. apply firstn_skipn. Qed.

Lemma skipn_step (data : bytes) (n m : nat) :
  skipn n data = firstn m (skipn n data) ++ skipn (n + m) data.
Proof. rewrite <- skipn_skipn_add. apply split_at. Qed.

Lemma byte_from_le_bytes (bs : bytes) :
  length bs = 1%nat -> [byte_of_Z (from_le_bytes bs)] = bs.
Proof.
  intros H. destruct bs as [|b [|]]; try discriminate H.
  replace (from_le_bytes [b]) with (Z_of_byte b)
    by (unfold from_le_bytes; cbn [fold_right]; lia).
  rewrite byte_of_Z_of_byte. reflexivity.
Qed.

Lemma parse_pack (data : bytes) p : parse data = Ok p -> pack_journal p = data.
Proof.
  intros Hp. pose proof (parse_ok_length data p Hp) as H.
  rewrite (parse_fields data H) in Hp. injection Hp as <-.
  unfold pack_journal, journal_fields.
  cbn [KernelOutputParser.protocolVersion KernelOutputParser.kernelVersion
       KernelOutputParser.agentId KernelOutputParser.agentCodeHash
       KernelOutputParser.constraintSetHash KernelOutputParser.inputRoot
       KernelOutputParser.executionNonce KernelOutputParser.inputCommitment
       KernelOutputParser.actionCommitment KernelOutputParser.executionStatus].
  rewrite !u32_le_from_le_bytes by (apply firstn_skipn_length; lia).
  rewrite u64_le_from_le_bytes by (apply firstn_skipn_length; lia).
  rewrite byte_from_le_bytes by (apply firstn_skipn_length; lia).
  assert (Hend : skipn 209 data = []) by (apply skipn_all2; lia).
  rewrite <- (app_nil_r (firstn 1 (skipn 208 data))), <- Hend.
  change 209%nat with (208 + 1)%nat. rewrite <- skipn_step.
  change 208%nat with (176 + 32)%nat. rewrite <- skipn_step.
  change 176%nat with (144 + 32)%nat. rewrite <- skipn_step.
  change 144%nat with (136 + 8)%nat. rewrite <- skipn_step.
  change 136%nat with (104 + 32)%nat. rewrite <- skipn_step.
  change 104%nat with (72 + 32)%nat. rewrite <- skipn_step.
  change 72%nat with (40 + 32)%nat. rewrite <- skipn_step.
  change 40%nat with (8 + 32)%nat. rewrite <- skipn_step.
  change 8%nat with (4 + 4)%nat. rewrite <- skipn_step.
  change 4%nat with (0 + 4)%nat at 2. rewrite <- skipn_step.
  reflexivity.
Qed.

(** X4: [parse] loses nothing: the fields it returns tile the 209 bytes, so
    the buffer is rebuilt from them, and two buffers that parse to the same
    journal are the same buffer. *)
Theorem parse_injective (data1 data2 : bytes) p :
  parse data1 = Ok p -> parse data2 = Ok p ->
  pack_journal p = data1 /\ data1 = data2.
Proof.
  intros H1 H2. apply parse_pack in H1, H2. split; congruence.
Qed.

(* ------------------------------------------------------------------ *)
(** ** [parseActions] on arbitrary buffers *)
(* ------------------------------------------------------------------ *)

Lemma readU32LE_ok_inv (data : bytes) (offset : nat) (n : Z) :
  _readU32LE data offset = Ok n ->
  (offset + 4 <= length data)%nat /\ 0 <= n < 2 ^ 32.
Proof.
  intros H. destruct (Nat.le_gt_cases (offset + 4) (length data)) as [L|L].
  - split; [exact L|]. rewrite readU32LE_in_bounds in H by exact L.
    injection H as <-.
    pose proof (from_le_bytes_range (firstn 4 (skipn offset data))) as R.
    rewrite firstn_skipn_length in R by exact L. exact R.
  - rewrite readU32LE_out_of_bounds in H by exact L. discriminate.
Qed.

Lemma slice_some_inv (data : bytes) (lo hi : nat) (x : bytes) :
  slice data lo hi = Some x ->
  (lo <= hi)%nat /\ (hi <= length data)%nat /\ length x = (hi - lo)%nat /\
  x = firstn (hi - lo) (skipn lo data).
Proof.
  unfold slice. destruct (Nat.leb_spec lo hi); cbn [andb]; [|discriminate].
  destruct (Nat.leb_spec hi (length data)); [|discriminate].
  intros Hs. injection Hs as <-. repeat split; try assumption.
  rewrite length_firstn, length_skipn. lia.
Qed.

Lemma or_else_ok {A} (o : option A) (e : revert_reason) (a : A) :
  or_else o e = Ok a -> o = Some a.
Proof. destruct o; cbn; congruence. Qed.

(** One step of the loop, inverted. *)
Lemma parseActions_from_step (count : nat) (data : bytes) (offset : nat) acts :
  parseActions_from (S count) data offset = Ok acts ->
  exists actionLen a rest,
    acts = a :: rest /\
    _readU32LE data offset = Ok actionLen /\
    _readU32LE data (offset + 4) = Ok (actionType a) /\
    slice data (offset + 4 + 4) (offset + 4 + 4 + 32) = Some (target a) /\
    _readU32LE data (offset + 4 + 4 + 32) = Ok (Z.of_nat (length (payload a))) /\
    slice data (offset + 4 + 4 + 32 + 4)
      (offset + 4 + 4 + 32 + 4 + length (payload a)) = Some (payload a) /\
    parseActions_from count data (offset + 4 + 4 + 32 + 4 + length (payload a))
    = Ok rest.
Proof.
  cbn [parseActions_from]. intros H.
  inv_bind H. rename x into actionLen. rename Hx into R0.
  inv_bind H. rename x into ty. rename Hx into R1.
  inv_bind H. rename x into tg. rename Hx into R2. apply or_else_ok in R2.
  inv_bind H. rename x into plen. rename Hx into R3.
  inv_bind H. rename x into pl. rename Hx into R4. apply or_else_ok in R4.
  inv_bind H. rename x into rest. rename Hx into R5.
  injection H as <-.
  destruct (readU32LE_ok_inv _ _ _ R3) as (_ & Hplen).
  destruct (slice_some_inv _ _ _ _ R4) as (_ & _ & Hlen & _).
  assert (E : Z.to_nat plen = length pl) by lia.
  rewrite E in R4, R5.
  assert (E' : plen = Z.of_nat (length pl)) by lia.
  exists actionLen, {| actionType := ty; target := tg; payload := pl |}, rest.
  cbn [actionType target payload]. rewrite <- E'.
  repeat split; assumption.
Qed.

Lemma parseActions_from_shape (count : nat) (data : bytes) :
  forall offset acts,
    parseActions_from count data offset = Ok acts ->
    length acts = count /\ Forall wire_action acts /\
    ((offset <= length data)%nat -> (offset + actions_size acts <= length data)%nat).
Proof.
  induction count as [|count IH]; intros offset acts H.
  - injection H as <-. cbn. repeat split; [constructor | lia].
  - apply parseActions_from_step in H.
    destruct H as (actionLen & a & rest & -> & R0 & R1 & R2 & R3 & R4 & R5).
    destruct (IH _ _ R5) as (Hlen & Hwire & Hsize).
    destruct (readU32LE_ok_inv _ _ _ R1) as (_ & Hty).
    destruct (readU32LE_ok_inv _ _ _ R3) as (_ & Hpl).
    destruct (slice_some_inv _ _ _ _ R2) as (_ & _ & Htg & _).
    destruct (slice_some_inv _ _ _ _ R4) as (_ & Hend & _ & _).
    split; [cbn [length]; lia|]. split.
    + constructor; [|exact Hwire]. unfold wire_action.
      split; [exact Hty|]. split; [lia|lia].
    + intros _. cbn [actions_size fold_right]. fold (actions_size rest).
      unfold action_size. specialize (Hsize Hend). lia.
Qed.

Lemma parseActions_inv (data : bytes) acts :
  parseActions data = Ok acts ->
  exists count,
    _readU32LE data 0 = Ok count /\
    parseActions_from (Z.to_nat count) data 4 = Ok acts.
Proof.
  unfold parseActions. intros H. inv_bind H. eauto.
Qed.

(** X5: when [parseActions] returns, it returns as many actions as the
    count on the first four bytes declares; every action has a [uint32]
    type, a target of 32 bytes and a payload shorter than 2^32 bytes; and
    the buffer really holds them: four bytes of count and, for each action,
    44 bytes of header and its payload. *)
Theorem parseActions_shape (data : bytes) acts :
  parseActions data = Ok acts ->
  Z.of_nat (length acts) = from_le_bytes (firstn 4 data) /\
  Forall wire_action acts /\
  (4 + actions_size acts <= length data)%nat.
Proof.
  intros H. apply parseActions_inv in H. destruct H as (count & Hc & H).
  destruct (readU32LE_ok_inv _ _ _ Hc) as (Hb & Hr).
  pose proof (readU32LE_in_bounds data 0 Hb) as Hc2. rewrite Hc in Hc2.
  change (skipn 0 data) with data in Hc2.
  assert (E : count = from_le_bytes (firstn 4 data)) by congruence.
  destruct (parseActions_from_shape _ _ _ _ H) as (Hlen & Hwire & Hsize).
  split; [rewrite Hlen, <- E; lia|]. split; [exact Hwire|].
  apply Hsize. cbn in Hb. lia.
Qed.

(** Reads and slices that succeed keep their result when bytes are appended. *)
Lemma readU32LE_app (data extra : bytes) (offset : nat) (n : Z) :
  _readU32LE data offset = Ok n -> _readU32LE (data ++ extra) offset = Ok n.
Proof.
  intros H. destruct (readU32LE_ok_inv _ _ _ H) as (L & _).
  rewrite readU32LE_in_bounds in H by exact L.
  rewrite readU32LE_in_bounds by (rewrite length_app; lia).
  rewrite <- H. do 2 f_equal.
  rewrite skipn_app, firstn_app, length_skipn.
  replace (4 - (length data - offset))%nat with 0%nat by lia.
  cbn [firstn]. apply app_nil_r.
Qed.

Lemma slice_app (data extra : bytes) (lo hi : nat) (x : bytes) :
  slice data lo hi = Some x -> slice (data ++ extra) lo hi = Some x.
Proof.
  intros H. destruct (slice_some_inv _ _ _ _ H) as (L1 & L2 & _ & ->).
  rewrite slice_skipn by (try rewrite length_app; lia). f_equal.
  rewrite skipn_app, firstn_app, length_skipn.
  replace (hi - lo - (length data - lo))%nat with 0%nat by lia.
  cbn [firstn]. apply app_nil_r.
Qed.

Lemma parseActions_from_app (extra : bytes) (count : nat) (data : bytes) :
  forall offset acts,
    parseActions_from count data offset = Ok acts ->
    parseActions_from count (data ++ extra) offset = Ok acts.
Proof.
  induction count as [|count IH]; intros offset acts H; [exact H|].
  apply parseActions_from_step in H.
  destruct H as (actionLen & a & rest & -> & R0 & R1 & R2 & R3 & R4 & R5).
  cbn [parseActions_from].
  rewrite (readU32LE_app _ extra _ _ R0). cbn [bind].
  rewrite (readU32LE_app _ extra _ _ R1). cbn [bind].
  rewrite (slice_app _ extra _ _ _ R2). cbn [or_else bind].
  rewrite (readU32LE_app _ extra _ _ R3). cbn [bind].
  rewrite Nat2Z.id, (slice_app _ extra _ _ _ R4). cbn [or_else bind].
  rewrite (IH _ _ R5). cbn [bind]. destruct a; reflexivity.
Qed.

(** X6: [parseActions] never looks past the last action: bytes appended to
    a buffer it accepts change nothing, so trailing bytes are not an
    error. *)
Theorem parseActions_ignores_trailing_bytes (data extra : bytes) acts :
  parseActions data = Ok acts -> parseActions (data ++ extra) = Ok acts.
Proof.
  intros H. apply parseActions_inv in H. destruct H as (count & Hc & H).
  unfold parseActions. rewrite (readU32LE_app _ extra _ _ Hc). cbn [bind].
  apply parseActions_from_app. exact H.
Qed.

Lemma parseActions_from_encode_with (acts : list ActionV1) :
  Forall wire_action acts ->
  forall lens pre post,
    length lens = length acts ->
    parseActions_from (length acts) (pre ++ encode_actions_with lens acts ++ post)
      (length pre) = Ok acts.
Proof.
  induction 1 as [|a acts Ha _ IH]; intros lens pre post Hl; [reflexivity|].
  destruct lens as [|len lens]; [discriminate Hl|].
  cbn [length] in Hl. injection Hl as Hl.
  destruct Ha as (Hty & Htg & Hpl).
  assert (Hl32 : u32 (Z.of_nat (length (payload a)))) by (unfold u32; lia).
  set (tail := encode_actions_with lens acts ++ post).
  set (L := u32_le (len mod 2 ^ 32)).
  set (T := u32_le (actionType a)).
  set (PL := u32_le (Z.of_nat (length (payload a)))).
  assert (HB : pre ++ encode_actions_with (len :: lens) (a :: acts) ++ post
               = pre ++ L ++ T ++ target a ++ PL ++ payload a ++ tail).
  { cbn [encode_actions_with]. unfold encode_action_with.
    rewrite (u32_le_mod len). subst L T PL tail.
    repeat rewrite <- app_assoc. reflexivity. }
  rewrite HB. clear HB.
  set (B := pre ++ L ++ T ++ target a ++ PL ++ payload a ++ tail).
  assert (R0 : _readU32LE B (length pre) = Ok (len mod 2 ^ 32)).
  { apply readU32LE_field; [reflexivity | apply low32_u32]. }
  assert (R1 : _readU32LE B (length pre + 4) = Ok (actionType a)).
  { subst B. replace (pre ++ L ++ T ++ target a ++ PL ++ payload a ++ tail)
      with ((pre ++ L) ++ u32_le (actionType a) ++ target a ++ PL ++ payload a ++ tail)
      by (repeat rewrite <- app_assoc; reflexivity).
    apply readU32LE_field; [rewrite length_app; reflexivity | exact Hty]. }
  assert (R2 : slice B (length pre + 4 + 4) (length pre + 4 + 4 + 32) = Some (target a)).
  { subst B. replace (pre ++ L ++ T ++ target a ++ PL ++ payload a ++ tail)
      with ((pre ++ L ++ T) ++ target a ++ PL ++ payload a ++ tail)
      by (repeat rewrite <- app_assoc; reflexivity).
    apply slice_field; [rewrite !length_app; subst L T; rewrite !length_u32_le; lia | lia]. }
  assert (R3 : _readU32LE B (length pre + 4 + 4 + 32)
               = Ok (Z.of_nat (length (payload a)))).
  { subst B. replace (pre ++ L ++ T ++ target a ++ PL ++ payload a ++ tail)
      with ((pre ++ L ++ T ++ target a) ++
            u32_le (Z.of_nat (length (payload a))) ++ payload a ++ tail)
      by (repeat rewrite <- app_assoc; reflexivity).
    apply readU32LE_field;
      [rewrite !length_app; subst L T; rewrite !length_u32_le; lia | exact Hl32]. }
  assert (R4 : slice B (length pre + 4 + 4 + 32 + 4)
                 (length pre + 4 + 4 + 32 + 4 + length (payload a)) = Some (payload a)).
  { subst B. replace (pre ++ L ++ T ++ target a ++ PL ++ payload a ++ tail)
      with ((pre ++ L ++ T ++ target a ++ PL) ++ payload a ++ tail)
      by (repeat rewrite <- app_assoc; reflexivity).
    apply slice_field;
      [rewrite !length_app; subst L T PL; rewrite !length_u32_le; lia | lia]. }
  assert (R5 : parseActions_from (length acts) B
                 (length pre + 4 + 4 + 32 + 4 + length (payload a)) = Ok acts).
  { subst B tail.
    replace (pre ++ L ++ T ++ target a ++ PL ++ payload a ++
             encode_actions_with lens acts ++ post)
      with ((pre ++ L ++ T ++ target a ++ PL ++ payload a) ++
            encode_actions_with lens acts ++ post)
      by (repeat rewrite <- app_assoc; reflexivity).
    replace (length pre + 4 + 4 + 32 + 4 + length (payload a))%nat
      with (length (pre ++ L ++ T ++ target a ++ PL ++ payload a))
      by (rewrite !length_app; subst L T PL; rewrite !length_u32_le; lia).
    apply IH. exact Hl. }
  cbn [length parseActions_from].
  rewrite R0. cbn [bind]. rewrite R1. cbn [bind]. rewrite R2. cbn [bind or_else].
  rewrite R3. cbn [bind]. rewrite Nat2Z.id, R4. cbn [bind or_else].
  rewrite R5. cbn [bind]. destruct a; reflexivity.
Qed.

(** X7: [parseActions] reads the length field of each action and never uses
    it, and it enforces no maximum on the number of actions or on the size
    of a payload: whatever the length fields hold, any list of actions whose
    fields fit their types is read back from its bytes. *)
Theorem parseActions_ignores_action_length (lens : list Z) (acts : list ActionV1) :
  length lens = length acts ->
  Forall wire_action acts ->
  Z.of_nat (length acts) < 2 ^ 32 ->
  parseActions (u32_le (Z.of_nat (length acts)) ++ encode_actions_with lens acts)
  = Ok acts.
Proof.
  intros Hl Hw Hc. unfold parseActions.
  rewrite readU32LE_here by (unfold u32; lia).
  cbn [bind]. rewrite Nat2Z.id.
  rewrite <- (app_nil_r (encode_actions_with lens acts)).
  apply (parseActions_from_encode_with acts Hw lens (u32_le _) [] Hl).
Qed.

(* ------------------------------------------------------------------ *)
(** ** The vault: what acceptance means, and what rejects *)
(* ------------------------------------------------------------------ *)

Section VaultChecks.

Variable World : Type.
Variable risc0_verify : bytes -> bytes -> bytes -> bool.
Variable code : bytes -> Z -> bytes -> Callee World.

Local Abbreviation State := (MyVault.State World).
Local Abbreviation entry := (MyVault.entry World).
Local Abbreviation execute := (MyVault.execute World risc0_verify code).
Local Abbreviation submit := (MyVault.submit World risc0_verify code).
Local Abbreviation executeActions := (MyVault.executeActions World code).
Local Abbreviation _executeAction := (MyVault._executeAction World code).
Local Abbreviation run_callee := (MyVault.run_callee World).
Local Abbreviation verifyAndParse :=
  (KernelExecutionVerifier.verifyAndParseWithImageId risc0_verify).
Local Abbreviation accepted_by := (MyVault.accepted_by World risc0_verify).

(** X9: an accepted submission passed every check of [execute]: the oracle
    accepted the seal for the pinned, non-zero image ID and the SHA-256 of the
    exact journal bytes; both versions are 1; the journal names the agent the
    vault is bound to; its nonce lies in the window of 100 above the stored
    one; its status is Success; the submitted actions hash to its action
    commitment and parse; and what [execute] returns is what the batch
    returns from the state that holds the new nonce. *)
Theorem accepted_submission_checks (d : nat) (j s o : bytes) (st st' : State) :
  execute d j s o st = Ok st' ->
  exists parsed acts,
    parse j = Ok parsed /\
    trustedImageId (fst st) <> zero32 /\
    risc0_verify s (trustedImageId (fst st)) (sha256 j) = true /\
    KernelOutputParser.protocolVersion parsed = 1 /\
    KernelOutputParser.kernelVersion parsed = 1 /\
    KernelOutputParser.agentId parsed = agentId (fst st) /\
    lastExecutionNonce (fst st) < KernelOutputParser.executionNonce parsed
      <= lastExecutionNonce (fst st) + 100 /\
    KernelOutputParser.executionStatus parsed = EXECUTION_STATUS_SUCCESS /\
    sha256 o = KernelOutputParser.actionCommitment parsed /\
    parseActions o = Ok acts /\
    exists d',
      d = S d' /\
      executeActions (execute d') acts
        (with_nonce st (KernelOutputParser.executionNonce parsed)) = Ok st'.
Proof.
  intros H. destruct d as [|d']; [discriminate|].
  apply execute_inv in H. destruct H as (parsed & acts & Hacc & Hrun).
  exists parsed, acts. destruct Hacc as [Hv Hpv Hkv Hag Hn Hb Hg Hs Hc Hpa].
  apply verify_ok_inv in Hv. destruct Hv as (Hi & Hp & Ho).
  repeat split; try assumption; try lia.
  exists d'. split; [reflexivity | exact Hrun].
Qed.

(** X10: with a verified journal, the first check that fails names the
    revert: a protocol version other than 1, then a kernel version other
    than 1, then another agent, then (the nonce being fresh) a nonce more
    than 100 above the stored one, then (the status being Success) actions
    whose SHA-256 is not the action commitment, then actions that do not
    parse.  In each case the submission leaves the state as it was. *)
Theorem rejection_reasons (d : nat) (j s o : bytes) (st : State)
    (parsed : KernelOutputParser.ParsedJournal) :
  verifyAndParse (trustedImageId (fst st)) j s = Ok parsed ->
  let result := execute (S d) j s o st in
  (KernelOutputParser.protocolVersion parsed <> 1 ->
   result = Err UnsupportedProtocol) /\
  (KernelOutputParser.protocolVersion parsed = 1 ->
   KernelOutputParser.kernelVersion parsed <> 1 ->
   result = Err UnsupportedKernel) /\
  (KernelOutputParser.protocolVersion parsed = 1 ->
   KernelOutputParser.kernelVersion parsed = 1 ->
   KernelOutputParser.agentId parsed <> agentId (fst st) ->
   result = Err WrongAgent) /\
  (KernelOutputParser.protocolVersion parsed = 1 ->
   KernelOutputParser.kernelVersion parsed = 1 ->
   KernelOutputParser.agentId parsed = agentId (fst st) ->
   lastExecutionNonce (fst st) + 100 < 2 ^ 64 ->
   lastExecutionNonce (fst st) + 100 < KernelOutputParser.executionNonce parsed ->
   result = Err NonceGapTooLarge) /\
  (KernelOutputParser.protocolVersion parsed = 1 ->
   KernelOutputParser.kernelVersion parsed = 1 ->
   KernelOutputParser.agentId parsed = agentId (fst st) ->
   lastExecutionNonce (fst st) < KernelOutputParser.executionNonce parsed
     <= lastExecutionNonce (fst st) + 100 ->
   lastExecutionNonce (fst st) + 100 < 2 ^ 64 ->
   KernelOutputParser.executionStatus parsed = EXECUTION_STATUS_SUCCESS ->
   (sha256 o <> KernelOutputParser.actionCommitment parsed ->
    result = Err ActionCommitmentMismatch) /\
   (sha256 o = KernelOutputParser.actionCommitment parsed ->
    forall reason, parseActions o = Err reason -> result = Err reason)) /\
  (forall reason, result = Err reason -> submit (S d) j s o st = (st, Some reason)).
Proof.
  intros Hv. cbv zeta. cbn [MyVault.execute]. rewrite Hv. cbn [bind].
  split; [|split; [|split; [|split; [|split]]]].
  - intros Hp. apply Z.eqb_neq in Hp. rewrite Hp. reflexivity.
  - intros -> Hk. apply Z.eqb_neq in Hk. rewrite Hk. reflexivity.
  - intros -> -> Ha. apply bytes_eqb_neq in Ha. rewrite Ha. reflexivity.
  - intros -> -> -> Hb Hg. rewrite bytes_eqb_refl. cbn [Z.eqb Pos.eqb require bind].
    destruct (Z.gtb_spec (KernelOutputParser.executionNonce parsed)
                (lastExecutionNonce (fst st))); [|lia].
    cbn [require bind]. unfold add_uint64.
    destruct (Z.ltb_spec (lastExecutionNonce (fst st) + 100) (2 ^ 64)); [|lia].
    cbn [bind].
    destruct (Z.leb_spec (KernelOutputParser.executionNonce parsed)
                (lastExecutionNonce (fst st) + 100)); [lia|].
    reflexivity.
  - intros -> -> -> [Hlo Hhi] Hb ->. rewrite bytes_eqb_refl.
    cbn [Z.eqb Pos.eqb require bind].
    destruct (Z.gtb_spec (KernelOutputParser.executionNonce parsed)
                (lastExecutionNonce (fst st))); [|lia].
    cbn [require bind]. unfold add_uint64.
    destruct (Z.ltb_spec (lastExecutionNonce (fst st) + 100) (2 ^ 64)); [|lia].
    cbn [bind].
    destruct (Z.leb_spec (KernelOutputParser.executionNonce parsed)
                (lastExecutionNonce (fst st) + 100)); [|lia].
    cbn [Z.eqb Pos.eqb EXECUTION_STATUS_SUCCESS require bind]. split.
    + intros Hc. apply bytes_eqb_neq in Hc. rewrite Hc. reflexivity.
    + intros Hc reason Hpa. rewrite Hc, bytes_eqb_refl, Hpa. reflexivity.
  - intros reason H. unfold MyVault.submit. cbn [MyVault.execute].
    rewrite Hv. cbn [bind]. rewrite H. reflexivity.
Qed.

End VaultChecks.

(* ------------------------------------------------------------------ *)
(** ** The vault: invariants over any sequence of submissions *)
(* ------------------------------------------------------------------ *)

Section VaultInvariants.

Variable World : Type.
Variable risc0_verify : bytes -> bytes -> bytes -> bool.
Variable code : bytes -> Z -> bytes -> Callee World.

Local Abbreviation State := (MyVault.State World).
Local Abbreviation entry := (MyVault.entry World).
Local Abbreviation execute := (MyVault.execute World risc0_verify code).
Local Abbreviation submit := (MyVault.submit World risc0_verify code).
Local Abbreviation run_all := (submit_all World risc0_verify code).
Local Abbreviation executeActions := (MyVault.executeActions World code).
Local Abbreviation _executeAction := (MyVault._executeAction World code).
Local Abbreviation run_callee := (MyVault.run_callee World).
Local Abbreviation accepted_by := (MyVault.accepted_by World risc0_verify).

Lemma submit_extends d j s o (st : State) : extends st (fst (submit d j s o st)).
Proof.
  unfold MyVault.submit. destruct (execute d j s o st) as [st'|e] eqn:E; cbn [fst].
  - eapply execute_monotone. exact E.
  - apply extends_refl.
Qed.

Lemma submit_all_extends d subs : forall st : State, extends st (run_all d subs st).
Proof.
  induction subs as [|sub subs IH]; intros st; cbn [submit_all fold_left].
  - apply extends_refl.
  - eapply extends_trans; [apply submit_extends | apply IH].
Qed.

(** X11: whatever is submitted, in whatever order and with whatever
    outcome, the vault keeps the image ID, the agent ID and the verifier it
    was deployed with, and its nonce never decreases. *)
Theorem immutables_are_pinned (d : nat) (submissions : list (bytes * bytes * bytes))
    (st : State) :
  let st' := run_all d submissions st in
  trustedImageId (fst st') = trustedImageId (fst st) /\
  agentId (fst st') = agentId (fst st) /\
  verifier (fst st') = verifier (fst st) /\
  lastExecutionNonce (fst st) <= lastExecutionNonce (fst st').
Proof.
  cbv zeta. destruct (submit_all_extends d submissions st) as (Hv & Ha & Hi & Hn).
  repeat split; assumption.
Qed.

(** A property of the vault's own storage that the entry point keeps is kept
    by everything a batch does. *)
Section Preservation.

Variable P : Vault -> Prop.

Lemma run_callee_keeps (h : entry) :
  keeps World P h ->
  forall c st st', P (fst st) -> run_callee h c st = Some st' -> P (fst st').
Proof.
  intros Hh. induction c as [[|] | f k IH | k IH | j s o k IH]; intros st st' HP H;
    cbn [MyVault.run_callee] in H.
  - injection H as <-. exact HP.
  - discriminate.
  - eapply IH; [|exact H]. exact HP.
  - eapply IH; [exact HP | exact H].
  - destruct (h j s o st) as [st1|e] eqn:E.
    + eapply IH; [|exact H]. eapply Hh; eassumption.
    + eapply IH; [exact HP | exact H].
Qed.

Lemma executeActions_keeps (h : entry) acts :
  keeps World P h ->
  forall st st', P (fst st) -> executeActions h acts st = Ok st' -> P (fst st').
Proof.
  intros Hh. induction acts as [|a rest IH]; intros st st' HP H;
    cbn [MyVault.executeActions] in H.
  - injection H as <-. exact HP.
  - inv_bind H. eapply IH; [|exact H]. clear H IH.
    unfold MyVault._executeAction in Hx.
    destruct (actionType a =? ACTION_TYPE_CALL).
    + inv_bind Hx. inv_bind Hx. unfold MyVault.call in Hx.
      destruct (run_callee h (code (address_of (target a)) x0 x1) st) as [st1|] eqn:E.
      * inv_check Hx. injection Hx as <-.
        eapply run_callee_keeps; eassumption.
      * inv_check Hx. discriminate.
    + injection Hx as <-. exact HP.
Qed.

End Preservation.

Lemma execute_keeps_range d : keeps World nonce_in_range (execute d).
Proof.
  induction d as [|d IH]; intros j s o st st' HP H; [discriminate|].
  apply execute_inv in H. destruct H as (parsed & acts & Hacc & Hrun).
  eapply executeActions_keeps; [exact IH | | exact Hrun].
  pose proof (accepted_parse _ _ _ _ _ _ _ _ Hacc) as Hp.
  pose proof (parse_ranges _ _ Hp) as Hr.
  unfold nonce_in_range, with_nonce. cbn [fst set_lastExecutionNonce lastExecutionNonce].
  tauto.
Qed.

Lemma submit_all_keeps_range d subs :
  forall st : State,
    nonce_in_range (fst st) -> nonce_in_range (fst (run_all d subs st)).
Proof.
  induction subs as [|sub subs IH]; intros st HP;
    cbn [submit_all fold_left]; [exact HP|].
  apply IH. unfold MyVault.submit.
  destruct (execute d (fst (fst sub)) (snd (fst sub)) (snd sub) st) as [st'|e] eqn:E;
    cbn [fst]; [|exact HP].
  eapply execute_keeps_range; eassumption.
Qed.

(** X12: the stored nonce stays a [uint64]: if it lies in range before a
    sequence of submissions, it lies in range after it, re-entrant
    submissions included. *)
Theorem nonce_stays_uint64 (d : nat) (submissions : list (bytes * bytes * bytes))
    (st : State) :
  nonce_in_range (fst st) -> nonce_in_range (fst (run_all d submissions st)).
Proof. apply submit_all_keeps_range. Qed.

(** X13: the life of a deployed vault.  A vault the constructor returns
    starts at nonce 0 with a non-zero image ID; the first submission it
    accepts carries a nonce from 1 to 100 (nonce 0 is never usable); and
    after any sequence of submissions it still has the verifier, the agent ID
    and the non-zero image ID it was constructed with, and a nonce that is a
    [uint64]. *)
Theorem deployed_vault_lifecycle (_verifier _agentId _trustedImageId : bytes)
    (this : Vault) (w : World) (d : nat) (submissions : list (bytes * bytes * bytes)) :
  MyVault.constructor _verifier _agentId _trustedImageId = Ok this ->
  lastExecutionNonce this = 0 /\
  _trustedImageId <> zero32 /\
  (forall j s o st',
      execute d j s o (this, w) = Ok st' ->
      exists parsed,
        parse j = Ok parsed /\
        1 <= KernelOutputParser.executionNonce parsed <= 100) /\
  verifier (fst (run_all d submissions (this, w))) = _verifier /\
  agentId (fst (run_all d submissions (this, w))) = _agentId /\
  trustedImageId (fst (run_all d submissions (this, w))) = _trustedImageId /\
  nonce_in_range (fst (run_all d submissions (this, w))).
Proof.
  unfold MyVault.constructor. intros H. inv_check H. injection H as <-.
  apply Bool.negb_true_iff in Hc. apply bytes_eqb_neq in Hc.
  set (this := {| verifier := _verifier; agentId := _agentId;
                  trustedImageId := _trustedImageId; lastExecutionNonce := 0 |}).
  split; [reflexivity|]. split; [exact Hc|]. split.
  - intros j s o st' E. destruct d as [|d']; [discriminate|].
    apply execute_inv in E. destruct E as (parsed & acts & Hacc & _).
    exists parsed. split; [eapply accepted_parse; exact Hacc|].
    destruct Hacc as [_ _ _ _ Hlo _ Hhi _ _ _].
    cbn [fst this lastExecutionNonce] in Hlo, Hhi. lia.
  - destruct (submit_all_extends d submissions (this, w)) as (Hv & Ha & Hi & _).
    cbn [fst this verifier agentId trustedImageId] in Hv, Ha, Hi.
    split; [exact Hv|]. split; [exact Ha|]. split; [exact Hi|].
    apply submit_all_keeps_range. unfold nonce_in_range.
    cbn [fst this lastExecutionNonce]. lia.
Qed.

(** X14: the window check adds 100 to the stored nonce in checked [uint64]
    arithmetic, so a vault whose nonce has come within 100 of 2^64 accepts
    nothing any more: every submission reverts, and one that passes the
    checks before the window panics. *)
Theorem nonce_space_exhausted (d : nat) (j s o : bytes) (st : State) :
  2 ^ 64 <= lastExecutionNonce (fst st) + 100 ->
  (exists reason, execute d j s o st = Err reason) /\
  (forall d' parsed,
      d = S d' ->
      KernelExecutionVerifier.verifyAndParseWithImageId risc0_verify
        (trustedImageId (fst st)) j s = Ok parsed ->
      KernelOutputParser.protocolVersion parsed = 1 ->
      KernelOutputParser.kernelVersion parsed = 1 ->
      KernelOutputParser.agentId parsed = agentId (fst st) ->
      lastExecutionNonce (fst st) < KernelOutputParser.executionNonce parsed ->
      execute d j s o st = Err Panic).
Proof.
  intros Hfull. split.
  - destruct (execute d j s o st) as [st'|e] eqn:E; [|eauto].
    destruct d as [|d']; [discriminate|].
    apply execute_inv in E. destruct E as (parsed & acts & Hacc & _).
    destruct Hacc as [_ _ _ _ _ Hb _ _ _ _]. lia.
  - intros d' parsed -> Hv Hp Hk Ha Hn. cbn [MyVault.execute].
    rewrite Hv. cbn [bind]. rewrite Hp, Hk, Ha, bytes_eqb_refl.
    cbn [Z.eqb Pos.eqb require bind].
    destruct (Z.gtb_spec (KernelOutputParser.executionNonce parsed)
                (lastExecutionNonce (fst st))); [|lia].
    cbn [require bind]. unfold add_uint64.
    destruct (Z.ltb_spec (lastExecutionNonce (fst st) + 100) (2 ^ 64)); [lia|].
    reflexivity.
Qed.

(* ------------------------------------------------------------------ *)
(** ** The vault: the batch *)
(* ------------------------------------------------------------------ *)

Lemma executeActions_skips (h : entry) acts (st : State) :
  Forall (fun a => actionType a <> ACTION_TYPE_CALL) acts ->
  executeActions h acts st = Ok st.
Proof.
  induction 1 as [|a rest Ha _ IH]; cbn [MyVault.executeActions]; [reflexivity|].
  unfold MyVault._executeAction. apply Z.eqb_neq in Ha. rewrite Ha.
  cbn [bind]. exact IH.
Qed.

(** X15: the reference vault acts on [Call] actions only.  A batch without
    a [Call] changes nothing, whatever its actions are (a TransferERC20 or an
    unknown type is skipped, not refused), and an accepted submission with
    such a batch only moves the nonce. *)
Theorem non_call_actions_are_skipped (d : nat) (j s o : bytes) (st : State)
    parsed acts :
  Forall (fun a => actionType a <> ACTION_TYPE_CALL) acts ->
  (forall (h : entry) st0, executeActions h acts st0 = Ok st0) /\
  (accepted_by st j s o parsed acts ->
   execute (S d) j s o st
   = Ok (with_nonce st (KernelOutputParser.executionNonce parsed))).
Proof.
  intros Hn. split.
  - intros h st0. apply executeActions_skips. exact Hn.
  - intros Hacc. rewrite (execute_accepted _ _ _ _ _ _ _ _ _ _ Hacc).
    apply executeActions_skips. exact Hn.
Qed.

Lemma executeAction_short_payload (h : entry) a (st : State) :
  actionType a = ACTION_TYPE_CALL -> (length (payload a) < 8)%nat ->
  _executeAction h a st = Err Panic.
Proof.
  intros Ht Hl. unfold MyVault._executeAction. rewrite Ht.
  cbn [Z.eqb Pos.eqb ACTION_TYPE_CALL].
  rewrite readU64LE_out_of_bounds by (cbn [Nat.add]; lia). reflexivity.
Qed.

Lemma executeActions_ok_each (h : entry) acts :
  forall (st st' : State),
    executeActions h acts st = Ok st' ->
    Forall (fun a => exists st1 st2, _executeAction h a st1 = Ok st2) acts.
Proof.
  induction acts as [|a rest IH]; intros st st' H; [constructor|].
  cbn [MyVault.executeActions] in H. inv_bind H.
  constructor; [eauto | eapply IH; exact H].
Qed.

(** X16: a [Call] action carries its value on the first eight bytes of its
    payload.  With a shorter payload the action panics before any call is
    made, so an accepted submission never holds one: each of its [Call]
    actions has at least eight bytes of payload. *)
Theorem call_needs_eight_bytes (d : nat) (j s o : bytes) (st st' : State) acts :
  (forall (h : entry) a st0,
      actionType a = ACTION_TYPE_CALL -> (length (payload a) < 8)%nat ->
      _executeAction h a st0 = Err Panic) /\
  (execute d j s o st = Ok st' ->
   parseActions o = Ok acts ->
   Forall (fun a => actionType a = ACTION_TYPE_CALL -> (8 <= length (payload a))%nat)
     acts).
Proof.
  split; [intros; apply executeAction_short_payload; assumption|].
  intros H Hpa. destruct d as [|d']; [discriminate|].
  apply execute_inv in H. destruct H as (parsed & acts' & Hacc & Hrun).
  destruct Hacc as [_ _ _ _ _ _ _ _ _ Hpa']. rewrite Hpa in Hpa'.
  injection Hpa' as <-.
  apply executeActions_ok_each in Hrun.
  eapply Forall_impl; [|exact Hrun].
  intros a (st1 & st2 & Hok) Ht.
  destruct (Nat.le_gt_cases 8 (length (payload a))) as [L|L]; [exact L|].
  rewrite (executeAction_short_payload _ a st1 Ht L) in Hok. discriminate.
Qed.

End VaultInvariants.

(* ------------------------------------------------------------------ *)
(** ** SHA-256 digests have 32 bytes *)
(* ------------------------------------------------------------------ *)

Lemma length_Z_to_be (width : nat) (n : Z) : length (SHA256.Z_to_be width n) = width.
Proof. induction width as [|w IH]; cbn [SHA256.Z_to_be length]; congruence. Qed.

Lemma length_compress (h : list Z) (block : bytes) :
  length h = 8%nat -> length (SHA256.compress h block) = 8%nat.
Proof.
  intros H. unfold SHA256.compress. rewrite length_map, length_combine, H.
  reflexivity.
Qed.

Lemma length_fold_compress (blocks : list bytes) :
  forall h, length h = 8%nat -> length (fold_left SHA256.compress blocks h) = 8%nat.
Proof.
  induction blocks as [|b blocks IH]; intros h H; cbn [fold_left]; [exact H|].
  apply IH, length_compress, H.
Qed.

Lemma length_flat_map_be (h : list Z) :
  length (flat_map (SHA256.Z_to_be 4) h) = (4 * length h)%nat.
Proof.
  induction h as [|x h IH]; cbn [flat_map length]; [reflexivity|].
  rewrite length_app, length_Z_to_be, IH. lia.
Qed.

Lemma length_sha256 (data : bytes) : length (sha256 data) = 32%nat.
Proof.
  unfold sha256, SHA256.digest. cbv zeta.
  rewrite length_flat_map_be, length_fold_compress; reflexivity.
Qed.

(* ------------------------------------------------------------------ *)
(** ** The decoder of [KernelInputV1], in both directions *)
(* ------------------------------------------------------------------ *)

Lemma take_inv (n : nat) (bs a r : bytes) :
  take n bs = Ok (a, r) -> bs = a ++ r /\ length a = n.
Proof.
  unfold take. destruct (Nat.leb_spec n (length bs)) as [L|L]; [|discriminate].
  intros H. assert (Ea : a = firstn n bs) by congruence.
  assert (Er : r = skipn n bs) by congruence. subst a r.
  split; [symmetry; apply firstn_skipn | rewrite length_firstn; lia].
Qed.

Ltac inv_take H a r Ht :=
  let p := fresh "p" in
  apply bind_ok in H; destruct H as (p & Ht & H); destruct p as (a, r);
  apply take_inv in Ht; destruct Ht as (-> & Ht).

(** The encoding of a kernel input is a header of 144 bytes, the length of
    the opaque inputs on 4 bytes, and the opaque inputs. *)
Lemma encode_input_size (x : KernelInputV1) :
  bytes32 (in_agent_id x) -> bytes32 (in_agent_code_hash x) ->
  bytes32 (in_constraint_set_hash x) -> bytes32 (in_input_root x) ->
  length (encode_input x) = (148 + length (opaque_agent_inputs x))%nat /\
  firstn 4 (skipn 144 (encode_input x))
  = u32_le (Z.of_nat (length (opaque_agent_inputs x))) /\
  skipn 148 (encode_input x) = opaque_agent_inputs x.
Proof.
  unfold bytes32. intros H1 H2 H3 H4.
  set (header := u32_le (in_protocol_version x) ++ u32_le (in_kernel_version x) ++
                 in_agent_id x ++ in_agent_code_hash x ++
                 in_constraint_set_hash x ++ in_input_root x ++
                 u64_le (in_execution_nonce x)).
  assert (Hh : length header = 144%nat).
  { subst header. rewrite !length_app, !length_u32_le, length_u64_le, H1, H2, H3, H4.
    reflexivity. }
  assert (E : encode_input x
              = header ++ u32_le (Z.of_nat (length (opaque_agent_inputs x))) ++
                opaque_agent_inputs x).
  { subst header. unfold encode_input. repeat rewrite <- app_assoc. reflexivity. }
  rewrite E. split; [|split].
  - rewrite !length_app, Hh, length_u32_le. lia.
  - rewrite skipn_exact by exact Hh. apply firstn_exact. reflexivity.
  - rewrite app_assoc. apply skipn_exact.
    rewrite length_app, Hh, length_u32_le. reflexivity.
Qed.

Lemma decode_input_inv (data : bytes) (x : KernelInputV1) :
  decode_input data = Ok x -> valid_input x /\ encode_input x = data.
Proof.
  unfold decode_input. intros H.
  inv_take H pv r0 Lpv. inv_check H.
  inv_take H kv r1 Lkv. inv_check H.
  inv_take H aid r2 Laid.
  inv_take H ach r3 Lach.
  inv_take H csh r4 Lcsh.
  inv_take H root r5 Lroot.
  inv_take H nonce r6 Lnonce.
  inv_take H len r7 Llen. inv_check H.
  inv_take H opaque r8 Lop. inv_check H.
  injection H as <-.
  pose proof (from_le_bytes_range len) as Rlen. rewrite Llen in Rlen.
  pose proof (from_le_bytes_range nonce) as Rn. rewrite Lnonce in Rn.
  change (256 ^ Z.of_nat 4) with (2 ^ 32) in Rlen.
  change (256 ^ Z.of_nat 8) with (2 ^ 64) in Rn.
  assert (Er : r8 = []) by (destruct r8; [reflexivity | discriminate]).
  subst r8. split.
  - unfold valid_input, bytes32, u64.
    cbn [in_protocol_version in_kernel_version in_agent_id in_agent_code_hash
         in_constraint_set_hash in_input_root in_execution_nonce opaque_agent_inputs].
    repeat split; try assumption; lia.
  - unfold encode_input.
    cbn [in_protocol_version in_kernel_version in_agent_id in_agent_code_hash
         in_constraint_set_hash in_input_root in_execution_nonce opaque_agent_inputs].
    rewrite !u32_le_from_le_bytes by assumption.
    rewrite u64_le_from_le_bytes by assumption.
    replace (Z.of_nat (length opaque)) with (from_le_bytes len) by lia.
    rewrite u32_le_from_le_bytes by assumption.
    rewrite app_nil_r. reflexivity.
Qed.

(** X19: the decoder of [KernelInputV1] accepts canonical bytes only:
    whatever it decodes is a valid input, and the bytes it decoded are the
    encoding of that input, so no input has two accepted encodings and no
    accepted buffer has bytes left over. *)
Theorem decode_input_canonical (data : bytes) (x : KernelInputV1) :
  decode_input data = Ok x -> valid_input x /\ encode_input x = data.
Proof. apply decode_input_inv. Qed.

(* ------------------------------------------------------------------ *)
(** ** The two decoders of the journal agree *)
(* ------------------------------------------------------------------ *)

Lemma status_of_byte_inv (b : Z) s : status_of_byte b = Some s -> status_byte s = b.
Proof.
  unfold status_of_byte.
  destruct (Z.eqb_spec b 1); [intros H; injection H as <-; symmetry; assumption|].
  destruct (Z.eqb_spec b 2); [intros H; injection H as <-; symmetry; assumption|].
  discriminate.
Qed.

Lemma decode_journal_inv (data : bytes) (j : KernelJournalV1) :
  decode_journal data = Ok j -> valid_journal j /\ encode_journal j = data.
Proof.
  unfold decode_journal. intros H. inv_check H. rename Hc into Hlen.
  inv_take H pv r0 Lpv. inv_check H.
  inv_take H kv r1 Lkv. inv_check H.
  inv_take H aid r2 Laid.
  inv_take H ach r3 Lach.
  inv_take H csh r4 Lcsh.
  inv_take H root r5 Lroot.
  inv_take H nonce r6 Lnonce.
  inv_take H ic r7 Lic.
  inv_take H ac r8 Lac.
  inv_take H st r9 Lst.
  inv_bind H. rename x into status. rename Hx into Hs.
  injection H as <-.
  destruct (status_of_byte (from_le_bytes st)) as [s0|] eqn:Es; [|discriminate].
  injection Hs as <-. apply status_of_byte_inv in Es.
  pose proof (from_le_bytes_range nonce) as Rn. rewrite Lnonce in Rn.
  change (256 ^ Z.of_nat 8) with (2 ^ 64) in Rn.
  assert (Er : r9 = []).
  { rewrite !length_app, Lpv, Lkv, Laid, Lach, Lcsh, Lroot, Lnonce, Lic, Lac, Lst in Hlen.
    destruct r9; [reflexivity | cbn [length] in Hlen; lia]. }
  subst r9. split.
  - unfold valid_journal, bytes32, u64.
    cbn [protocol_version kernel_version agent_id agent_code_hash constraint_set_hash
         input_root execution_nonce input_commitment action_commitment].
    repeat split; try assumption; lia.
  - unfold encode_journal.
    cbn [protocol_version kernel_version agent_id agent_code_hash constraint_set_hash
         input_root execution_nonce input_commitment action_commitment
         execution_status].
    rewrite !u32_le_from_le_bytes by assumption.
    rewrite u64_le_from_le_bytes by assumption.
    rewrite Es, byte_from_le_bytes by assumption.
    rewrite app_nil_r. reflexivity.
Qed.

(** X21: the Rust decoder and the Solidity parser read a journal alike.
    What the decoder accepts is a valid journal in its canonical bytes, and
    the parser returns the same fields for it; and a buffer the parser
    accepts with both versions 1 and a status byte of 0x01 or 0x02 is one
    the decoder accepts, with those fields. *)
Theorem journal_decoders_agree (data : bytes) :
  (forall j,
      decode_journal data = Ok j ->
      valid_journal j /\ encode_journal j = data /\ parse data = Ok (parsed_of j)) /\
  (forall p,
      parse data = Ok p ->
      KernelOutputParser.protocolVersion p = 1 ->
      KernelOutputParser.kernelVersion p = 1 ->
      KernelOutputParser.executionStatus p = 1 \/
      KernelOutputParser.executionStatus p = 2 ->
      exists j, decode_journal data = Ok j /\ parsed_of j = p).
Proof.
  split.
  - intros j H. destruct (decode_journal_inv data j H) as (Hv & He).
    split; [exact Hv|]. split; [exact He|].
    rewrite <- He. apply parse_encode_journal. exact Hv.
  - intros p Hp Hpv Hkv Hs.
    pose proof (parse_ranges _ _ Hp) as (_ & _ & L1 & L2 & L3 & L4 & Rn & L5 & L6 & _).
    pose proof (parse_pack _ _ Hp) as Hpack.
    set (s0 := if KernelOutputParser.executionStatus p =? 1 then Success else Failure).
    assert (Hs0 : status_byte s0 = KernelOutputParser.executionStatus p).
    { subst s0. destruct Hs as [-> | ->]; reflexivity. }
    set (j := {| protocol_version := KernelOutputParser.protocolVersion p;
                 kernel_version := KernelOutputParser.kernelVersion p;
                 agent_id := KernelOutputParser.agentId p;
                 agent_code_hash := KernelOutputParser.agentCodeHash p;
                 constraint_set_hash := KernelOutputParser.constraintSetHash p;
                 input_root := KernelOutputParser.inputRoot p;
                 execution_nonce := KernelOutputParser.executionNonce p;
                 input_commitment := KernelOutputParser.inputCommitment p;
                 action_commitment := KernelOutputParser.actionCommitment p;
                 execution_status := s0 |}).
    assert (Hvalid : valid_journal j).
    { unfold valid_journal, bytes32, u64. subst j.
      cbn [protocol_version kernel_version agent_id agent_code_hash constraint_set_hash
           input_root execution_nonce input_commitment action_commitment].
      repeat split; try assumption; lia. }
    assert (Henc : encode_journal j = data).
    { rewrite <- Hpack. unfold encode_journal, pack_journal. subst j.
      cbn [protocol_version kernel_version agent_id agent_code_hash constraint_set_hash
           input_root execution_nonce input_commitment action_commitment
           execution_status].
      rewrite Hs0. reflexivity. }
    exists j. split.
    + rewrite <- Henc. apply decode_encode_journal. exact Hvalid.
    + unfold parsed_of. subst j.
      cbn [protocol_version kernel_version agent_id agent_code_hash constraint_set_hash
           input_root execution_nonce input_commitment action_commitment
           execution_status].
      rewrite Hs0. destruct p; reflexivity.
Qed.

(* ------------------------------------------------------------------ *)
(** ** From the kernel to the vault *)
(* ------------------------------------------------------------------ *)

Lemma kernel_journal_valid constraints_pass input_bytes agent j :
  kernel_main_with_agent constraints_pass input_bytes agent = Ok j ->
  exists input,
    decode_input input_bytes = Ok input /\ valid_input input /\
    in_agent_code_hash input = code_hash agent /\
    valid_journal j /\
    agent_id j = in_agent_id input /\
    agent_code_hash j = in_agent_code_hash input /\
    constraint_set_hash j = in_constraint_set_hash input /\
    input_root j = in_input_root input /\
    execution_nonce j = in_execution_nonce input /\
    input_commitment j = sha256 input_bytes /\
    execution_status j
    = (if constraints_pass input (run agent input (opaque_agent_inputs input))
       then Success else Failure) /\
    action_commitment j
    = (if constraints_pass input (run agent input (opaque_agent_inputs input))
       then sha256 (encode_output (run agent input (opaque_agent_inputs input)))
       else sha256 (encode_output empty_output)).
Proof.
  intros H. apply kernel_main_inv in H. destruct H as (input & Hd & Hh & ->).
  exists input. destruct (decode_input_inv _ _ Hd) as (Hv & _).
  split; [exact Hd|]. split; [exact Hv|]. split; [exact Hh|].
  destruct Hv as (Hpv & Hkv & B1 & B2 & B3 & B4 & Hn & _).
  cbn [agent_id agent_code_hash constraint_set_hash input_root execution_nonce
       input_commitment execution_status action_commitment].
  split; [|repeat split].
  unfold valid_journal.
  cbn [protocol_version kernel_version agent_id agent_code_hash constraint_set_hash
       input_root execution_nonce input_commitment action_commitment].
  split; [exact Hpv|]. split; [exact Hkv|]. split; [exact B1|]. split; [exact B2|].
  split; [exact B3|]. split; [exact B4|]. split; [exact Hn|].
  split; [apply length_sha256|].
  destruct (constraints_pass input (run agent input (opaque_agent_inputs input)));
    apply length_sha256.
Qed.

(** X22: a journal the kernel emits is bound to its request.  The request
    decoded as a valid input whose code hash is the agent's; the journal
    copies its identifiers, its input root and its nonce, and commits to the
    SHA-256 of the raw input bytes; it is a valid journal, its encoding has
    209 bytes, and the Solidity parser reads that encoding back. *)
Theorem kernel_journal_binds_request constraints_pass input_bytes agent j :
  kernel_main_with_agent constraints_pass input_bytes agent = Ok j ->
  exists input,
    decode_input input_bytes = Ok input /\
    encode_input input = input_bytes /\
    in_agent_code_hash input = code_hash agent /\
    agent_id j = in_agent_id input /\
    agent_code_hash j = in_agent_code_hash input /\
    constraint_set_hash j = in_constraint_set_hash input /\
    input_root j = in_input_root input /\
    execution_nonce j = in_execution_nonce input /\
    input_commitment j = sha256 input_bytes /\
    valid_journal j /\
    length (encode_journal j) = 209%nat /\
    parse (encode_journal j) = Ok (parsed_of j).
Proof.
  intros H. destruct (kernel_journal_valid _ _ _ _ H)
    as (input & Hd & _ & Hh & Hv & F1 & F2 & F3 & F4 & F5 & F6 & _).
  exists input. destruct (decode_input_inv _ _ Hd) as (_ & He).
  split; [exact Hd|]. split; [exact He|]. split; [exact Hh|].
  split; [exact F1|]. split; [exact F2|]. split; [exact F3|]. split; [exact F4|].
  split; [exact F5|]. split; [exact F6|]. split; [exact Hv|]. split.
  - apply encode_journal_length. exact Hv.
  - apply parse_encode_journal. exact Hv.
Qed.

Section KernelToVault.

Variable World : Type.
Variable risc0_verify : bytes -> bytes -> bytes -> bool.
Variable code : bytes -> Z -> bytes -> Callee World.

Local Abbreviation State := (MyVault.State World).
Local Abbreviation execute := (MyVault.execute World risc0_verify code).
Local Abbreviation executeActions := (MyVault.executeActions World code).

(** X23: the kernel and the vault fit together.  Take a journal the kernel
    emitted for an agent output that passed its constraints and is a valid
    output, a vault bound to the agent of the journal with a non-zero image
    ID, a seal the oracle accepts for that image ID and the SHA-256 of the
    encoded journal, and a nonce within the window.  Submitting the encoded
    journal with the encoded agent output passes every check: [execute] runs
    exactly the actions of the agent, in order, from the state that holds the
    nonce of the journal. *)
Theorem kernel_journal_is_executable constraints_pass input_bytes agent j input
    (d : nat) (seal : bytes) (st : State) :
  kernel_main_with_agent constraints_pass input_bytes agent = Ok j ->
  decode_input input_bytes = Ok input ->
  constraints_pass input (run agent input (opaque_agent_inputs input)) = true ->
  valid_output (run agent input (opaque_agent_inputs input)) ->
  trustedImageId (fst st) <> zero32 ->
  risc0_verify seal (trustedImageId (fst st)) (sha256 (encode_journal j)) = true ->
  agentId (fst st) = agent_id j ->
  lastExecutionNonce (fst st) < execution_nonce j <= lastExecutionNonce (fst st) + 100 ->
  lastExecutionNonce (fst st) + 100 < 2 ^ 64 ->
  execute (S d) (encode_journal j) seal
    (encode_output (run agent input (opaque_agent_inputs input))) st
  = executeActions (execute d)
      (actions (run agent input (opaque_agent_inputs input)))
      (with_nonce st (execution_nonce j)).
Proof.
  intros Hk Hd Hpass Hout Himg Horacle Hagent [Hlo Hhi] Hbound.
  destruct (kernel_journal_valid _ _ _ _ Hk)
    as (input' & Hd' & _ & _ & Hv & _ & _ & _ & _ & _ & _ & Hst & Hac).
  rewrite Hd in Hd'. injection Hd' as <-. rewrite Hpass in Hst, Hac.
  pose proof (parse_encode_journal j Hv) as Hparse.
  destruct Hv as (Hpv & Hkv & _).
  change (execution_nonce j) with (KernelOutputParser.executionNonce (parsed_of j)).
  apply execute_accepted. constructor.
  - unfold KernelExecutionVerifier.verifyAndParseWithImageId,
      KernelExecutionVerifier.parseJournal.
    apply bytes_eqb_neq in Himg. rewrite Himg, Hparse, Horacle. reflexivity.
  - exact Hpv.
  - exact Hkv.
  - symmetry. exact Hagent.
  - exact Hlo.
  - exact Hbound.
  - exact Hhi.
  - cbn [parsed_of KernelOutputParser.executionStatus]. rewrite Hst. reflexivity.
  - cbn [parsed_of KernelOutputParser.actionCommitment]. symmetry. exact Hac.
  - apply parseActions_encode_output. exact Hout.
Qed.

(** X24: an agent that violates its constraints gains nothing on chain.
    The journal the kernel emits for it has the Failure status, and no vault
    accepts its encoding, whatever seal and whatever actions come with it:
    the submission reverts and the state stays as it was. *)
Theorem violating_agent_has_no_effect constraints_pass input_bytes agent j input
    (d : nat) (seal agentOutput : bytes) (st : State) :
  kernel_main_with_agent constraints_pass input_bytes agent = Ok j ->
  decode_input input_bytes = Ok input ->
  constraints_pass input (run agent input (opaque_agent_inputs input)) = false ->
  execution_status j = Failure /\
  exists reason,
    execute d (encode_journal j) seal agentOutput st = Err reason /\
    MyVault.submit World risc0_verify code d (encode_journal j) seal agentOutput st
    = (st, Some reason).
Proof.
  intros Hk Hd Hviol.
  destruct (kernel_journal_valid _ _ _ _ Hk)
    as (input' & Hd' & _ & _ & Hv & _ & _ & _ & _ & _ & _ & Hst & _).
  rewrite Hd in Hd'. injection Hd' as <-. rewrite Hviol in Hst.
  split; [exact Hst|].
  pose proof (parse_encode_journal j Hv) as Hparse.
  destruct (execute d (encode_journal j) seal agentOutput st) as [st'|reason] eqn:E.
  - exfalso. destruct d as [|d']; [discriminate|].
    apply execute_inv in E. destruct E as (parsed & acts & Hacc & _).
    pose proof (accepted_parse _ _ _ _ _ _ _ _ Hacc) as Hp.
    rewrite Hparse in Hp. injection Hp as <-.
    destruct Hacc as [_ _ _ _ _ _ _ Hs _ _].
    cbn [parsed_of KernelOutputParser.executionStatus] in Hs. rewrite Hst in Hs.
    discriminate Hs.
  - exists reason. split; [reflexivity|]. unfold MyVault.submit. rewrite E. reflexivity.
Qed.

End KernelToVault.

(* ------------------------------------------------------------------ *)
(** ** The further properties on the scenario *)
(* ------------------------------------------------------------------ *)

Lemma readU32LE_spec_witness :
  (_readU32LE [x02; x01; x00; x00; xff] 0 = Ok 258 /\ 0 <= 258 < 2 ^ 32) /\
  _readU32LE [x02; x01; x00; x00; xff] 2 = Err Panic.
Proof.
  split.
  - apply (proj1 (readU32LE_spec [x02; x01; x00; x00; xff] 0)). cbn [length]. lia.
  - apply (proj2 (readU32LE_spec [x02; x01; x00; x00; xff] 2)). cbn [length]. lia.
Defined.

Lemma readU64LE_spec_witness :
  (_readU64LE (u64_le 5 ++ [xff]) 0 = Ok 5 /\ 0 <= 5 < 2 ^ 64) /\
  _readU64LE (u64_le 5 ++ [xff]) 2 = Err Panic.
Proof.
  split.
  - apply (proj1 (readU64LE_spec (u64_le 5 ++ [xff]) 0)). vm_compute. lia.
  - apply (proj2 (readU64LE_spec (u64_le 5 ++ [xff]) 2)). vm_compute. lia.
Defined.

Lemma parse_total_witness :
  (exists p, parse (encode_journal journal5) = Ok p) /\
  0 <= KernelOutputParser.executionNonce (parsed_of journal5) < 2 ^ 64 /\
  length (KernelOutputParser.actionCommitment (parsed_of journal5)) = 32%nat.
Proof.
  split.
  - apply (proj1 (proj1 (parse_total (encode_journal journal5)))).
    vm_compute. reflexivity.
  - assert (Hp : parse (encode_journal journal5) = Ok (parsed_of journal5))
      by (vm_compute; reflexivity).
    destruct (proj2 (parse_total (encode_journal journal5)) (parsed_of journal5) Hp)
      as (_ & _ & _ & _ & _ & _ & Hn & _ & Ha & _).
    split; [exact Hn | exact Ha].
Defined.

Lemma parse_injective_witness :
  pack_journal (parsed_of journal5) = encode_journal journal5 /\
  encode_journal journal5 = encode_journal journal5.
Proof.
  apply (parse_injective (encode_journal journal5) (encode_journal journal5)
           (parsed_of journal5)); vm_compute; reflexivity.
Defined.

Lemma parseActions_shape_witness :
  Z.of_nat (length [call_action]) = from_le_bytes (firstn 4 (encode_output output5)) /\
  Forall wire_action [call_action] /\
  (4 + actions_size [call_action] <= length (encode_output output5))%nat.
Proof.
  apply (parseActions_shape (encode_output output5) [call_action]).
  vm_compute. reflexivity.
Defined.

Lemma parseActions_ignores_trailing_bytes_witness :
  parseActions (encode_output output5 ++ [xff; xff; xff]) = Ok [call_action].
Proof.
  apply (parseActions_ignores_trailing_bytes (encode_output output5) [xff; xff; xff]).
  vm_compute. reflexivity.
Defined.

Lemma scenario_wire_action : Forall wire_action [call_action; call_bad].
Proof.
  repeat constructor; evaluate.
Defined.

Lemma parseActions_ignores_action_length_witness :
  parseActions (u32_le 2 ++ encode_actions_with [0; 4294967295] [call_action; call_bad])
  = Ok [call_action; call_bad].
Proof.
  apply (parseActions_ignores_action_length [0; 4294967295] [call_action; call_bad]).
  - reflexivity.
  - exact scenario_wire_action.
  - vm_compute. reflexivity.
Defined.

Lemma accepted_submission_checks_witness :
  MyVault.execute nat accept_all selective 1
    (encode_journal journal5) seal (encode_output output5) (vault4, 0%nat)
  = Ok (vault_at 5, 1%nat) /\
  exists parsed acts,
    parse (encode_journal journal5) = Ok parsed /\
    accept_all seal the_image_id (sha256 (encode_journal journal5)) = true /\
    KernelOutputParser.agentId parsed = the_agent_id /\
    4 < KernelOutputParser.executionNonce parsed <= 104 /\
    sha256 (encode_output output5) = KernelOutputParser.actionCommitment parsed /\
    parseActions (encode_output output5) = Ok acts.
Proof.
  assert (H : MyVault.execute nat accept_all selective 1
                (encode_journal journal5) seal (encode_output output5) (vault4, 0%nat)
              = Ok (vault_at 5, 1%nat)) by (vm_compute; reflexivity).
  split; [exact H|].
  destruct (accepted_submission_checks nat accept_all selective _ _ _ _ _ _ H)
    as (parsed & acts & Hp & _ & Ho & _ & _ & Ha & Hn & _ & Hc & Hacts & _).
  exists parsed, acts.
  split; [exact Hp|]. split; [exact Ho|]. split; [exact Ha|].
  split; [exact Hn|]. split; [exact Hc | exact Hacts].
Defined.

Lemma rejection_reasons_witness :
  MyVault.execute nat accept_all selective 1
    (encode_journal journal5) seal (encode_output output5b) (vault4, 0%nat)
  = Err ActionCommitmentMismatch /\
  MyVault.submit nat accept_all selective 1
    (encode_journal journal5) seal (encode_output output5b) (vault4, 0%nat)
  = ((vault4, 0%nat), Some ActionCommitmentMismatch).
Proof.
  assert (Hv : KernelExecutionVerifier.verifyAndParseWithImageId accept_all
                 (trustedImageId (fst (vault4, 0%nat))) (encode_journal journal5) seal
               = Ok (parsed_of journal5)) by (vm_compute; reflexivity).
  pose proof (rejection_reasons nat accept_all selective 0 (encode_journal journal5)
                seal (encode_output output5b) (vault4, 0%nat) (parsed_of journal5) Hv)
    as H.
  cbv zeta in H. destruct H as (_ & _ & _ & _ & Hcommit & Hsubmit).
  assert (Hm : MyVault.execute nat accept_all selective 1
                 (encode_journal journal5) seal (encode_output output5b) (vault4, 0%nat)
               = Err ActionCommitmentMismatch).
  { refine (proj1 (Hcommit _ _ _ _ _ _) _).
    - reflexivity.
    - reflexivity.
    - reflexivity.
    - split; vm_compute; [reflexivity | intro H; discriminate H].
    - vm_compute. reflexivity.
    - reflexivity.
    - vm_compute. intro H. discriminate H. }
  split; [exact Hm | exact (Hsubmit _ Hm)].
Defined.

Lemma nonce_stays_uint64_witness :
  nonce_in_range
    (fst (submit_all nat accept_all selective 1
            [(encode_journal journal5, seal, encode_output output5);
             (encode_journal journal6, seal, encode_output empty_output)]
            (vault4, 0%nat))).
Proof.
  apply (nonce_stays_uint64 nat accept_all selective).
  unfold nonce_in_range. cbn [fst vault4 lastExecutionNonce]. lia.
Defined.

Lemma nonce_space_exhausted_witness :
  MyVault.execute nat accept_all selective 1
    (encode_journal (journal_of (2 ^ 64 - 1) EMPTY_OUTPUT_COMMITMENT Success)) seal
    (encode_output empty_output) (vault_at (2 ^ 64 - 50), 0%nat) = Err Panic.
Proof.
  assert (Hfull : 2 ^ 64 <= lastExecutionNonce (fst (vault_at (2 ^ 64 - 50), 0%nat)) + 100)
    by (vm_compute; intro H; discriminate H).
  apply (proj2 (nonce_space_exhausted nat accept_all selective 1
                  (encode_journal (journal_of (2 ^ 64 - 1) EMPTY_OUTPUT_COMMITMENT Success))
                  seal (encode_output empty_output)
                  (vault_at (2 ^ 64 - 50), 0%nat) Hfull)
           0%nat
           (parsed_of (journal_of (2 ^ 64 - 1) EMPTY_OUTPUT_COMMITMENT Success))).
  - reflexivity.
  - vm_compute. reflexivity.
  - reflexivity.
  - reflexivity.
  - reflexivity.
  - vm_compute. reflexivity.
Defined.

Lemma non_call_actions_are_skipped_witness :
  MyVault.executeActions nat selective (MyVault.execute nat accept_all selective 0)
    [noop_action; noop_action] (vault4, 0%nat) = Ok (vault4, 0%nat).
Proof.
  assert (Hnone : Forall (fun a => actionType a <> ACTION_TYPE_CALL)
                    [noop_action; noop_action])
    by (repeat constructor; vm_compute; intro H; discriminate H).
  apply (proj1 (non_call_actions_are_skipped nat accept_all selective 0
                  (encode_journal journal5) seal (encode_output output5) (vault4, 0%nat)
                  (parsed_of journal5) [noop_action; noop_action] Hnone)).
Defined.

Lemma call_needs_eight_bytes_witness :
  Forall (fun a => actionType a = ACTION_TYPE_CALL -> (8 <= length (payload a))%nat)
    [call_action].
Proof.
  apply (proj2 (call_needs_eight_bytes nat accept_all selective 1
                  (encode_journal journal5) seal (encode_output output5)
                  (vault4, 0%nat) (vault_at 5, 1%nat) [call_action]));
    vm_compute; reflexivity.
Defined.

Lemma decode_input_canonical_witness :
  valid_input input5 /\ encode_input input5 = encode_input input5.
Proof.
  apply (decode_input_canonical (encode_input input5) input5).
  vm_compute. reflexivity.
Defined.

Lemma journal_decoders_agree_witness :
  valid_journal journal5 /\
  encode_journal journal5 = encode_journal journal5 /\
  parse (encode_journal journal5) = Ok (parsed_of journal5).
Proof.
  apply (proj1 (journal_decoders_agree (encode_journal journal5)) journal5).
  vm_compute. reflexivity.
Defined.

Lemma kernel_journal_binds_request_witness :
  exists input,
    decode_input (encode_input input5) = Ok input /\
    agent_id journal5 = in_agent_id input /\
    execution_nonce journal5 = in_execution_nonce input /\
    input_commitment journal5 = sha256 (encode_input input5) /\
    parse (encode_journal journal5) = Ok (parsed_of journal5).
Proof.
  assert (Hk : kernel_main_with_agent always_pass (encode_input input5) agent5
               = Ok journal5) by (vm_compute; reflexivity).
  destruct (kernel_journal_binds_request always_pass (encode_input input5) agent5
              journal5 Hk)
    as (input & Hd & _ & _ & Ha & _ & _ & _ & Hn & Hc & _ & _ & Hp).
  exists input.
  split; [exact Hd|]. split; [exact Ha|]. split; [exact Hn|].
  split; [exact Hc | exact Hp].
Defined.

Lemma kernel_journal_is_executable_witness :
  MyVault.execute nat accept_all selective 1
    (encode_journal journal5) seal (encode_output output5) (vault4, 0%nat)
  = MyVault.executeActions nat selective (MyVault.execute nat accept_all selective 0)
      [call_action] (with_nonce (vault4, 0%nat) 5).
Proof.
  apply (kernel_journal_is_executable nat accept_all selective always_pass
           (encode_input input5) agent5 journal5 input5 0 seal (vault4, 0%nat)).
  - vm_compute. reflexivity.
  - vm_compute. reflexivity.
  - reflexivity.
  - exact scenario_output_valid.
  - vm_compute. intro H. discriminate H.
  - reflexivity.
  - reflexivity.
  - split; vm_compute; [reflexivity | intro H; discriminate H].
  - vm_compute. reflexivity.
Defined.

Lemma violating_agent_has_no_effect_witness :
  execution_status journal5_failed = Failure /\
  exists reason,
    MyVault.execute nat accept_all selective 1
      (encode_journal journal5_failed) seal (encode_output output5) (vault4, 0%nat)
    = Err reason /\
    MyVault.submit nat accept_all selective 1
      (encode_journal journal5_failed) seal (encode_output output5) (vault4, 0%nat)
    = ((vault4, 0%nat), Some reason).
Proof.
  apply (violating_agent_has_no_effect nat accept_all selective always_violate
           (encode_input input5) agent5 journal5_failed input5).
  - vm_compute. reflexivity.
  - vm_compute. reflexivity.
  - reflexivity.
Defined.

Lemma deployed_vault_lifecycle_witness :
  lastExecutionNonce (vault_at 0) = 0 /\
  the_image_id <> zero32 /\
  trustedImageId
    (fst (submit_all nat accept_all selective 1
            [(encode_journal journal5, seal, encode_output output5)] (vault_at 0, 0%nat)))
  = the_image_id /\
  nonce_in_range
    (fst (submit_all nat accept_all selective 1
            [(encode_journal journal5, seal, encode_output output5)] (vault_at 0, 0%nat))).
Proof.
  assert (H : MyVault.constructor (repeat x0e 20) the_agent_id the_image_id
              = Ok (vault_at 0)) by (vm_compute; reflexivity).
  destruct (deployed_vault_lifecycle nat accept_all selective (repeat x0e 20)
              the_agent_id the_image_id (vault_at 0) 0%nat 1
              [(encode_journal journal5, seal, encode_output output5)] H)
    as (Hzero & Himage & _ & _ & _ & Hpinned & Hrange).
  split; [exact Hzero|]. split; [exact Himage|]. split; [exact Hpinned | exact Hrange].
Defined.

(* ================================================================== *)
(** * The length check, the nonce and atomicity of the reference vault *)
(* ================================================================== *)

Section Reentry.

Variable World : Type.
Variable risc0_verify : bytes -> bytes -> bytes -> bool.
Variable code : bytes -> Z -> bytes -> Callee World.

Local Abbreviation State := (MyVault.State World).
Local Abbreviation entry := (MyVault.entry World).
Local Abbreviation execute := (MyVault.execute World risc0_verify code).
Local Abbreviation submit := (MyVault.submit World risc0_verify code).
Local Abbreviation executeActions := (MyVault.executeActions World code).
Local Abbreviation _executeAction := (MyVault._executeAction World code).
Local Abbreviation call := (MyVault.call World code).
Local Abbreviation run_callee := (MyVault.run_callee World).
Local Abbreviation verifyAndParse :=
  (KernelExecutionVerifier.verifyAndParseWithImageId risc0_verify).
Local Abbreviation accepted_by := (MyVault.accepted_by World risc0_verify).
Local Abbreviation reentered := (MyVault.reentered World).
Local Abbreviation action_reentered := (MyVault.action_reentered World code).
Local Abbreviation batch_reentered := (MyVault.batch_reentered World code).

(** The storage of the vault changes during a call only through a call
    back into the vault that is accepted. *)
Lemma run_callee_reentry (h : entry) :
  monotone h ->
  forall c (st st' : State),
    run_callee h c st = Some st' ->
    fst st' = fst st \/
    exists st_call j s o st_in,
      reentered h c st st_call j s o /\
      h j s o st_call = Ok st_in /\ extends st_in st'.
Proof.
  intros Hh. induction c as [[|] | f k IH | k IH | j0 s0 o0 k IH]; intros st st' H;
    cbn [MyVault.run_callee] in H.
  - injection H as <-. left. reflexivity.
  - discriminate H.
  - destruct (IH _ _ H) as [Hsame | (st_call & j & s & o & st_in & Hre & Hin & Hext)].
    + left. exact Hsame.
    + right. exists st_call, j, s, o, st_in.
      split; [apply re_update; exact Hre | split; assumption].
  - destruct (IH _ _ _ _ H) as [Hsame | (st_call & j & s & o & st_in & Hre & Hin & Hext)].
    + left. exact Hsame.
    + right. exists st_call, j, s, o, st_in.
      split; [apply re_observe; exact Hre | split; assumption].
  - destruct (h j0 s0 o0 st) as [st1|e] eqn:E.
    + right. exists st, j0, s0, o0, st1.
      split; [apply re_now|]. split; [exact E|].
      eapply run_callee_extends; [exact Hh | exact H].
    + destruct (IH _ _ _ H) as [Hsame | (st_call & j & s & o & st_in & Hre & Hin & Hext)].
      * left. exact Hsame.
      * right. exists st_call, j, s, o, st_in.
        split; [eapply re_after_err; [exact E | exact Hre] | split; assumption].
Qed.

Lemma executeAction_reentry (h : entry) a (st st' : State) :
  monotone h ->
  _executeAction h a st = Ok st' ->
  fst st' = fst st \/
  exists st_call j s o st_in,
    action_reentered h a st st_call j s o /\
    h j s o st_call = Ok st_in /\ extends st_in st'.
Proof.
  intros Hh. unfold MyVault._executeAction.
  destruct (actionType a =? ACTION_TYPE_CALL) eqn:Et.
  - intros H. apply bind_ok in H. destruct H as (value & Hvalue & H).
    apply bind_ok in H. destruct H as (callData & Hdata & H).
    apply or_else_ok in Hdata. unfold MyVault.call in H.
    destruct (run_callee h (code (address_of (target a)) value callData) st)
      as [st1|] eqn:E; [|discriminate H].
    cbn [require bind] in H. injection H as <-.
    destruct (run_callee_reentry h Hh _ _ _ E)
      as [Hsame | (st_call & j & s & o & st_in & Hre & Hin & Hext)].
    + left. exact Hsame.
    + right. exists st_call, j, s, o, st_in.
      split; [|split; assumption].
      split; [apply Z.eqb_eq; exact Et|].
      exists value, callData. split; [exact Hvalue|]. split; [exact Hdata | exact Hre].
  - intros H. injection H as <-. left. reflexivity.
Qed.

Lemma executeActions_reentry (h : entry) :
  monotone h ->
  forall acts (st st' : State),
    executeActions h acts st = Ok st' ->
    fst st' = fst st \/
    exists st_call j s o st_in,
      batch_reentered h acts st st_call j s o /\
      h j s o st_call = Ok st_in /\ extends st_in st'.
Proof.
  intros Hh. induction acts as [|a rest IH]; intros st st' H;
    cbn [MyVault.executeActions] in H.
  - injection H as <-. left. reflexivity.
  - apply bind_ok in H. destruct H as (st1 & Hhead & Hrest).
    destruct (executeAction_reentry h a st st1 Hh Hhead)
      as [Hsame | (st_call & j & s & o & st_in & Hre & Hin & Hext)].
    + destruct (IH _ _ Hrest)
        as [Hsame' | (st_call & j & s & o & st_in & Hre & Hin & Hext)].
      * left. rewrite Hsame'. exact Hsame.
      * right. exists st_call, j, s, o, st_in.
        split; [eapply br_tail; [exact Hhead | exact Hre] | split; assumption].
    + right. exists st_call, j, s, o, st_in.
      split; [apply br_head; exact Hre|]. split; [exact Hin|].
      eapply extends_trans; [exact Hext|].
      eapply executeActions_extends; [exact Hh | exact Hrest].
Qed.

(** C4 (amended): the vault accepts a submission only when the nonce of its
    journal is strictly greater than [lastExecutionNonce]; a journal that
    passed the proof, version and agent checks and whose nonce is not
    greater is rejected with [InvalidNonce] ("Invalid nonce", the stale or
    replayed nonce of the specification).  After an accepted submission
    [lastExecutionNonce] is at least the accepted nonce, and it is equal to
    the accepted nonce unless, while the actions of the submission ran, a
    called contract re-entered the vault with a submission that was accepted
    and whose journal carries a larger nonce (in particular it is equal when
    no called contract re-enters the vault); so the same accepted (journal,
    proof, actions) triple, submitted again, always fails the nonce check. *)
Theorem nonce_monotonicity :
  (forall d j s o st st',
      execute d j s o st = Ok st' ->
      exists parsed,
        KernelOutputParser.parse j = Ok parsed /\
        lastExecutionNonce (fst st) < KernelOutputParser.executionNonce parsed /\
        KernelOutputParser.executionNonce parsed <= lastExecutionNonce (fst st') /\
        (lastExecutionNonce (fst st') = KernelOutputParser.executionNonce parsed \/
         exists d' acts st_call j' s' o' st_in parsed',
           d = S d' /\
           parseActions o = Ok acts /\
           batch_reentered (execute d') acts
             (with_nonce st (KernelOutputParser.executionNonce parsed))
             st_call j' s' o' /\
           execute d' j' s' o' st_call = Ok st_in /\
           KernelOutputParser.parse j' = Ok parsed' /\
           KernelOutputParser.executionNonce parsed
           < KernelOutputParser.executionNonce parsed'
           <= lastExecutionNonce (fst st')) /\
        ((forall t v c, quiet (code t v c)) ->
         lastExecutionNonce (fst st') = KernelOutputParser.executionNonce parsed) /\
        forall d', execute (S d') j s o st' = Err InvalidNonce) /\
  (forall d j s o st parsed,
      verifyAndParse (trustedImageId (fst st)) j s = Ok parsed ->
      KernelOutputParser.protocolVersion parsed = 1 ->
      KernelOutputParser.kernelVersion parsed = 1 ->
      KernelOutputParser.agentId parsed = agentId (fst st) ->
      KernelOutputParser.executionNonce parsed <= lastExecutionNonce (fst st) ->
      execute (S d) j s o st = Err InvalidNonce).
Proof.
  split.
  - intros d j s o st st' H. destruct d as [|d]; [discriminate|].
    apply execute_inv in H. destruct H as (parsed & acts & Hacc & Hrun).
    exists parsed.
    pose proof (executeActions_extends _ _ _ _ (execute_monotone _ _ _ d) _ _ Hrun)
      as Hext.
    split; [eapply accepted_parse; exact Hacc|].
    split; [destruct Hacc; assumption|].
    split; [destruct Hext as (_ & _ & _ & Hn); exact Hn|].
    split; [|split].
    + destruct (executeActions_reentry _ (execute_monotone _ _ _ d) _ _ _ Hrun)
        as [Hsame | (st_call & j' & s' & o' & st_in & Hre & Hin & Hafter)].
      * left. rewrite Hsame. reflexivity.
      * right. destruct d as [|d0]; [discriminate Hin|].
        pose proof Hin as Hinner. apply execute_inv in Hinner.
        destruct Hinner as (parsed' & acts' & Hacc' & Hrun').
        exists (S d0), acts, st_call, j', s', o', st_in, parsed'.
        split; [reflexivity|].
        split; [destruct Hacc; assumption|].
        split; [exact Hre|]. split; [exact Hin|].
        split; [eapply accepted_parse; exact Hacc'|].
        pose proof (batch_reentered_extends _ _ _ (execute_monotone _ _ _ (S d0))
                      _ _ _ _ _ _ Hre) as (_ & _ & _ & Hstart).
        pose proof (executeActions_extends _ _ _ _ (execute_monotone _ _ _ d0) _ _ Hrun')
          as (_ & _ & _ & Hinside).
        destruct Hafter as (_ & _ & _ & Hend).
        destruct Hacc' as [_ _ _ _ Hfresh _ _ _ _ _].
        cbn [with_nonce fst set_lastExecutionNonce lastExecutionNonce] in Hstart, Hinside.
        lia.
    + intros Hq. apply executeActions_quiet in Hrun; [|exact Hq].
      rewrite Hrun. reflexivity.
    + intros d'. eapply accepted_then_stale; eassumption.
  - intros. eapply execute_stale; eassumption.
Qed.

(** C6: action execution is all-or-nothing per submission.  An action of the
    reference vault fails in exactly two ways: it is a [Call] whose payload
    is too short to hold the value (a panic), or it is a [Call] whose
    low-level call reports [success = false], which [require(success, "Call
    failed")] turns into a revert.  If the actions before [a] run and [a]
    then fails in one of these ways, [_executeAction] reverts and so does
    [execute]; the submission leaves the whole state, that is the world the
    earlier actions had changed and [lastExecutionNonce], exactly as it was
    before, and no outcome of the submission is a success: there is no
    partial-success path.  When every check had passed, the revert reason is
    that of the failed action. *)
Theorem batch_all_or_nothing d j s o st parsed pre a post st2 e :
  KernelOutputParser.parse j = Ok parsed ->
  parseActions o = Ok (pre ++ a :: post) ->
  executeActions (execute d) pre
    (with_nonce st (KernelOutputParser.executionNonce parsed)) = Ok st2 ->
  actionType a = ACTION_TYPE_CALL ->
  (((length (payload a) < 8)%nat /\ e = Panic) \/
   (exists value callData,
       KernelOutputParser._readU64LE (payload a) 0 = Ok value /\
       slice (payload a) 8 (length (payload a)) = Some callData /\
       fst (call (execute d) (address_of (target a)) value callData st2) = false /\
       e = CallFailed)) ->
  _executeAction (execute d) a st2 = Err e /\
  (exists reason,
      execute (S d) j s o st = Err reason /\
      submit (S d) j s o st = (st, Some reason) /\
      (accepted_by st j s o parsed (pre ++ a :: post) -> reason = e)) /\
  (forall st' outcome,
      submit (S d) j s o st = (st', outcome) ->
      outcome <> None /\ st' = st) /\
  (forall (h : entry) a0 (st0 : State) e0,
      _executeAction h a0 st0 = Err e0 ->
      actionType a0 = ACTION_TYPE_CALL /\
      (((length (payload a0) < 8)%nat /\ e0 = Panic) \/
       (exists value callData,
           KernelOutputParser._readU64LE (payload a0) 0 = Ok value /\
           slice (payload a0) 8 (length (payload a0)) = Some callData /\
           fst (call h (address_of (target a0)) value callData st0) = false /\
           e0 = CallFailed))).
Proof.
  intros Hp Ha Hpre Ht Hfails.
  assert (Hfail : _executeAction (execute d) a st2 = Err e).
  { destruct Hfails as [(Hshort & ->) | (value & callData & Hvalue & Hdata & Hcall & ->)].
    - apply executeAction_short_payload; assumption.
    - unfold MyVault._executeAction. rewrite Ht, Hvalue, Hdata.
      cbn [Z.eqb Pos.eqb ACTION_TYPE_CALL or_else bind].
      destruct (call (execute d) (address_of (target a)) value callData st2)
        as [success st3].
      cbn [fst] in Hcall. rewrite Hcall. reflexivity. }
  assert (Hbatch : executeActions (execute d) (pre ++ a :: post)
                     (with_nonce st (KernelOutputParser.executionNonce parsed)) = Err e).
  { rewrite executeActions_app, Hpre. cbn [bind MyVault.executeActions].
    rewrite Hfail. reflexivity. }
  assert (Hrev : exists reason, execute (S d) j s o st = Err reason /\
                   (accepted_by st j s o parsed (pre ++ a :: post) -> reason = e)).
  { destruct (execute (S d) j s o st) as [st'|reason] eqn:E.
    - exfalso. apply execute_inv in E. destruct E as (parsed' & acts & Hacc & Hrun).
      pose proof (accepted_parse _ _ _ _ _ _ _ _ Hacc) as Hp'.
      rewrite Hp in Hp'. injection Hp' as <-.
      destruct Hacc as [_ _ _ _ _ _ _ _ _ Hacts]. rewrite Ha in Hacts.
      injection Hacts as <-. rewrite Hbatch in Hrun. discriminate Hrun.
    - exists reason. split; [reflexivity|].
      intros Hacc. rewrite (execute_accepted _ _ _ _ _ _ _ _ _ _ Hacc), Hbatch in E.
      injection E as <-. reflexivity. }
  destruct Hrev as (reason & Hrev & Hwhy).
  pose proof (execute_failure_keeps_state _ _ _ _ _ _ _ _ _ Hrev) as Hkept.
  split; [exact Hfail|]. split; [|split].
  - exists reason. split; [exact Hrev|]. split; [exact Hkept | exact Hwhy].
  - intros st' outcome Hs. rewrite Hkept in Hs.
    injection Hs as <- <-. split; [discriminate | reflexivity].
  - intros h a0 st0 e0 H0.
    assert (Ht0 : actionType a0 = ACTION_TYPE_CALL).
    { unfold MyVault._executeAction in H0.
      destruct (actionType a0 =? ACTION_TYPE_CALL) eqn:Et0; [|discriminate H0].
      apply Z.eqb_eq. exact Et0. }
    split; [exact Ht0|].
    destruct (Nat.le_gt_cases 8 (length (payload a0))) as [L|L].
    + right. unfold MyVault._executeAction in H0. rewrite Ht0 in H0.
      cbn [Z.eqb Pos.eqb ACTION_TYPE_CALL] in H0.
      assert (Hdata : slice (payload a0) 8 (length (payload a0))
                      = Some (firstn (length (payload a0) - 8) (skipn 8 (payload a0)))).
      { unfold slice. destruct (Nat.leb_spec 8 (length (payload a0))); [|lia].
        rewrite Nat.leb_refl. reflexivity. }
      rewrite (readU64LE_in_bounds (payload a0) 0 L), Hdata in H0.
      cbn [or_else bind] in H0.
      exists (from_le_bytes (firstn 8 (skipn 0 (payload a0)))),
        (firstn (length (payload a0) - 8) (skipn 8 (payload a0))).
      split; [apply readU64LE_in_bounds; exact L|]. split; [exact Hdata|].
      destruct (call h (address_of (target a0))
                  (from_le_bytes (firstn 8 (skipn 0 (payload a0))))
                  (firstn (length (payload a0) - 8) (skipn 8 (payload a0))) st0)
        as [success st3].
      destruct success; cbn [require bind fst] in *; [discriminate H0|].
      injection H0 as <-. split; reflexivity.
    + left. rewrite (executeAction_short_payload _ _ h a0 st0 Ht0 L) in H0.
      injection H0 as <-. split; [exact L | reflexivity].
Qed.

End Reentry.

(** C1: the encoded [KernelJournalV1] is always exactly 209 bytes, with
    protocol_version at offset 0 (4 bytes), kernel_version at 4 (4),
    agent_id at 8 (32), agent_code_hash at 40 (32), constraint_set_hash at 72
    (32), input_root at 104 (32), execution_nonce at 136 (8, little-endian),
    input_commitment at 144 (32), action_commitment at 176 (32) and
    execution_status at 208 (1), and the Solidity parser reads these fields
    back.  A journal whose length is not 209 is rejected with
    [InvalidLength] ("Invalid journal length") before any other check: by
    the parser, whose length check is its first statement, whatever the bytes
    are; and by [execute] of every vault the constructor returns, after any
    sequence of submissions, whatever the seal, the proof oracle, the actions
    and the stored nonce are, the submission leaving the state as it was. *)
Theorem journal_is_209_bytes (j : KernelJournalV1) :
  valid_journal j ->
  length (encode_journal j) = 209%nat /\
  (slice (encode_journal j) 0 4 = Some (u32_le (protocol_version j)) /\
   slice (encode_journal j) 4 8 = Some (u32_le (kernel_version j)) /\
   slice (encode_journal j) 8 40 = Some (agent_id j) /\
   slice (encode_journal j) 40 72 = Some (agent_code_hash j) /\
   slice (encode_journal j) 72 104 = Some (constraint_set_hash j) /\
   slice (encode_journal j) 104 136 = Some (input_root j) /\
   slice (encode_journal j) 136 144 = Some (u64_le (execution_nonce j)) /\
   slice (encode_journal j) 144 176 = Some (input_commitment j) /\
   slice (encode_journal j) 176 208 = Some (action_commitment j) /\
   slice (encode_journal j) 208 209
   = Some [byte_of_Z (status_byte (execution_status j))]) /\
  KernelOutputParser.parse (encode_journal j) = Ok (parsed_of j) /\
  (forall journal,
      length journal <> 209%nat ->
      KernelOutputParser.parse journal = Err InvalidLength) /\
  (forall World risc0_verify code _verifier _agentId _trustedImageId this
          (w : World) d submissions d' journal seal agentOutput,
      MyVault.constructor _verifier _agentId _trustedImageId = Ok this ->
      length journal <> 209%nat ->
      MyVault.execute World risc0_verify code (S d') journal seal agentOutput
        (submit_all World risc0_verify code d submissions (this, w))
      = Err InvalidLength /\
      MyVault.submit World risc0_verify code (S d') journal seal agentOutput
        (submit_all World risc0_verify code d submissions (this, w))
      = (submit_all World risc0_verify code d submissions (this, w),
         Some InvalidLength)).
Proof.
  intros Hv.
  destruct (journal_integer_fields j Hv) as (I0 & I4 & I136 & I208).
  split; [apply encode_journal_length; exact Hv|].
  split.
  { repeat split; try assumption.
    - apply journal_at_8; exact Hv.
    - apply journal_at_40; exact Hv.
    - apply journal_at_72; exact Hv.
    - apply journal_at_104; exact Hv.
    - apply journal_at_144; exact Hv.
    - apply journal_at_176; exact Hv. }
  split; [apply parse_encode_journal; exact Hv|].
  split; [exact parse_wrong_length|].
  intros World risc0_verify code _verifier _agentId _trustedImageId this w d
    submissions d' journal seal0 agentOutput Hnew Hl.
  assert (Himage : trustedImageId
                     (fst (submit_all World risc0_verify code d submissions (this, w)))
                   <> zero32).
  { destruct (submit_all_extends World risc0_verify code d submissions (this, w))
      as (_ & _ & Hpinned & _).
    rewrite Hpinned. unfold MyVault.constructor in Hnew.
    apply bind_ok in Hnew. destruct Hnew as (u & Hguard & Hnew).
    apply require_ok in Hguard. injection Hnew as <-.
    cbn [fst trustedImageId]. apply bytes_eqb_neq.
    apply Bool.negb_true_iff. exact Hguard. }
  pose proof (execute_wrong_length World risc0_verify code d' journal seal0 agentOutput
                _ Himage Hl) as E.
  split; [exact E|]. unfold MyVault.submit. rewrite E. reflexivity.
Qed.

(* ------------------------------------------------------------------ *)
(** ** These three properties at the scenario *)
(* ------------------------------------------------------------------ *)

Lemma journal_is_209_bytes_witness :
  valid_journal journal5 /\
  length (encode_journal journal5) = 209%nat /\
  KernelOutputParser.parse (encode_journal journal5) = Ok (parsed_of journal5) /\
  MyVault.submit nat accept_all selective 1 [x00] seal (encode_output output5)
    (submit_all nat accept_all selective 1
       [(encode_journal journal5, seal, encode_output output5)] (vault_at 0, 0%nat))
  = (submit_all nat accept_all selective 1
       [(encode_journal journal5, seal, encode_output output5)] (vault_at 0, 0%nat),
     Some InvalidLength).
Proof.
  split; [exact scenario_journal_valid|].
  destruct (journal_is_209_bytes journal5 scenario_journal_valid)
    as (Hlen & _ & Hparse & _ & Hvault).
  split; [exact Hlen|]. split; [exact Hparse|].
  apply (Hvault nat accept_all selective (repeat x0e 20) the_agent_id the_image_id
           (vault_at 0) 0%nat 1%nat
           [(encode_journal journal5, seal, encode_output output5)] 0%nat
           [x00] seal (encode_output output5)).
  - vm_compute. reflexivity.
  - vm_compute. intro H. discriminate H.
Defined.

Lemma nonce_monotonicity_witness :
  MyVault.execute nat accept_all selective 1
    (encode_journal journal5) seal (encode_output output5) (vault4, 0%nat)
  = Ok (vault_at 5, 1%nat) /\
  exists parsed,
    KernelOutputParser.parse (encode_journal journal5) = Ok parsed /\
    4 < KernelOutputParser.executionNonce parsed /\
    KernelOutputParser.executionNonce parsed <= 5 /\
    MyVault.execute nat accept_all selective 1
      (encode_journal journal5) seal (encode_output output5) (vault_at 5, 1%nat)
    = Err InvalidNonce.
Proof.
  assert (H : MyVault.execute nat accept_all selective 1
                (encode_journal journal5) seal (encode_output output5) (vault4, 0%nat)
              = Ok (vault_at 5, 1%nat)) by (vm_compute; reflexivity).
  split; [exact H|].
  destruct (proj1 (nonce_monotonicity nat accept_all selective) _ _ _ _ _ _ H)
    as (parsed & Hp & Hlo & Hhi & _ & _ & Hreplay).
  exists parsed. split; [exact Hp|]. split; [exact Hlo|]. split; [exact Hhi|].
  exact (Hreplay 0%nat).
Defined.

Lemma batch_all_or_nothing_witness :
  MyVault.executeActions nat selective (MyVault.execute nat accept_all selective 0)
    [call_action] (with_nonce (vault4, 0%nat) 5) = Ok (vault_at 5, 1%nat) /\
  fst (MyVault.call nat selective (MyVault.execute nat accept_all selective 0)
         (address_of (target call_bad)) 0 [] (vault_at 5, 1%nat)) = false /\
  MyVault._executeAction nat selective (MyVault.execute nat accept_all selective 0)
    call_bad (vault_at 5, 1%nat) = Err CallFailed /\
  exists reason,
    MyVault.submit nat accept_all selective 1
      (encode_journal journal5b) seal (encode_output output5b) (vault4, 0%nat)
    = ((vault4, 0%nat), Some reason).
Proof.
  assert (Hpre : MyVault.executeActions nat selective
                   (MyVault.execute nat accept_all selective 0)
                   [call_action] (with_nonce (vault4, 0%nat) 5)
                 = Ok (vault_at 5, 1%nat)) by (vm_compute; reflexivity).
  assert (Hcall : fst (MyVault.call nat selective
                         (MyVault.execute nat accept_all selective 0)
                         (address_of (target call_bad)) 0 [] (vault_at 5, 1%nat))
                  = false) by (vm_compute; reflexivity).
  split; [exact Hpre|]. split; [exact Hcall|].
  assert (Hp : KernelOutputParser.parse (encode_journal journal5b)
               = Ok (parsed_of journal5b)) by (vm_compute; reflexivity).
  assert (Ha : parseActions (encode_output output5b)
               = Ok ([call_action] ++ call_bad :: [])) by (vm_compute; reflexivity).
  assert (Hvalue : KernelOutputParser._readU64LE (payload call_bad) 0 = Ok 0)
    by (vm_compute; reflexivity).
  assert (Hdata : slice (payload call_bad) 8 (length (payload call_bad)) = Some [])
    by (vm_compute; reflexivity).
  destruct (batch_all_or_nothing nat accept_all selective 0%nat
              (encode_journal journal5b) seal (encode_output output5b) (vault4, 0%nat)
              (parsed_of journal5b) [call_action] call_bad [] (vault_at 5, 1%nat)
              CallFailed Hp Ha Hpre eq_refl
              (or_intror (ex_intro _ 0 (ex_intro _ []
                 (conj Hvalue (conj Hdata (conj Hcall eq_refl)))))))
    as (Hfail & (reason & _ & Hsubmit & _) & _).
  split; [exact Hfail|]. exists reason. exact Hsubmit.
Defined.
